(** * Artifex generation workflow: a shallow embedding

    The development follows the backend of the repository:
    - [services/freepikService]      (provider client, poll loops, asset upload),
    - [services/imageGenerationOrchestrator] (the job orchestrator),
    - [controllers/imageGeneration]  (HTTP layer of the image endpoints),
    - [controllers/videoGeneration], [services/videoGenerationService],
      [routes/video] and [middleware/auth] (HTTP layer of the video endpoints).

    Asynchronous code is modelled by state passing over a [World] that holds
    the persistent collections and counters of the calls made to each
    collaborator; a JavaScript exception is the [Throw] outcome of a
    computation.  What the collaborators answer is read from an [Env]:
    the n-th call to a collaborator gets the n-th scripted answer. *)

From stdpp Require Import gmap strings list.
From Stdlib Require Import ZArith Ascii DecimalString Lia.

Open Scope string_scope.
Open Scope Z_scope.

(** ** JavaScript values used by the code *)

(** Decimal rendering of an integer inside a template literal. *)
Definition show_Z (z : Z) : string := NilZero.string_of_int (Z.to_int z).

(** [s.includes(needle)] *)
Fixpoint includes (needle s : string) : bool :=
  String.prefix needle s ||
  match s with
  | EmptyString => false
  | String _ rest => includes needle rest
  end.

(** The strings of the model are strings of bytes: a JavaScript string is
    held in UTF-8, a surrogate that stands alone in the three bytes of its
    code point.  [code_points] reads the code points back; a byte that
    cannot start or continue a sequence gives U+FFFD. *)
Definition continuation (b : N) : bool := (128 <=? b)%N && (b <? 192)%N.

(** What the first byte of a sequence gives: a code point at once, or the
    number of bytes that follow and the bits read so far. *)
Definition lead (b : N) : option N * nat * N :=
  if (b <? 128)%N then (Some b, O, 0%N)
  else if (b <? 192)%N then (Some 65533%N, O, 0%N)
  else if (b <? 224)%N then (None, 1%nat, (b mod 32)%N)
  else if (b <? 240)%N then (None, 2%nat, (b mod 16)%N)
  else if (b <? 248)%N then (None, 3%nat, (b mod 8)%N)
  else (Some 65533%N, O, 0%N).

Definition emit (o : option N) (l : list N) : list N :=
  match o with
  | Some p => p :: l
  | None => l
  end.

Fixpoint code_points_from (pending : nat) (bits : N) (s : string) : list N :=
  match s with
  | EmptyString =>
      match pending with
      | O => []
      | S _ => [65533%N]
      end
  | String c rest =>
      let b := Ascii.N_of_ascii c in
      match pending with
      | S more =>
          if continuation b then
            match more with
            | O => (bits * 64 + b mod 64)%N :: code_points_from O 0%N rest
            | S _ => code_points_from more (bits * 64 + b mod 64)%N rest
            end
          else
            let '(first, pending', bits') := lead b in
            65533%N :: emit first (code_points_from pending' bits' rest)
      | O =>
          let '(first, pending', bits') := lead b in
          emit first (code_points_from pending' bits' rest)
      end
  end.

Definition code_points (s : string) : list N := code_points_from O 0%N s.

(** [s.length]: the number of UTF-16 code units, two for a code point
    above U+FFFF. *)
Definition js_length (s : string) : nat :=
  foldr (fun p n => if (p <? 65536)%N then S n else S (S n)) O (code_points s).

(** The white space and the line terminators of ECMAScript, which
    [String.prototype.trim] removes: TAB, LF, VT, FF, CR, the space, the
    no-break space, U+1680, U+2000 to U+200A, U+2028, U+2029, U+202F, U+205F,
    U+3000 and U+FEFF. *)
Definition is_space (p : N) : bool :=
  ((9 <=? p)%N && (p <=? 13)%N) || (p =? 32)%N || (p =? 160)%N || (p =? 5760)%N
  || ((8192 <=? p)%N && (p <=? 8202)%N) || (p =? 8232)%N || (p =? 8233)%N
  || (p =? 8239)%N || (p =? 8287)%N || (p =? 12288)%N || (p =? 65279)%N.

(** [s.trim().length === 0] *)
Definition is_blank (s : string) : bool := forallb is_space (code_points s).

(** Truthiness of an optional string: [undefined], [null] and [''] are falsy. *)
Definition truthy (o : option string) : bool :=
  match o with
  | Some s => negb (String.eqb s "")
  | None => false
  end.

(** [a || b] on optional strings. *)
Definition or_else (a b : option string) : option string :=
  if truthy a then a else b.

(** [a || d] with a literal default. *)
Definition or_lit (a : option string) (d : string) : string :=
  match a with
  | Some s => if String.eqb s "" then d else s
  | None => d
  end.

(** [n || d] on optional numbers: [undefined] and [0] are falsy. *)
Definition or_num (n : option Z) (d : Z) : Z :=
  match n with
  | Some z => if Z.eqb z 0 then d else z
  | None => d
  end.

(** ** Errors *)

(** The [errorCode] of an error.  Codes written as literals in the sources
    are [Lit]; [Num] is a numeric driver code copied by [generateVideo]. *)
Inductive ErrorCode :=
| Lit (s : string)
| Num (z : Z)
| OfQuotaExceededError
| OfValidationError
| OfSubscriptionError
| ProviderRejected
| ProviderUnavailable.

(** Modelled from the spec: the error classes of [utils/imageGenerationErrors]
    are imported by every service but the file is not part of the sources.
    [AppError(message, statusCode, errorCode)] is used as the call sites use
    it; [QuotaExceededError], [ValidationError] and [SubscriptionError] are
    the typed failure reasons of the specification, taken as subclasses of
    [AppError] whose constructor fixes the code ([OfQuotaExceededError], ...)
    and a status that the sources do not show ([None]).  [Error] is any
    other JavaScript [Error], with the numeric [code] some drivers attach. *)
Inductive Exn :=
| AppError (message : string) (statusCode : option Z) (errorCode : ErrorCode)
| Error (message : string) (code : option Z).

Definition QuotaExceededError (message : string) : Exn :=
  AppError message None OfQuotaExceededError.
Definition ValidationError (message : string) : Exn :=
  AppError message None OfValidationError.
Definition SubscriptionError (message : string) : Exn :=
  AppError message None OfSubscriptionError.

Definition exn_message (e : Exn) : string :=
  match e with
  | AppError m _ _ => m
  | Error m _ => m
  end.

Inductive Outcome (A : Type) :=
| Ret (a : A)
| Throw (e : Exn).
Arguments Ret {A} a.
Arguments Throw {A} e.

(** ** Data model *)

Inductive Tier := Free | Plus | Pro.

Definition tier_name (t : Tier) : string :=
  match t with Free => "free" | Plus => "plus" | Pro => "pro" end.

Inductive GenerationType := TextToImage | ImageToImage | MultiImage | Refine.

Inductive Status := Pending | Processing | Completed | Failed.

(** An image as the provider client returns it and as
    [processGeneratedImages] extends it; [i_data] is the inline [data] that
    [processGeneratedImages] looks for, which the provider client never
    sets. *)
Record Image := {
  i_id : option string;
  i_data : option string;
  i_url : option string;
  i_secureUrl : option string;
  i_publicId : option string;
  i_width : Z;
  i_height : Z;
  i_format : string;
  i_bytes : option Z;
  i_size : Z;
  i_cloudinaryUrl : option string;
  i_originalUrl : string;
  i_thumbnailUrl : option string;
  i_tier : option Tier;
  i_processingError : option string
}.

(** An element of [outputImages] of a generation document. *)
Record OutputImage := {
  o_url : option string;
  o_width : Z;
  o_height : Z;
  o_format : string;
  o_fileSize : option Z;
  o_storageKey : option string;
  o_thumbnailUrl : option string;
  o_publicId : option string;
  o_secureUrl : option string;
  o_cloudinaryUrl : option string;
  o_bytes : option Z
}.

(** A document of the [ImageGeneration] collection.  [g_id] is [None]
    until the document has been inserted. *)
Record ImageGeneration := {
  g_id : option nat;
  g_userId : string;
  g_type : GenerationType;
  g_status : Status;
  g_prompt : string;
  g_quality : option string;
  g_inputImages : list string;
  g_outputImages : list OutputImage;
  g_cost : Z;
  g_credits : Z;
  g_errorMessage : option string
}.

Record User := {
  u_isActive : bool;
  u_subscriptionTier : Tier;
  u_monthlyUsage : Z
}.

Record GenerationRequest := {
  r_prompt : string;
  r_quality : option string;
  r_batchSize : option Z;
  r_aspectRatio : option string;
  r_style : option string
}.

Record QuotaInfo := {
  q_remaining : Z
}.

Record GenerationContext := {
  c_userId : string;
  c_subscriptionTier : Tier;
  c_quotaInfo : QuotaInfo;
  c_subscriptionActive : bool;
  c_request : GenerationRequest
}.

Record CostOptions := {
  co_quality : option string;
  co_batchSize : Z;
  co_aspectRatio : option string;
  co_style : option string
}.

(** ** Collaborators *)

(** Answer of [fetch] followed by the reading of the body: one of them
    rejects, or the response is [ok] or not. *)
Inductive Fetched (A : Type) :=
| NetworkError (e : Exn)
| HttpError (status : Z) (text : string)
| HttpOk (body : A).
Arguments NetworkError {A} e.
Arguments HttpError {A} status text.
Arguments HttpOk {A} body.

(** Body of the answer to a submission, after [data.data || data];
    [sb_task] stands for [task_id || id || generation_id]. *)
Record SubmitBody := {
  sb_image_url : option string;
  sb_task : option string
}.

(** An element of [generated]: a plain URL or an object with URL fields. *)
Inductive Generated :=
| GenUrl (u : string)
| GenObj (url image_url image : option string).

Record PollBody := {
  pb_status : string;
  pb_generated : list Generated;
  pb_image_url : option string;
  pb_error : option string
}.

(** Body of a video status answer; [vb_video] stands for
    [video_url || url || video || output[0] || generated[0]] and [vb_error]
    for the first error field that is set. *)
Record VideoPollBody := {
  vb_status : string;
  vb_video : option string;
  vb_error : option string
}.

Record CloudinaryUploadResult := {
  cu_success : bool;
  cu_publicId : option string;
  cu_secureUrl : option string;
  cu_width : option Z;
  cu_height : option Z;
  cu_format : option string;
  cu_bytes : option Z
}.

Record ValidationResult := {
  v_valid : bool;
  v_errors : string
}.

(** Answer to the probe of a video source image. *)
Inductive Probe :=
| ProbeRejected
| ProbeAnswer (ok : bool) (status : Z) (statusText : string)
              (contentType : option string).

Inductive Backoff := FixedDelay | ExponentialDelay.

(** What the outside world answers.  The n-th call of a kind gets the
    answer at index n. *)
Record Env := {
  db_fault : nat -> option Exn;
  submit_answer : nat -> Fetched SubmitBody;
  poll_answer : nat -> Fetched PollBody;
  video_submit_answer : nat -> Fetched (option string);
  video_poll_answer : nat -> Fetched VideoPollBody;
  download_ok : nat -> Outcome bool;
  upload_answer : nat -> Outcome CloudinaryUploadResult;
  thumbnail_answer : string -> Outcome string;
  local_file : string -> Outcome bool;
  probe_answer : string -> Probe;
  validateImage : string -> string -> Tier -> Outcome ValidationResult;
  calculateGenerationCost : GenerationType -> CostOptions -> Z;
  axios_post : nat -> Outcome (string * string);
  backoff : Backoff;
  apiKey : string
}.

(** The state of the outside world and the calls made so far. *)
Record World := {
  users : gmap string User;
  generations : list ImageGeneration;
  journal : list ImageGeneration;
  dbops : nat;
  submits : nat;
  polls : nat;
  video_submits : nat;
  video_polls : nat;
  downloads : nat;
  uploads : nat;
  posts : nat;
  sleeps : list Z;
  now : Z
}.

(** ** Computations *)

Definition M (A : Type) : Type := World -> Outcome A * World.

Definition ret {A} (a : A) : M A := fun w => (Ret a, w).

Definition throw {A} (e : Exn) : M A := fun w => (Throw e, w).

Definition bind {A B} (m : M A) (k : A -> M B) : M B :=
  fun w =>
    match m w with
    | (Ret a, w') => k a w'
    | (Throw e, w') => (Throw e, w')
    end.

(** [try { m } catch (e) { h e }] *)
Definition try_catch {A} (m : M A) (h : Exn -> M A) : M A :=
  fun w =>
    match m w with
    | (Ret a, w') => (Ret a, w')
    | (Throw e, w') => h e w'
    end.

(** Runs [m] and hands its outcome to the continuation: the shape of a
    [try] whose [catch] returns instead of throwing. *)
Definition attempt {A} (m : M A) : M (Outcome A) :=
  fun w => let (o, w') := m w in (Ret o, w').

Notation "'let*' x ':=' m 'in' k" := (bind m (fun x => k))
  (at level 10, x name, m at level 100, k at level 200).
Notation "m ;; k" := (bind m (fun _ => k))
  (at level 100, k at level 200, right associativity).

(** *** Updates of the world *)

Definition with_users (f : gmap string User -> gmap string User) (w : World) : World :=
  {| users := f (users w); generations := generations w; journal := journal w;
     dbops := dbops w; submits := submits w; polls := polls w;
     video_submits := video_submits w; video_polls := video_polls w;
     downloads := downloads w; uploads := uploads w; posts := posts w;
     sleeps := sleeps w; now := now w |}.

Definition with_generations (f : list ImageGeneration -> list ImageGeneration)
    (w : World) : World :=
  {| users := users w; generations := f (generations w); journal := journal w;
     dbops := dbops w; submits := submits w; polls := polls w;
     video_submits := video_submits w; video_polls := video_polls w;
     downloads := downloads w; uploads := uploads w; posts := posts w;
     sleeps := sleeps w; now := now w |}.

Definition with_journal (g : ImageGeneration) (w : World) : World :=
  {| users := users w; generations := generations w; journal := journal w ++ [g];
     dbops := dbops w; submits := submits w; polls := polls w;
     video_submits := video_submits w; video_polls := video_polls w;
     downloads := downloads w; uploads := uploads w; posts := posts w;
     sleeps := sleeps w; now := now w |}.

Definition tick_dbops (w : World) : World :=
  {| users := users w; generations := generations w; journal := journal w;
     dbops := S (dbops w); submits := submits w; polls := polls w;
     video_submits := video_submits w; video_polls := video_polls w;
     downloads := downloads w; uploads := uploads w; posts := posts w;
     sleeps := sleeps w; now := now w |}.

Definition tick_submits (w : World) : World :=
  {| users := users w; generations := generations w; journal := journal w;
     dbops := dbops w; submits := S (submits w); polls := polls w;
     video_submits := video_submits w; video_polls := video_polls w;
     downloads := downloads w; uploads := uploads w; posts := posts w;
     sleeps := sleeps w; now := now w |}.

Definition tick_polls (w : World) : World :=
  {| users := users w; generations := generations w; journal := journal w;
     dbops := dbops w; submits := submits w; polls := S (polls w);
     video_submits := video_submits w; video_polls := video_polls w;
     downloads := downloads w; uploads := uploads w; posts := posts w;
     sleeps := sleeps w; now := now w |}.

Definition tick_video_submits (w : World) : World :=
  {| users := users w; generations := generations w; journal := journal w;
     dbops := dbops w; submits := submits w; polls := polls w;
     video_submits := S (video_submits w); video_polls := video_polls w;
     downloads := downloads w; uploads := uploads w; posts := posts w;
     sleeps := sleeps w; now := now w |}.

Definition tick_video_polls (w : World) : World :=
  {| users := users w; generations := generations w; journal := journal w;
     dbops := dbops w; submits := submits w; polls := polls w;
     video_submits := video_submits w; video_polls := S (video_polls w);
     downloads := downloads w; uploads := uploads w; posts := posts w;
     sleeps := sleeps w; now := now w |}.

Definition tick_downloads (w : World) : World :=
  {| users := users w; generations := generations w; journal := journal w;
     dbops := dbops w; submits := submits w; polls := polls w;
     video_submits := video_submits w; video_polls := video_polls w;
     downloads := S (downloads w); uploads := uploads w; posts := posts w;
     sleeps := sleeps w; now := now w |}.

Definition tick_uploads (w : World) : World :=
  {| users := users w; generations := generations w; journal := journal w;
     dbops := dbops w; submits := submits w; polls := polls w;
     video_submits := video_submits w; video_polls := video_polls w;
     downloads := downloads w; uploads := S (uploads w); posts := posts w;
     sleeps := sleeps w; now := now w |}.

Definition tick_posts (w : World) : World :=
  {| users := users w; generations := generations w; journal := journal w;
     dbops := dbops w; submits := submits w; polls := polls w;
     video_submits := video_submits w; video_polls := video_polls w;
     downloads := downloads w; uploads := uploads w; posts := S (posts w);
     sleeps := sleeps w; now := now w |}.

Definition with_sleep (ms : Z) (w : World) : World :=
  {| users := users w; generations := generations w; journal := journal w;
     dbops := dbops w; submits := submits w; polls := polls w;
     video_submits := video_submits w; video_polls := video_polls w;
     downloads := downloads w; uploads := uploads w; posts := posts w;
     sleeps := sleeps w ++ [ms]; now := now w + ms |}.

(** [await new Promise(resolve => setTimeout(resolve, ms))] *)
Definition sleep (ms : Z) : M unit := fun w => (Ret tt, with_sleep ms w).

(** [Date.now()] *)
Definition date_now : M Z := fun w => (Ret (now w), w).

(** A scripted answer that may be a rejection. *)
Definition settle {A} (o : Outcome A) : M A :=
  match o with
  | Ret a => ret a
  | Throw e => throw e
  end.

(** A [fetch]: the promise rejects on a network error. *)
Definition fetched {A} (f : Fetched A) : M (Z * string + A) :=
  match f with
  | NetworkError e => throw e
  | HttpError status text => ret (inl (status, text))
  | HttpOk body => ret (inr body)
  end.

(** ** The provider client ([FreepikImageService]) *)

(** What [pollGenerationResult] returns: the fields read by its caller. *)
Record PollResult := {
  pr_image_url : option string;
  pr_url : option string;
  pr_image : option string
}.

(** What [uploadToCloudinary] returns. *)
Record UploadedAsset := {
  ua_url : string;
  ua_secureUrl : string;
  ua_publicId : option string;
  ua_format : string;
  ua_width : Z;
  ua_height : Z;
  ua_bytes : Z
}.

(** [GeminiGenerationResponse]: the images and the credits of [usage]. *)
Record GenerationResponse := {
  resp_images : list Image;
  resp_creditsUsed : Z
}.

(** Result of [imageToVideo]. *)
Record VideoResult := {
  vr_taskId : string;
  vr_videoUrl : option string;
  vr_status : string
}.

Definition is_completed (s : string) : bool :=
  String.eqb s "COMPLETED" || String.eqb s "completed".

Definition is_failed (s : string) : bool :=
  String.eqb s "FAILED" || String.eqb s "failed".

(** The object returned for the first element of [generated]; the spread
    of an object element overrides the computed [image_url] when the
    element has one of its own. *)
Definition first_generated (g : Generated) : PollResult :=
  match g with
  | GenUrl u =>
      {| pr_image_url := Some u; pr_url := None; pr_image := None |}
  | GenObj url image_url image =>
      {| pr_image_url :=
           match image_url with
           | Some v => Some v
           | None => or_else url (or_else image_url image)
           end;
         pr_url := url; pr_image := image |}
  end.

(** [handleFreepikError] *)
Definition handleFreepikError (error : Exn) : Exn :=
  match error with
  | AppError _ _ _ => error
  | Error m _ =>
      let message := if String.eqb m "" then "Freepik image generation failed" else m in
      if includes "API key" message then
        AppError "Invalid Freepik API key" (Some 401) (Lit "INVALID_API_KEY")
      else if includes "quota" message || includes "limit" message then
        AppError "Freepik API quota exceeded" (Some 429) (Lit "QUOTA_EXCEEDED")
      else if includes "timeout" message then
        AppError "Image generation timed out" (Some 408) (Lit "TIMEOUT")
      else AppError message (Some 500) (Lit "FREEPIK_ERROR")
  end.

(** [calculateCreditsUsed]: base cost 1, times 1.5 for hd and 2 for ultra,
    rounded up; the batch factor applies to [numberOfImages], which no
    caller sets. *)
Definition calculateCreditsUsed (request : GenerationRequest) : Z :=
  match r_quality request with
  | Some q => if String.eqb q "hd" then 2 else if String.eqb q "ultra" then 2 else 1
  | None => 1
  end.

(** Text of the failure of a video task that carries no error field
    (the sources continue with a list of common reasons). *)
Definition video_failure_help (taskId : string) : string :=
  "Video generation failed. Common reasons: Task ID for support: " ++ taskId.

(** [str.split(',')] has exactly two parts and the second is not empty. *)
Fixpoint after_single_comma (s : string) : option string :=
  match s with
  | EmptyString => None
  | String c rest =>
      if Ascii.eqb c ","%char
      then (if includes "," rest then None else Some rest)
      else after_single_comma rest
  end.

Section Provider.
Variable env : Env.

Definition post_submit : M (Z * string + SubmitBody) :=
  fun w => fetched (submit_answer env (submits w)) (tick_submits w).

Definition get_poll : M (Z * string + PollBody) :=
  fun w => fetched (poll_answer env (polls w)) (tick_polls w).

Definition post_video : M (Z * string + option string) :=
  fun w => fetched (video_submit_answer env (video_submits w)) (tick_video_submits w).

Definition get_video_poll : M (Z * string + VideoPollBody) :=
  fun w => fetched (video_poll_answer env (video_polls w)) (tick_video_polls w).

(** [fetch(imageUrl)] of a generated asset: rejects, or tells [ok]. *)
Definition download : M bool :=
  fun w => settle (download_ok env (downloads w)) (tick_downloads w).

(** [cloudinaryService.uploadImage] *)
Definition uploadImage : M CloudinaryUploadResult :=
  fun w => settle (upload_answer env (uploads w)) (tick_uploads w).

(** [pollGenerationResult]: the body of the [for] loop with [remaining]
    iterations left, then the timeout that follows the loop. *)
Fixpoint pollGenerationResult_loop (remaining : nat) : M PollResult :=
  match remaining with
  | O =>
      throw (AppError "Image generation timed out after 60 seconds"
               (Some 408) (Lit "FREEPIK_TIMEOUT"))
  | S remaining' =>
      sleep 2000 ;;
      let* response := get_poll in
      match response with
      | inl (status, text) =>
          throw (AppError ("Freepik API polling error: " ++ text)
                   (Some status) (Lit "FREEPIK_POLL_ERROR"))
      | inr data =>
          if is_completed (pb_status data) then
            match pb_generated data with
            | firstImage :: _ => ret (first_generated firstImage)
            | [] =>
                if truthy (pb_image_url data) then
                  ret {| pr_image_url := pb_image_url data;
                         pr_url := None; pr_image := None |}
                else
                  throw (AppError "Generation completed but no images were produced"
                           (Some 500) (Lit "NO_IMAGES_GENERATED"))
            end
          else if is_failed (pb_status data) then
            throw (AppError ("Image generation failed: "
                               ++ or_lit (pb_error data) "Unknown error")
                     (Some 500) (Lit "FREEPIK_GENERATION_FAILED"))
          else pollGenerationResult_loop remaining'
      end
  end.

(** [pollGenerationResult(generationId, maxAttempts = 30)] *)
Definition pollGenerationResult (maxAttempts : option nat) : M PollResult :=
  pollGenerationResult_loop (default 30%nat maxAttempts).

(** [uploadToCloudinary]: any failure falls back to the provider URL. *)
Definition uploadToCloudinary (imageUrl : string) : M UploadedAsset :=
  try_catch
    (let* ok := download in
     if negb ok then throw (Error "Failed to download generated image" None)
     else
       let* uploadResult := uploadImage in
       if negb (cu_success uploadResult) || negb (truthy (cu_secureUrl uploadResult))
       then throw (Error "Cloudinary upload failed" None)
       else
         ret {| ua_url := or_lit (cu_secureUrl uploadResult) "";
                ua_secureUrl := or_lit (cu_secureUrl uploadResult) "";
                ua_publicId := cu_publicId uploadResult;
                ua_format := or_lit (cu_format uploadResult) "jpeg";
                ua_width := or_num (cu_width uploadResult) 1024;
                ua_height := or_num (cu_height uploadResult) 1024;
                ua_bytes := or_num (cu_bytes uploadResult) 0 |})
    (fun _ =>
       let* t := date_now in
       ret {| ua_url := imageUrl;
              ua_secureUrl := imageUrl;
              ua_publicId := Some ("freepik_" ++ show_Z t);
              ua_format := "jpeg";
              ua_width := 1024;
              ua_height := 1024;
              ua_bytes := 0 |}).

(** The [imageData] object built from an uploaded asset. *)
Definition imageData (cloudinaryResult : UploadedAsset) (imageUrl : string) : Image :=
  let primary :=
    if String.eqb (ua_secureUrl cloudinaryResult) ""
    then ua_url cloudinaryResult else ua_secureUrl cloudinaryResult in
  {| i_id := ua_publicId cloudinaryResult;
     i_data := None;
     i_url := Some primary;
     i_secureUrl := Some primary;
     i_publicId := ua_publicId cloudinaryResult;
     i_width := or_num (Some (ua_width cloudinaryResult)) 1024;
     i_height := or_num (Some (ua_height cloudinaryResult)) 1024;
     i_format := or_lit (Some (ua_format cloudinaryResult)) "png";
     i_bytes := Some (or_num (Some (ua_bytes cloudinaryResult)) 0);
     i_size := or_num (Some (ua_bytes cloudinaryResult)) 0;
     i_cloudinaryUrl := Some (ua_url cloudinaryResult);
     i_originalUrl := imageUrl;
     i_thumbnailUrl := None;
     i_tier := None;
     i_processingError := None |}.

(** The URL read from a polled result:
    [image_url || url || image]. *)
Definition polled_url (generationData : PollResult) : option string :=
  or_else (pr_image_url generationData)
    (or_else (pr_url generationData) (pr_image generationData)).

(** The image URL of a submission: given at once, or polled for. *)
Definition submitted_url (responseData : SubmitBody) : M string :=
  if truthy (sb_image_url responseData) then
    ret (or_lit (sb_image_url responseData) "")
  else if truthy (sb_task responseData) then
    let* generationData := pollGenerationResult None in
    if truthy (polled_url generationData) then
      ret (or_lit (polled_url generationData) "")
    else
      throw (AppError "Generation completed but no image URL was returned"
               (Some 500) (Lit "NO_IMAGE_URL"))
  else
    throw (AppError "Invalid response from Freepik API - no image URL or task ID provided"
             (Some 500) (Lit "INVALID_FREEPIK_RESPONSE")).

(** [textToImage] of the provider client. *)
Definition textToImage (request : GenerationRequest) : M GenerationResponse :=
  try_catch
    (let* response := post_submit in
     match response with
     | inl (status, text) =>
         throw (AppError ("Freepik API error: " ++ text) (Some status)
                  (Lit "FREEPIK_API_ERROR"))
     | inr responseData =>
         let* imageUrl := submitted_url responseData in
         let* cloudinaryResult := uploadToCloudinary imageUrl in
         ret {| resp_images := [imageData cloudinaryResult imageUrl];
                resp_creditsUsed := calculateCreditsUsed request |}
     end)
    (fun error => throw (handleFreepikError error)).

(** [imageToImage]: the provider has no such endpoint; the prompt is
    extended and [textToImage] is called. *)
Definition imageToImage (request : GenerationRequest) : M GenerationResponse :=
  textToImage
    {| r_prompt := r_prompt request
         ++ ". Based on reference image, maintain similar composition and style.";
       r_quality := r_quality request;
       r_batchSize := r_batchSize request;
       r_aspectRatio := r_aspectRatio request;
       r_style := r_style request |}.

(** [pollVideoGenerationResult]: the loop with [remaining] iterations
    left, then the timeout.  Returns [video_url] and [status]. *)
Fixpoint pollVideoGenerationResult_loop (taskId : string) (remaining : nat)
    : M (string * string) :=
  match remaining with
  | O =>
      throw (AppError "Video generation timed out after 2 minutes"
               (Some 408) (Lit "FREEPIK_VIDEO_TIMEOUT"))
  | S remaining' =>
      sleep 2000 ;;
      let* response := get_video_poll in
      match response with
      | inl (status, text) =>
          throw (AppError ("Freepik video API polling error: " ++ text)
                   (Some status) (Lit "FREEPIK_VIDEO_POLL_ERROR"))
      | inr data =>
          if is_completed (vb_status data) then
            if truthy (vb_video data) then
              ret (or_lit (vb_video data) "", vb_status data)
            else
              throw (AppError "Video generation completed but no video URL was returned"
                       (Some 500) (Lit "NO_VIDEO_URL"))
          else if is_failed (vb_status data) then
            throw (AppError
                     (if truthy (vb_error data)
                      then "Video generation failed: " ++ or_lit (vb_error data) ""
                      else video_failure_help taskId)
                     (Some 500) (Lit "FREEPIK_VIDEO_GENERATION_FAILED"))
          else pollVideoGenerationResult_loop taskId remaining'
      end
  end.

(** [pollVideoGenerationResult(taskId, maxAttempts = 60)] *)
Definition pollVideoGenerationResult (taskId : string) (maxAttempts : option nat)
    : M (string * string) :=
  pollVideoGenerationResult_loop taskId (default 60%nat maxAttempts).

(** Message of a rejected video submission. *)
Definition video_api_error (status : Z) (text : string) : string :=
  "Freepik API error: " ++
  (if Z.eqb status 401 then
     "Invalid API key. Please check your FREEPIK_API_KEY environment variable."
   else if Z.eqb status 402 then
     "Insufficient credits or quota exceeded. Please check your Freepik account."
   else if Z.eqb status 429 then
     "Rate limit exceeded. Please wait a moment and try again."
   else text).

(** The image sent to the video endpoint: an inline image is uploaded
    first, a remote one is probed. *)
Definition video_source (imageUrl : string) : M string :=
  if String.prefix "data:image" imageUrl then
    try_catch
      (match after_single_comma imageUrl with
       | None => throw (Error "Invalid base64 image format" None)
       | Some base64Data =>
           if String.eqb base64Data "" then
             throw (Error "Invalid base64 image format" None)
           else
             let* uploadResult := uploadImage in
             if negb (cu_success uploadResult) || negb (truthy (cu_secureUrl uploadResult))
             then throw (AppError "Failed to upload base64 image to Cloudinary"
                           (Some 500) (Lit "CLOUDINARY_UPLOAD_FAILED"))
             else ret (or_lit (cu_secureUrl uploadResult) "")
       end)
      (fun error =>
         throw (AppError ("Failed to process base64 image: " ++ exn_message error)
                  (Some 500) (Lit "BASE64_UPLOAD_FAILED")))
  else
    try_catch
      (match probe_answer env imageUrl with
       | ProbeRejected => throw (Error "Invalid URL" None)
       | ProbeAnswer ok status statusText contentType =>
           if negb ok then
             throw (AppError ("Image URL is not accessible: " ++ show_Z status
                                ++ " " ++ statusText)
                      (Some 400) (Lit "IMAGE_URL_NOT_ACCESSIBLE"))
           else if negb (String.prefix "image/" (or_lit contentType "")) then
             throw (AppError
                      ("Invalid image URL. The URL must point directly to an image file (e.g., .jpg, .png). "
                         ++ "Please use a direct image URL, not a search result or webpage.")
                      (Some 400) (Lit "INVALID_IMAGE_TYPE"))
           else ret imageUrl
       end)
      (fun error =>
         match error with
         | AppError _ _ _ => throw error
         | Error _ _ =>
             throw (AppError
                      "Invalid image URL format. Please provide a valid HTTP(S) URL pointing directly to an image file."
                      (Some 400) (Lit "INVALID_URL_FORMAT"))
         end).

(** [imageToVideo] *)
Definition imageToVideo (imageUrl : string) : M VideoResult :=
  try_catch
    (if String.eqb (apiKey env) "" then
       throw (AppError
                "Freepik API key is not configured. Please check your environment variables."
                (Some 500) (Lit "MISSING_API_KEY"))
     else if String.eqb imageUrl "" then
       throw (AppError "Invalid or missing image URL" (Some 400) (Lit "INVALID_IMAGE_URL"))
     else
       video_source imageUrl ;;
       let* response := post_video in
       match response with
       | inl (status, text) =>
           throw (AppError (video_api_error status text) (Some status)
                    (Lit "FREEPIK_VIDEO_API_ERROR"))
       | inr task =>
           if negb (truthy task) then
             throw (AppError "No task ID returned from Freepik video API"
                      (Some 500) (Lit "NO_TASK_ID"))
           else
             let taskId := or_lit task "" in
             let* videoResult := pollVideoGenerationResult taskId (Some 60%nat) in
             ret {| vr_taskId := taskId;
                    vr_videoUrl := Some (fst videoResult);
                    vr_status := snd videoResult |}
       end)
    (fun error => throw (handleFreepikError error)).
End Provider.

(** ** Persistence ([UserModel], [ImageGenerationModel]) *)

Section Store.
Variable env : Env.

(** A database operation: the n-th one rejects when the environment
    says so, and nothing is written then. *)
Definition db_op {A} (act : M A) : M A :=
  fun w =>
    match db_fault env (dbops w) with
    | Some e => (Throw e, tick_dbops w)
    | None => act (tick_dbops w)
    end.

(** [UserModel.findByClerkId] *)
Definition findByClerkId (clerkId : string) : M (option User) :=
  db_op (fun w => (Ret (users w !! clerkId), w)).

(** [user.save()] *)
Definition save_user (clerkId : string) (user : User) : M unit :=
  db_op (fun w => (Ret tt, with_users (insert clerkId user) w)).

(** [generation.save()]: inserts a new document, overwrites a known one. *)
Definition save_generation (g : ImageGeneration) : M ImageGeneration :=
  db_op (fun w =>
    match g_id g with
    | None =>
        let g' :=
          {| g_id := Some (length (generations w)); g_userId := g_userId g;
             g_type := g_type g; g_status := g_status g; g_prompt := g_prompt g;
             g_quality := g_quality g; g_inputImages := g_inputImages g;
             g_outputImages := g_outputImages g; g_cost := g_cost g;
             g_credits := g_credits g; g_errorMessage := g_errorMessage g |} in
        (Ret g', with_generations (fun l => (l ++ [g'])%list) w)
    | Some i => (Ret g, with_generations (fun l => <[i := g]> l) w)
    end).

(** Every version of an in-memory generation document is noted in the
    journal of the world when the code builds or mutates it. *)
Definition note (g : ImageGeneration) : M unit :=
  fun w => (Ret tt, with_journal g w).
End Store.

(** ** The retry handler *)

(** Modelled from the spec: [RetryHandler.withRetry] of
    [utils/imageGenerationErrors] is called by [executeWithRetry] but is not
    part of the sources.  The specification says: retry only transient
    failures (network error, 5xx, timeout; a 429 is retryable with backoff),
    with a fixed or exponentially increasing delay from the base delay
    between attempts; a failure that is not retryable ends the job with
    reason [ProviderRejected], exhausted retries end it with reason
    [ProviderUnavailable]. *)
Definition transient_status (status : Z) : bool :=
  ((500 <=? status) && (status <? 600)) || (status =? 408) || (status =? 429).

(** Modelled from the spec: the failures that [RetryHandler.withRetry]
    retries; an error that is not an [AppError] is a network error. *)
Definition transient (e : Exn) : bool :=
  match e with
  | Error _ _ => true
  | AppError _ (Some status) _ => transient_status status
  | AppError _ None _ => false
  end.

Definition with_reason (reason : ErrorCode) (e : Exn) : Exn :=
  match e with
  | AppError m s _ => AppError m s reason
  | Error m _ => AppError m None reason
  end.

(** Modelled from the spec: the delay after attempt [n]. *)
Definition retry_delay (b : Backoff) (baseDelay : Z) (n : nat) : Z :=
  match b with
  | FixedDelay => baseDelay
  | ExponentialDelay => baseDelay * 2 ^ (Z.of_nat n - 1)
  end.

(** Modelled from the spec: [RetryHandler.withRetry] from attempt number
    [n], with [remaining] attempts allowed. *)
Fixpoint withRetry_from {A} (b : Backoff) (operation : M A) (baseDelay : Z)
    (n remaining : nat) : M A :=
  match remaining with
  | O => throw (AppError "No attempt allowed" None ProviderUnavailable)
  | S remaining' =>
      let* outcome := attempt operation in
      match outcome with
      | Ret a => ret a
      | Throw e =>
          if transient e then
            match remaining' with
            | O => throw (with_reason ProviderUnavailable e)
            | S _ =>
                sleep (retry_delay b baseDelay n) ;;
                withRetry_from b operation baseDelay (S n) remaining'
            end
          else throw (with_reason ProviderRejected e)
      end
  end.

(** Modelled from the spec: [RetryHandler.withRetry(operation, maxAttempts, baseDelay)]. *)
Definition withRetry {A} (b : Backoff) (operation : M A) (maxAttempts : nat)
    (baseDelay : Z) : M A :=
  withRetry_from b operation baseDelay 1 maxAttempts.

(** ** The job orchestrator ([ImageGenerationOrchestrator]) *)

Record Capabilities := {
  availableQualities : list string;
  maxBatchSize : Z
}.

(** [getModelCapabilities] *)
Definition getModelCapabilities (tier : Tier) : Capabilities :=
  match tier with
  | Free => {| availableQualities := ["standard"]; maxBatchSize := 1 |}
  | Plus => {| availableQualities := ["standard"; "hd"]; maxBatchSize := 3 |}
  | Pro => {| availableQualities := ["standard"; "hd"; "ultra"]; maxBatchSize := 5 |}
  end.

(** [availableQualities.includes(quality)] *)
Definition quality_available (qualities : list string) (quality : option string) : bool :=
  match quality with
  | Some q => existsb (String.eqb q) qualities
  | None => false
  end.

(** Interpolation of an optional value in a template literal. *)
Definition interpolate (o : option string) : string :=
  match o with
  | Some s => s
  | None => "undefined"
  end.

Record QuotaResult := {
  qr_success : bool;
  qr_message : option string;
  qr_remaining : option Z
}.

(** The keys of an [updates] object handed to [Object.assign]. *)
Record Updates := {
  up_status : Status;
  up_inputImages : option (list string);
  up_outputImages : option (list OutputImage);
  up_errorMessage : option string
}.

(** [Object.assign(generationRecord, updates)] *)
Definition assign (g : ImageGeneration) (updates : Updates) : ImageGeneration :=
  {| g_id := g_id g; g_userId := g_userId g; g_type := g_type g;
     g_status := up_status updates;
     g_prompt := g_prompt g; g_quality := g_quality g;
     g_inputImages := default (g_inputImages g) (up_inputImages updates);
     g_outputImages := default (g_outputImages g) (up_outputImages updates);
     g_cost := g_cost g; g_credits := g_credits g;
     g_errorMessage :=
       match up_errorMessage updates with
       | Some m => Some m
       | None => g_errorMessage g
       end |}.

(** [generationRecord.status = status] *)
Definition set_status (g : ImageGeneration) (status : Status) : ImageGeneration :=
  {| g_id := g_id g; g_userId := g_userId g; g_type := g_type g;
     g_status := status;
     g_prompt := g_prompt g; g_quality := g_quality g;
     g_inputImages := g_inputImages g; g_outputImages := g_outputImages g;
     g_cost := g_cost g; g_credits := g_credits g;
     g_errorMessage := g_errorMessage g |}.

(** The element of [outputImages] written for a processed image. *)
Definition to_output (img : Image) : OutputImage :=
  {| o_url := i_url img;
     o_width := i_width img;
     o_height := i_height img;
     o_format := i_format img;
     o_fileSize := if i_size img =? 0 then i_bytes img else Some (i_size img);
     o_storageKey := i_id img;
     o_thumbnailUrl := i_thumbnailUrl img;
     o_publicId := i_publicId img;
     o_secureUrl := i_secureUrl img;
     o_cloudinaryUrl := i_cloudinaryUrl img;
     o_bytes := i_bytes img |}.

Record ResultData := {
  d_images : list Image;
  d_creditsUsed : Z;
  d_generationRecord : ImageGeneration
}.

Record ResultError := {
  e_code : ErrorCode;
  e_message : string;
  e_details : option (option Z)
}.

(** [GenerationResult] *)
Inductive GenerationResult :=
| Success (data : ResultData)
| Failure (error : ResultError).

(** The object returned by the [catch] block of an entry point. *)
Definition failure_of (error : Exn) : GenerationResult :=
  Failure
    match error with
    | AppError m statusCode errorCode =>
        {| e_code := errorCode; e_message := m; e_details := Some statusCode |}
    | Error m _ =>
        {| e_code := Lit "GENERATION_FAILED"; e_message := m; e_details := None |}
    end.

(** [{ ...image, processedAt, tier }] *)
Definition processed (image : Image) (tier : Tier) : Image :=
  {| i_id := i_id image; i_data := i_data image;
     i_url := i_url image; i_secureUrl := i_secureUrl image;
     i_publicId := i_publicId image; i_width := i_width image;
     i_height := i_height image; i_format := i_format image;
     i_bytes := i_bytes image; i_size := i_size image;
     i_cloudinaryUrl := i_cloudinaryUrl image; i_originalUrl := i_originalUrl image;
     i_thumbnailUrl := i_thumbnailUrl image;
     i_tier := Some tier;
     i_processingError := i_processingError image |}.

(** The fields set on a processed image after a successful upload. *)
Definition with_cloudinary (image : Image) (r : CloudinaryUploadResult)
    (thumbnailUrl : string) : Image :=
  {| i_id := i_id image; i_data := i_data image;
     i_url := cu_secureUrl r; i_secureUrl := cu_secureUrl r;
     i_publicId := cu_publicId r; i_width := i_width image;
     i_height := i_height image; i_format := i_format image;
     i_bytes := cu_bytes r; i_size := i_size image;
     i_cloudinaryUrl := cu_secureUrl r; i_originalUrl := i_originalUrl image;
     i_thumbnailUrl := Some thumbnailUrl;
     i_tier := i_tier image;
     i_processingError := i_processingError image |}.

(** [{ ...image, processingError }] *)
Definition with_processingError (image : Image) (message : string) : Image :=
  {| i_id := i_id image; i_data := i_data image;
     i_url := i_url image; i_secureUrl := i_secureUrl image;
     i_publicId := i_publicId image; i_width := i_width image;
     i_height := i_height image; i_format := i_format image;
     i_bytes := i_bytes image; i_size := i_size image;
     i_cloudinaryUrl := i_cloudinaryUrl image; i_originalUrl := i_originalUrl image;
     i_thumbnailUrl := i_thumbnailUrl image;
     i_tier := i_tier image;
     i_processingError := Some message |}.

Record VideoSuccess := {
  vs_videoUrl : option string;
  vs_taskId : string;
  vs_status : string
}.

Section Orchestrator.
Variable env : Env.

(** [validateGenerationContext] *)
Definition validateGenerationContext (context : GenerationContext) : M unit :=
  let* user := findByClerkId env (c_userId context) in
  let request := c_request context in
  let capabilities := getModelCapabilities (c_subscriptionTier context) in
  match user with
  | None => throw (ValidationError "User not found or inactive")
  | Some u =>
      if negb (u_isActive u) then
        throw (ValidationError "User not found or inactive")
      else if negb (c_subscriptionActive context)
              && negb (String.eqb (tier_name (c_subscriptionTier context)) "free") then
        throw (SubscriptionError "Subscription is not active")
      else if is_blank (r_prompt request) then
        throw (ValidationError "Prompt is required and cannot be empty")
      else if 2000 <? Z.of_nat (js_length (r_prompt request)) then
        throw (ValidationError "Prompt exceeds maximum length of 2000 characters")
      else if negb (quality_available (availableQualities capabilities)
                      (r_quality request)) then
        throw (ValidationError
                 ("Quality '" ++ interpolate (r_quality request)
                    ++ "' not available for "
                    ++ tier_name (c_subscriptionTier context) ++ " tier"))
      else if maxBatchSize capabilities <? or_num (r_batchSize request) 0 then
        throw (ValidationError
                 ("Batch size " ++ show_Z (or_num (r_batchSize request) 0)
                    ++ " exceeds limit of " ++ show_Z (maxBatchSize capabilities)
                    ++ " for " ++ tier_name (c_subscriptionTier context) ++ " tier"))
      else ret tt
  end.

(** The [costOptions] of [createGenerationRecord]. *)
Definition costOptions (request : GenerationRequest) : CostOptions :=
  {| co_quality :=
       match r_quality request with
       | Some q => if String.eqb q "ultra" then Some "hd" else Some q
       | None => None
       end;
     co_batchSize := or_num (r_batchSize request) 1;
     co_aspectRatio := r_aspectRatio request;
     co_style := if truthy (r_style request) then r_style request else None |}.

(** The cost of a request, as [createGenerationRecord] computes it. *)
Definition cost_of (context : GenerationContext) (type : GenerationType) : Z :=
  calculateGenerationCost env type (costOptions (c_request context)).

(** [createGenerationRecord] *)
Definition createGenerationRecord (context : GenerationContext)
    (type : GenerationType) : M ImageGeneration :=
  let cost := cost_of context type in
  let generation :=
    {| g_id := None;
       g_userId := c_userId context;
       g_type := type;
       g_status := Pending;
       g_prompt := r_prompt (c_request context);
       g_quality := co_quality (costOptions (c_request context));
       g_inputImages := [];
       g_outputImages := [];
       g_cost := cost;
       g_credits := cost;
       g_errorMessage := None |} in
  note generation ;;
  save_generation env generation.

Definition quota_failure (message : string) (remaining : option Z) : QuotaResult :=
  {| qr_success := false; qr_message := Some message; qr_remaining := remaining |}.

(** [validateAndConsumeQuota].  The document is mutated in place, so the
    document is returned with the result; every rejection inside the
    [try] block reaches the one [catch], which returns a failure. *)
Definition validateAndConsumeQuota (context : GenerationContext)
    (generationRecord : ImageGeneration) : M (QuotaResult * ImageGeneration) :=
  let creditsNeeded := g_credits generationRecord in
  let caught := quota_failure "Failed to validate/consume quota" None in
  if q_remaining (c_quotaInfo context) <? creditsNeeded then
    ret (quota_failure
           ("Insufficient quota. Need " ++ show_Z creditsNeeded ++ " credits, have "
              ++ show_Z (q_remaining (c_quotaInfo context)))
           (Some (q_remaining (c_quotaInfo context))),
         generationRecord)
  else
    let* found := attempt (findByClerkId env (c_userId context)) in
    match found with
    | Throw _ => ret (caught, generationRecord)
    | Ret None => ret (quota_failure "User not found" None, generationRecord)
    | Ret (Some user) =>
        let* saved :=
          attempt (save_user env (c_userId context)
                     {| u_isActive := u_isActive user;
                        u_subscriptionTier := u_subscriptionTier user;
                        u_monthlyUsage := u_monthlyUsage user + creditsNeeded |}) in
        match saved with
        | Throw _ => ret (caught, generationRecord)
        | Ret _ =>
            let generationRecord' := set_status generationRecord Processing in
            note generationRecord' ;;
            let* stored := attempt (save_generation env generationRecord') in
            match stored with
            | Throw _ => ret (caught, generationRecord')
            | Ret _ =>
                ret ({| qr_success := true; qr_message := None; qr_remaining := None |},
                     generationRecord')
            end
        end
    end.

(** One turn of the loop of [processGeneratedImages]. *)
Definition processGeneratedImage (image : Image) (subscriptionTier : Tier) : M Image :=
  try_catch
    (let* cloudinaryResult :=
       if truthy (i_data image) then
         let* r := uploadImage env in ret (Some r)
       else if truthy (i_url image) && includes "localhost" (or_lit (i_url image) "") then
         try_catch
           (let* present := settle (local_file env (or_lit (i_url image) "")) in
            if present then
              let* r := uploadImage env in ret (Some r)
            else ret None)
           (fun _ => ret None)
       else ret None in
     let processedImage := processed image subscriptionTier in
     match cloudinaryResult with
     | Some r =>
         if cu_success r then
           let* thumbnailUrl := settle (thumbnail_answer env (interpolate (cu_publicId r))) in
           ret (with_cloudinary processedImage r thumbnailUrl)
         else ret processedImage
     | None => ret processedImage
     end)
    (fun error => ret (with_processingError image (exn_message error))).

(** [processGeneratedImages] *)
Fixpoint processGeneratedImages (images : list Image) (subscriptionTier : Tier)
    : M (list Image) :=
  match images with
  | [] => ret []
  | image :: rest =>
      let* p := processGeneratedImage image subscriptionTier in
      let* ps := processGeneratedImages rest subscriptionTier in
      ret (p :: ps)
  end.

(** [updateGenerationRecord]: a failing save is logged, not thrown. *)
Definition updateGenerationRecord (generationRecord : ImageGeneration)
    (updates : Updates) : M ImageGeneration :=
  let generationRecord' := assign generationRecord updates in
  note generationRecord' ;;
  attempt (save_generation env generationRecord') ;;
  ret generationRecord'.

(** [executeWithRetry] *)
Definition executeWithRetry {A} (operation : M A) : M A :=
  withRetry (backoff env) operation 3 1000.

(** The [catch] block of the image entry points. *)
Definition job_failed (generationRecord : option ImageGeneration) (error : Exn)
    : M GenerationResult :=
  match generationRecord with
  | Some g =>
      updateGenerationRecord g
        {| up_status := Failed; up_inputImages := None; up_outputImages := None;
           up_errorMessage := Some (exn_message error) |} ;;
      ret (failure_of error)
  | None => ret (failure_of error)
  end.

(** The common body of the four image entry points.  [checks] are the
    steps that precede [validateGenerationContext]; [generate] is the call
    handed to [executeWithRetry]; [inputImages] is the key added to the
    completion update.  The variable [generationRecord] is [null] while
    [checks], the validation and the creation run, and holds the document
    afterwards. *)
Definition run_job (context : GenerationContext) (type : GenerationType)
    (checks : M unit) (generate : M GenerationResponse)
    (inputImages : option (list string)) : M GenerationResult :=
  let* created :=
    attempt (checks ;;
             validateGenerationContext context ;;
             createGenerationRecord context type) in
  match created with
  | Throw error => job_failed None error
  | Ret generationRecord =>
      let* quota := validateAndConsumeQuota context generationRecord in
      let quotaResult := fst quota in
      let generationRecord := snd quota in
      try_catch
        (if negb (qr_success quotaResult) then
           throw (QuotaExceededError (or_lit (qr_message quotaResult) "Quota exceeded"))
         else
           let* freepikResponse := executeWithRetry generate in
           let* processedImages :=
             processGeneratedImages (resp_images freepikResponse)
               (c_subscriptionTier context) in
           let* generationRecord :=
             updateGenerationRecord generationRecord
               {| up_status := Completed;
                  up_inputImages := inputImages;
                  up_outputImages := Some (map to_output processedImages);
                  up_errorMessage := None |} in
           ret (Success {| d_images := processedImages;
                           d_creditsUsed := resp_creditsUsed freepikResponse;
                           d_generationRecord := generationRecord |}))
        (fun error => job_failed (Some generationRecord) error)
  end.

(** [generateTextToImage] *)
Definition generateTextToImage (context : GenerationContext) : M GenerationResult :=
  run_job context TextToImage (ret tt)
    (textToImage env (c_request context)) None.

(** The validation of one input image. *)
Definition check_input_image (inputImage name : string) (tier : Tier)
    (label : string) : M unit :=
  let* validationResult := settle (validateImage env inputImage name tier) in
  if negb (v_valid validationResult) then
    throw (ValidationError (label ++ " validation failed: " ++ v_errors validationResult))
  else ret tt.

(** [generateImageToImage] *)
Definition generateImageToImage (context : GenerationContext)
    (inputImage : string) : M GenerationResult :=
  run_job context ImageToImage
    (check_input_image inputImage "input_image" (c_subscriptionTier context)
       "Input image")
    (imageToImage env (c_request context)) (Some ["input_image"]).

Definition with_prompt (request : GenerationRequest) (prompt : string)
    : GenerationRequest :=
  {| r_prompt := prompt; r_quality := r_quality request;
     r_batchSize := r_batchSize request; r_aspectRatio := r_aspectRatio request;
     r_style := r_style request |}.

(** The loop validating the input images of a composition. *)
Fixpoint check_input_images (inputImages : list string) (index : nat) (tier : Tier)
    : M unit :=
  match inputImages with
  | [] => ret tt
  | image :: rest =>
      check_input_image image ("input_image_" ++ show_Z (Z.of_nat index)) tier
        ("Input image " ++ show_Z (Z.of_nat index + 1)) ;;
      check_input_images rest (S index) tier
  end.

(** [generateMultiImageComposition].  The enhanced context differs from
    the context in [batchSize] only, which [validateAndConsumeQuota]
    does not read. *)
Definition generateMultiImageComposition (context : GenerationContext)
    (inputImages : list string) : M GenerationResult :=
  run_job context MultiImage
    (if String.eqb (tier_name (c_subscriptionTier context)) "free" then
       throw (SubscriptionError
                "Multi-image composition requires Plus or Pro subscription")
     else check_input_images inputImages 0 (c_subscriptionTier context))
    (textToImage env
       (with_prompt (c_request context)
          (r_prompt (c_request context)
             ++ ". Create a composition combining multiple elements.")))
    (Some (imap (fun index _ => "input_image_" ++ show_Z (Z.of_nat index)) inputImages)).

(** [refineImage] *)
Definition refineImage (context : GenerationContext) (inputImage : string)
    : M GenerationResult :=
  run_job context Refine
    (check_input_image inputImage "input_image" (c_subscriptionTier context)
       "Input image")
    (imageToImage env
       (with_prompt (c_request context)
          (r_prompt (c_request context) ++ ". Refine and enhance the image quality.")))
    (Some ["input_image"]).

(** [generateVideo]: an [AppError] is thrown again, any other error is
    wrapped in one and thrown. *)
Definition generateVideo (imageUrl : string) : M VideoSuccess :=
  try_catch
    (if String.eqb imageUrl "" then
       throw (AppError "Invalid image URL provided" (Some 400) (Lit "INVALID_IMAGE_URL"))
     else
       let* videoResult := imageToVideo env imageUrl in
       if negb (truthy (vr_videoUrl videoResult)) then
         throw (AppError "Video URL not returned from generation service"
                  (Some 500) (Lit "NO_VIDEO_URL"))
       else
         ret {| vs_videoUrl := vr_videoUrl videoResult;
                vs_taskId := vr_taskId videoResult;
                vs_status := vr_status videoResult |})
    (fun error =>
       match error with
       | AppError _ _ _ => throw error
       | Error m code =>
           throw (AppError ("Video generation failed: " ++ m) (Some 500)
                    (match code with
                     | Some z => if z =? 0 then Lit "VIDEO_GENERATION_ERROR" else Num z
                     | None => Lit "VIDEO_GENERATION_ERROR"
                     end))
       end).
End Orchestrator.

(** ** The HTTP layer *)

Unset Elimination Schemes.

(** A JSON value of a response body. *)
Inductive Json :=
| JBool (b : bool)
| JStr (s : string)
| JNum (z : Z)
| JNull
| JArr (items : list Json)
| JObj (fields : list (string * Json)).

Set Elimination Schemes.

Record HttpResponse := {
  status : Z;
  body : list (string * Json)
}.

(** [body[key]] *)
Fixpoint field (key : string) (fields : list (string * Json)) : option Json :=
  match fields with
  | [] => None
  | (k, v) :: rest => if String.eqb k key then Some v else field key rest
  end.

(** What the image controller reads from a request: the user id is
    [req.auth?.userId || req.user?.id]; [quotaInfo] is set by a middleware,
    if one ran. *)
Record HttpRequest := {
  req_userId : option string;
  req_prompt : option string;
  req_aspectRatio : option string;
  req_style : option string;
  req_quality : option string;
  req_quotaInfo : option QuotaInfo
}.

(** What the video controller reads from a request body. *)
Record VideoRequest := {
  vreq_image : option string;
  vreq_prompt : option string
}.

Definition json_opt (o : option string) : Json :=
  match o with
  | Some s => JStr s
  | None => JNull
  end.

(** An image in a response body (the URL fields). *)
Definition image_json (img : Image) : Json :=
  JObj [("url", json_opt (i_url img));
        ("secureUrl", json_opt (i_secureUrl img));
        ("originalUrl", JStr (i_originalUrl img));
        ("processingError", json_opt (i_processingError img))].

(** [createContext] *)
Definition createContext (userId : string) (subscriptionTier : Tier)
    (request : GenerationRequest) (quotaInfo : option QuotaInfo) : GenerationContext :=
  {| c_userId := userId;
     c_subscriptionTier := subscriptionTier;
     c_quotaInfo := default {| q_remaining := 10 |} quotaInfo;
     c_subscriptionActive := true;
     c_request := request |}.

(** The element of [outputImages] that [saveGenerationHistory] writes. *)
Definition history_output (t : Z) (img : Image) : OutputImage :=
  {| o_url := or_else (i_secureUrl img) (i_url img);
     o_width := or_num (Some (i_width img)) 1024;
     o_height := or_num (Some (i_height img)) 1024;
     o_format := or_lit (Some (i_format img)) "png";
     o_fileSize := Some (or_num (i_bytes img) 0);
     o_storageKey :=
       Some (or_lit (or_else (i_publicId img) (i_id img)) ("generated-" ++ show_Z t));
     o_thumbnailUrl := or_else (i_thumbnailUrl img) (i_url img);
     o_publicId := Some (or_lit (i_publicId img) "");
     o_secureUrl := or_else (i_secureUrl img) (i_url img);
     o_cloudinaryUrl := or_else (i_secureUrl img) (i_url img);
     o_bytes := Some (or_num (i_bytes img) 0) |}.

Section Controller.
Variable env : Env.

(** [UserModel.create] of a basic user record. *)
Definition create_user (clerkId : string) : M User :=
  let user := {| u_isActive := true; u_subscriptionTier := Free; u_monthlyUsage := 0 |} in
  db_op env (fun w => (Ret user, with_users (insert clerkId user) w)).

(** [ensureUserExists] *)
Definition ensureUserExists (clerkId : string) : M User :=
  let* user := findByClerkId env clerkId in
  match user with
  | Some u => ret u
  | None =>
      try_catch (create_user clerkId)
        (fun error =>
           match error with
           | Error _ (Some 11000) =>
               let* again := findByClerkId env clerkId in
               match again with
               | Some u => ret u
               | None =>
                   throw (Error "User creation failed due to duplicate key and user not found"
                            None)
               end
           | _ => throw (Error "Failed to create user record" None)
           end)
  end.

(** [saveGenerationHistory]: one document is created from the result;
    a failure is logged, not thrown. *)
Definition saveGenerationHistory (userId : string) (type : GenerationType)
    (prompt : string) (result : GenerationResult) (quality : option string)
    : M unit :=
  let* t := date_now in
  let generationData :=
    {| g_id := None;
       g_userId := userId;
       g_type := type;
       g_status := match result with Success _ => Completed | Failure _ => Failed end;
       g_prompt := prompt;
       g_quality := Some (or_lit quality "standard");
       g_inputImages := [];
       g_outputImages :=
         match result with
         | Success data => map (history_output t) (d_images data)
         | Failure _ => []
         end;
       g_cost := 0;
       g_credits := 1;
       g_errorMessage :=
         match result with
         | Success _ => None
         | Failure error => Some (e_message error)
         end |} in
  note generationData ;;
  attempt (save_generation env generationData) ;;
  ret tt.

(** [ImageGenerationController.textToImage] *)
Definition controller_textToImage (req : HttpRequest) : M HttpResponse :=
  try_catch
    (if negb (truthy (req_userId req)) then
       ret {| status := 401;
              body := [("success", JBool false);
                       ("message", JStr "Authentication required - no user ID found")] |}
     else
       let userId := or_lit (req_userId req) "" in
       let* user := ensureUserExists userId in
       match req_prompt req with
       | None => throw (Error "Cannot read properties of undefined (reading 'substring')" None)
       | Some prompt =>
           let context :=
             createContext userId (u_subscriptionTier user)
               {| r_prompt := prompt; r_quality := req_quality req;
                  r_batchSize := None; r_aspectRatio := req_aspectRatio req;
                  r_style := req_style req |}
               (req_quotaInfo req) in
           let* result := generateTextToImage env context in
           saveGenerationHistory userId TextToImage prompt result (req_quality req) ;;
           match result with
           | Failure error =>
               ret {| status := 400;
                      body := [("success", JBool false);
                               ("message",
                                JStr (or_lit (Some (e_message error))
                                        "Image generation failed"))] |}
           | Success data =>
               ret {| status := 200;
                      body := [("success", JBool true);
                               ("data",
                                JObj [("images", JArr (map image_json (d_images data)));
                                      ("usage",
                                       JObj [("creditsUsed", JNum (d_creditsUsed data))])])] |}
           end
       end)
    (fun _ =>
       ret {| status := 500;
              body := [("success", JBool false);
                       ("message", JStr "Internal server error during image generation")] |}).

(** [videoGenerationService.generateVideo]: the answer of the POST is
    scripted; a rejection with an [Error] stands for an error of the HTTP
    client, any other one for an unexpected error. *)
Definition service_generateVideo : M (string * string) :=
  fun w =>
    match axios_post env (posts w) with
    | Ret data => (Ret data, tick_posts w)
    | Throw (Error m _) =>
        (Throw (Error ("Video generation failed: " ++ m) None), tick_posts w)
    | Throw (AppError _ _ _) =>
        (Throw (Error "Video generation failed due to an unexpected error" None),
         tick_posts w)
    end.

(** [generateVideo] of [controllers/videoGeneration], the handler of the
    route [POST /generate]. *)
Definition controller_generateVideo (req : VideoRequest) : M HttpResponse :=
  if negb (truthy (vreq_image req)) then
    ret {| status := 400;
           body := [("success", JBool false); ("error", JStr "Image is required")] |}
  else if negb (truthy (vreq_prompt req)) then
    ret {| status := 400;
           body := [("success", JBool false); ("error", JStr "Prompt is required")] |}
  else
    try_catch
      (let* result := service_generateVideo in
       ret {| status := 200;
              body := [("success", JBool true);
                       ("data",
                        JObj [("task_id", JStr (fst result));
                              ("status", JStr (snd result));
                              ("message",
                               JStr "Video generation initiated. Use the task_id to check status.")])] |})
      (fun error =>
         ret {| status := 500;
                body := [("success", JBool false);
                         ("error", JStr (exn_message error))] |}).
End Controller.

(** ** The request payload of the provider client ([FreepikImageService]) *)

Record QualitySettings := {
  qs_resolution : string;
  qs_hdr : Z;
  qs_creative_detailing : Z
}.

(** [getQualitySettings]: the settings of the tier, overridden when the
    quality is [hd] or [ultra]. *)
Definition getQualitySettings (tier : Tier) (quality : option string) : QualitySettings :=
  let tierSettings :=
    match tier with
    | Free => {| qs_resolution := "1k"; qs_hdr := 30; qs_creative_detailing := 25 |}
    | Plus => {| qs_resolution := "2k"; qs_hdr := 50; qs_creative_detailing := 33 |}
    | Pro => {| qs_resolution := "2k"; qs_hdr := 70; qs_creative_detailing := 50 |}
    end in
  let quality_is q := match quality with Some v => String.eqb v q | None => false end in
  if quality_is "hd" || quality_is "ultra" then
    {| qs_resolution := "2k";
       qs_hdr := if quality_is "ultra" then 70 else 50;
       qs_creative_detailing := if quality_is "ultra" then 50 else 33 |}
  else tierSettings.

(** The members that an object literal inherits from [Object.prototype]. *)
Definition object_prototype_members : list string :=
  ["constructor"; "__defineGetter__"; "__defineSetter__"; "hasOwnProperty";
   "__lookupGetter__"; "__lookupSetter__"; "isPrototypeOf"; "propertyIsEnumerable";
   "toString"; "valueOf"; "__proto__"; "toLocaleString"].

(** What [table[key] || fallback] evaluates to for a table of strings
    written as an object literal: a string, or the member of
    [Object.prototype] that [key] names (a function or an object, which is
    truthy). *)
Inductive Mapped :=
| Name (s : string)
| Member (key : string).

Fixpoint own_property (key : string) (table : list (string * string)) : option string :=
  match table with
  | [] => None
  | (k, v) :: rest => if String.eqb k key then Some v else own_property key rest
  end.

(** [table[key] || fallback] *)
Definition mapped (table : list (string * string)) (key fallback : string) : Mapped :=
  match own_property key table with
  | Some v => Name (if String.eqb v "" then fallback else v)
  | None =>
      if existsb (String.eqb key) object_prototype_members then Member key
      else Name fallback
  end.

Definition ratioMap : list (string * string) :=
  [("1:1", "square_1_1"); ("square", "square_1_1");
   ("16:9", "widescreen_16_9"); ("landscape", "widescreen_16_9");
   ("9:16", "portrait_9_16"); ("portrait", "portrait_9_16");
   ("4:3", "standard_4_3"); ("3:4", "standard_3_4")].

(** [mapAspectRatio] *)
Definition mapAspectRatio (aspectRatio : option string) : Mapped :=
  mapped ratioMap (or_lit aspectRatio "1:1") "square_1_1".

Definition styleMap : list (string * string) :=
  [("realistic", "realism"); ("photorealistic", "realism");
   ("artistic", "creative"); ("creative", "creative");
   ("anime", "anime"); ("digital-art", "creative");
   ("painting", "creative"); ("3d", "realism")].

(** [mapStyleToModel] *)
Definition mapStyleToModel (style : option string) : Mapped :=
  mapped styleMap (or_lit style "realistic") "realism".

Record Payload := {
  p_prompt : string;
  p_resolution : string;
  p_aspect_ratio : Mapped;
  p_model : Mapped;
  p_creative_detailing : Z;
  p_hdr : Z;
  p_engine : string;
  p_fixed_generation : bool;
  p_filter_nsfw : bool
}.

(** [buildRequestPayload]; [tier] is [request.subscriptionTier], which
    [createContext] copies into the request. *)
Definition buildRequestPayload (tier : Tier) (request : GenerationRequest) : Payload :=
  let qualitySettings := getQualitySettings tier (r_quality request) in
  {| p_prompt := r_prompt request;
     p_resolution := qs_resolution qualitySettings;
     p_aspect_ratio := mapAspectRatio (r_aspectRatio request);
     p_model := mapStyleToModel (r_style request);
     p_creative_detailing := qs_creative_detailing qualitySettings;
     p_hdr := qs_hdr qualitySettings;
     p_engine := "automatic";
     p_fixed_generation := false;
     p_filter_nsfw := true |}.

(** ** Limits by subscription ([middleware/imageGeneration], [getQuotaStatus]) *)

(** [getFileSizeLimit] *)
Definition getFileSizeLimit (subscriptionStatus : option string) : Z :=
  match subscriptionStatus with
  | Some s =>
      if String.eqb s "pro" then 50 * 1024 * 1024
      else if String.eqb s "plus" then 20 * 1024 * 1024
      else 10 * 1024 * 1024
  | None => 10 * 1024 * 1024
  end.

(** [getFileCountLimit] *)
Definition getFileCountLimit (subscriptionStatus : option string) : Z :=
  match subscriptionStatus with
  | Some s =>
      if String.eqb s "pro" then 10
      else if String.eqb s "plus" then 5
      else 3
  | None => 3
  end.

(** The [maxDimension] of the two upload middlewares. *)
Definition maxDimension (subscriptionStatus : option string) : Z :=
  match subscriptionStatus with
  | Some s =>
      if String.eqb s "pro" then 4096
      else if String.eqb s "plus" then 2048
      else 1024
  | None => 1024
  end.

Record Limits := {
  lim_images : Z;
  lim_credits : Z;
  lim_fileSize : Z;
  lim_maxDimensions : Z;
  lim_multiImageCount : Z
}.

(** [tier === 'free' ? a : tier === 'plus' ? b : c] *)
Definition by_tier {A} (subscriptionTier : string) (a b c : A) : A :=
  if String.eqb subscriptionTier "free" then a
  else if String.eqb subscriptionTier "plus" then b
  else c.

(** The [limits] object of [getQuotaStatus]. *)
Definition quota_limits (subscriptionTier : string) : Limits :=
  {| lim_images := by_tier subscriptionTier 10 100 1000;
     lim_credits := by_tier subscriptionTier 50 500 5000;
     lim_fileSize := by_tier subscriptionTier 10485760 20971520 52428800;
     lim_maxDimensions := by_tier subscriptionTier 1024 2048 4096;
     lim_multiImageCount := by_tier subscriptionTier 3 5 10 |}.

Definition limits_json (l : Limits) : Json :=
  JObj [("images", JNum (lim_images l));
        ("credits", JNum (lim_credits l));
        ("fileSize", JNum (lim_fileSize l));
        ("maxDimensions", JNum (lim_maxDimensions l));
        ("multiImageCount", JNum (lim_multiImageCount l))].

(** [ImageGenerationController.getQuotaStatus]; [resetDate] is given as
    the instant in milliseconds. *)
Definition getQuotaStatus (userId subscriptionStatus : option string) : M HttpResponse :=
  if negb (truthy userId) then
    ret {| status := 401;
           body := [("success", JBool false); ("message", JStr "Authentication required")] |}
  else
    let subscriptionTier := or_lit subscriptionStatus "free" in
    let* t := date_now in
    ret {| status := 200;
           body := [("success", JBool true);
                    ("data",
                     JObj [("subscription", JStr subscriptionTier);
                           ("current", JObj [("images", JNum 0); ("credits", JNum 10)]);
                           ("limits", limits_json (quota_limits subscriptionTier));
                           ("resetDate", JNum (t + 30 * 24 * 60 * 60 * 1000));
                           ("usage",
                            JObj [("daily", JNum 0); ("weekly", JNum 0);
                                  ("monthly", JNum 0)])])] |}.

(** ** The endpoints that take uploaded images ([ImageGenerationController]) *)

(** A file stored by the upload middleware. *)
Record UploadedFile := {
  file_path : string;
  file_mimetype : string;
  file_originalname : string;
  file_size : Z
}.

(** What the endpoints read from a request: the user id is
    [req.auth?.userId || req.user?.id]; [ureq_file] is [req.file] and
    [ureq_files] is [req.files]; [ureq_subscriptionStatus] is
    [req.user?.subscriptionStatus], which the controller casts to a
    subscription tier. *)
Record UploadRequest := {
  ureq_userId : option string;
  ureq_prompt : option string;
  ureq_file : option UploadedFile;
  ureq_files : option (list UploadedFile);
  ureq_subscriptionStatus : option Tier;
  ureq_quotaInfo : option QuotaInfo
}.

(** The request that the three endpoints hand to [createContext]: the
    prompt and keys that the orchestrator does not read; none of them sets
    [quality], [batchSize], [aspectRatio] or [style]. *)
Definition upload_generation_request (prompt : string) : GenerationRequest :=
  {| r_prompt := prompt; r_quality := None; r_batchSize := None;
     r_aspectRatio := None; r_style := None |}.

(** The body sent for a result of the orchestrator. *)
Definition result_response (result : GenerationResult) (fallback : string) : HttpResponse :=
  match result with
  | Failure error =>
      {| status := 400;
         body := [("success", JBool false);
                  ("message", JStr (or_lit (Some (e_message error)) fallback))] |}
  | Success data =>
      {| status := 200;
         body := [("success", JBool true);
                  ("data",
                   JObj [("images", JArr (map image_json (d_images data)));
                         ("usage", JObj [("creditsUsed", JNum (d_creditsUsed data))])])] |}
  end.

(** What a middleware does with the request: it calls [next()] or it
    answers. *)
Inductive Verdict :=
| Next
| Respond (response : HttpResponse).

Definition plain_response (code : Z) (message : string) : HttpResponse :=
  {| status := code;
     body := [("success", JBool false); ("message", JStr message)] |}.

Section UploadEndpoints.
Variable env : Env.

(** [fs.readFileSync(path)]: the content of the file, or the error thrown. *)
Variable readFileSync : string -> Outcome string.

(** [ImageGenerationController.imageToImage].  The temporary file is
    removed in a [finally] whose own errors are caught; the world holds no
    files. *)
Definition controller_imageToImage (req : UploadRequest) : M HttpResponse :=
  try_catch
    (if negb (truthy (ureq_userId req)) then
       ret (plain_response 401 "Authentication required")
     else
       let userId := or_lit (ureq_userId req) "" in
       match ureq_file req with
       | None => ret (plain_response 400 "Source image is required")
       | Some sourceImage =>
           let subscriptionTier := default Free (ureq_subscriptionStatus req) in
           match ureq_prompt req with
           | None =>
               throw (Error "Cannot read properties of undefined (reading 'substring')" None)
           | Some prompt =>
               let context :=
                 createContext userId subscriptionTier (upload_generation_request prompt)
                   (ureq_quotaInfo req) in
               let* imageBuffer := settle (readFileSync (file_path sourceImage)) in
               let* result := generateImageToImage env context imageBuffer in
               saveGenerationHistory env userId ImageToImage prompt result None ;;
               ret (result_response result "Image generation failed")
           end
       end)
    (fun _ => ret (plain_response 500 "Internal server error during image generation")).

(** [sourceImages.map(file => ({ data: fs.readFileSync(file.path), ... }))] *)
Fixpoint read_all (files : list UploadedFile) : M (list string) :=
  match files with
  | [] => ret []
  | file :: rest =>
      let* data := settle (readFileSync (file_path file)) in
      let* others := read_all rest in
      ret (data :: others)
  end.

(** [ImageGenerationController.multiImageComposition] *)
Definition controller_multiImageComposition (req : UploadRequest) : M HttpResponse :=
  try_catch
    (if negb (truthy (ureq_userId req)) then
       ret (plain_response 401 "Authentication required")
     else
       let userId := or_lit (ureq_userId req) "" in
       match ureq_files req with
       | None | Some [] => ret (plain_response 400 "At least one source image is required")
       | Some sourceImages =>
           let subscriptionTier := default Free (ureq_subscriptionStatus req) in
           match ureq_prompt req with
           | None =>
               throw (Error "Cannot read properties of undefined (reading 'substring')" None)
           | Some prompt =>
               let context :=
                 createContext userId subscriptionTier (upload_generation_request prompt)
                   (ureq_quotaInfo req) in
               let* inputImages := read_all sourceImages in
               let* result := generateMultiImageComposition env context inputImages in
               saveGenerationHistory env userId MultiImage prompt result None ;;
               ret (result_response result "Image generation failed")
           end
       end)
    (fun _ => ret (plain_response 500 "Internal server error during image generation")).

(** [ImageGenerationController.refineImage].  The prompt is read with
    [prompt?.substring], so a request without a prompt reaches the
    orchestrator, whose test [!context.request.prompt] treats the missing
    prompt as the empty one. *)
Definition controller_refineImage (req : UploadRequest) : M HttpResponse :=
  try_catch
    (if negb (truthy (ureq_userId req)) then
       ret (plain_response 401 "Authentication required")
     else
       let userId := or_lit (ureq_userId req) "" in
       match ureq_file req with
       | None => ret (plain_response 400 "Source image is required")
       | Some sourceImage =>
           let subscriptionTier := default Free (ureq_subscriptionStatus req) in
           let prompt := default "" (ureq_prompt req) in
           let context :=
             createContext userId subscriptionTier (upload_generation_request prompt)
               (ureq_quotaInfo req) in
           let* imageBuffer := settle (readFileSync (file_path sourceImage)) in
           let* result := refineImage env context imageBuffer in
           saveGenerationHistory env userId Refine prompt result None ;;
           ret (result_response result "Image refinement failed")
       end)
    (fun _ => ret (plain_response 500 "Internal server error during image refinement")).
End UploadEndpoints.

(** ** The video service and its endpoints ([videoGenerationService], [controllers/videoGeneration]) *)

(** The [data] of a status answer of the video API. *)
Record VideoStatus := {
  vst_task_id : string;
  vst_status : string;
  vst_generated : option (list string);
  vst_error : option string
}.

(** The [data] object of the responses that report a status: [video_url]
    is [generated ? generated[0] : null], and an empty [generated] leaves it
    undefined, which the JSON body omits. *)
Definition status_data (data : VideoStatus) : list (string * Json) :=
  ([("task_id", JStr (vst_task_id data)); ("status", JStr (vst_status data))]
   ++ match vst_generated data with
      | None => [("video_url", JNull)]
      | Some [] => []
      | Some (first :: _) => [("video_url", JStr first)]
      end
   ++ [("generated", JArr (map JStr (default [] (vst_generated data))))])%list.

Definition video_failure (code : Z) (message : string) : HttpResponse :=
  {| status := code;
     body := [("success", JBool false); ("error", JStr message)] |}.

Section VideoService.
Variable env : Env.

(** The answers of [axios.get] on the status of a task: the n-th call is
    counted with the polls of the video task.  A rejection with an [Error]
    stands for an error of the HTTP client, any other one for an unexpected
    error. *)
Variable axios_get : nat -> Outcome VideoStatus.

(** [videoGenerationService.getVideoStatus] *)
Definition service_getVideoStatus : M VideoStatus :=
  fun w =>
    match axios_get (video_polls w) with
    | Ret data => (Ret data, tick_video_polls w)
    | Throw (Error m _) =>
        (Throw (Error ("Failed to get video status: " ++ m) None), tick_video_polls w)
    | Throw (AppError _ _ _) =>
        (Throw (Error "Failed to get video status due to an unexpected error" None),
         tick_video_polls w)
    end.

(** [waitForVideoCompletion]: the [while] loop with [remaining] attempts
    left, then the timeout. *)
Fixpoint waitForVideoCompletion_loop (remaining : nat) (intervalMs : Z) : M VideoStatus :=
  match remaining with
  | O => throw (Error "Video generation timed out" None)
  | S remaining' =>
      let* data := service_getVideoStatus in
      if String.eqb (vst_status data) "COMPLETED" then ret data
      else if String.eqb (vst_status data) "FAILED" then
        throw (Error ("Video generation failed: " ++ or_lit (vst_error data) "Unknown error")
                 None)
      else
        (match remaining' with
         | O => ret tt
         | S _ => sleep intervalMs
         end) ;;
        waitForVideoCompletion_loop remaining' intervalMs
  end.

(** [waitForVideoCompletion(taskId, maxAttempts = 60, intervalMs = 5000)] *)
Definition waitForVideoCompletion (maxAttempts : option nat) (intervalMs : option Z)
    : M VideoStatus :=
  waitForVideoCompletion_loop (default 60%nat maxAttempts) (default 5000 intervalMs).

(** [generateVideoSync] of [controllers/videoGeneration], the handler of
    the route [POST /generate-sync]. *)
Definition controller_generateVideoSync (req : VideoRequest) : M HttpResponse :=
  if negb (truthy (vreq_image req)) then ret (video_failure 400 "Image is required")
  else if negb (truthy (vreq_prompt req)) then ret (video_failure 400 "Prompt is required")
  else
    try_catch
      (service_generateVideo env ;;
       let* result := waitForVideoCompletion (Some 60%nat) (Some 5000) in
       ret {| status := 200;
              body := [("success", JBool true); ("data", JObj (status_data result))] |})
      (fun error => ret (video_failure 500 (exn_message error))).
End VideoService.

(** ** The video routes ([routes/video], [middleware/auth]) *)

(** A request as the routes see it: the [Authorization] header, which
    [requireAuthentication] reads, and the body, which the handlers read. *)
Record RouteRequest := {
  headers_authorization : option string;
  route_body : VideoRequest
}.

Section VideoRoutes.
Variable env : Env.
Variable axios_get : nat -> Outcome VideoStatus.

(** Clerk: [getAuth(req).userId], and the [sub] of the payload that
    [verifyToken(token)] returns; both may throw. *)
Variable getAuth : RouteRequest -> Outcome (option string).
Variable verifyToken : string -> Outcome (option string).

(** [checkQuota] of [middleware/quota] is mounted on two routes but is
    not part of the sources: it is a parameter, which either calls [next()]
    or has the request answered, and may change the world. *)
Variable checkQuota : RouteRequest -> World -> Verdict * World.

(** The inner [try] block of [requireAuthentication]: the user id of the
    Clerk middleware or, without one, of the verified token. *)
Definition verified_userId (req : RouteRequest) (token : string)
    : Outcome (option string) :=
  match getAuth req with
  | Throw tokenError => Throw tokenError
  | Ret userId => if negb (truthy userId) then verifyToken token else Ret userId
  end.

(** [requireAuthentication]: every exception of the inner block, the
    [UnauthorizedError] for a missing user id included, is caught there and
    thrown again as [Invalid or expired token]; the outer handler answers
    401 with the message of the [UnauthorizedError], the only errors that
    reach it. *)
Definition requireAuthentication (req : RouteRequest) : Verdict :=
  let authHeader := headers_authorization req in
  if negb (truthy authHeader) || negb (String.prefix "Bearer " (or_lit authHeader "")) then
    Respond (plain_response 401 "Authentication required - no token provided")
  else
    let token := String.substring 7 (String.length (or_lit authHeader "") - 7)
                   (or_lit authHeader "") in
    match verified_userId req token with
    | Ret userId =>
        if negb (truthy userId) then
          Respond (plain_response 401 "Invalid or expired token")
        else Next
    | Throw _ => Respond (plain_response 401 "Invalid or expired token")
    end.

(** [router.post(path, requireAuthentication, checkQuota, handler)] *)
Definition authenticated_with_quota (req : RouteRequest) (handler : M HttpResponse)
    : M HttpResponse :=
  match requireAuthentication req with
  | Respond response => ret response
  | Next =>
      fun w =>
        match checkQuota req w with
        | (Respond response, w1) => (Ret response, w1)
        | (Next, w1) => handler w1
        end
  end.

(** [POST /generate] *)
Definition route_generateVideo (req : RouteRequest) : M HttpResponse :=
  authenticated_with_quota req (controller_generateVideo env (route_body req)).

(** [POST /generate-sync] *)
Definition route_generateVideoSync (req : RouteRequest) : M HttpResponse :=
  authenticated_with_quota req
    (controller_generateVideoSync env axios_get (route_body req)).
End VideoRoutes.

(** ** The health check of the orchestrator *)

Record Health := {
  h_status : string;
  h_freepikService : bool;
  h_imageProcessingService : string;
  h_databaseConnected : bool
}.

Section Health.
Variable env : Env.

(** [imageProcessingService.healthCheck()]: the status it reports, or the
    error it throws. *)
Variable processing_health : Outcome string.

(** [checkDatabaseConnection] *)
Definition checkDatabaseConnection : M bool :=
  try_catch (db_op env (ret tt) ;; ret true) (fun _ => ret false).

(** [healthCheck] *)
Definition healthCheck : M Health :=
  try_catch
    (let* processingHealth := settle processing_health in
     let* databaseConnected := checkDatabaseConnection in
     let allHealthy := String.eqb processingHealth "healthy" && databaseConnected in
     ret {| h_status := if allHealthy then "healthy" else "degraded";
            h_freepikService := true;
            h_imageProcessingService := processingHealth;
            h_databaseConnected := databaseConnected |})
    (fun _ =>
       ret {| h_status := "unhealthy";
              h_freepikService := false;
              h_imageProcessingService := "unhealthy";
              h_databaseConnected := false |}).
End Health.

(** ** The media store client ([CloudinaryService]) *)

(** The environment variables read by [configure]. *)
Record CloudinaryVariables := {
  CLOUDINARY_CLOUD_NAME : option string;
  CLOUDINARY_API_KEY : option string;
  CLOUDINARY_API_SECRET : option string
}.

(** [configure]: the value of [isConfigured] afterwards; [config_throws]
    tells whether [cloudinary.config] throws. *)
Definition configure (variables : CloudinaryVariables) (config_throws : bool) : bool :=
  if negb (truthy (CLOUDINARY_CLOUD_NAME variables))
     || negb (truthy (CLOUDINARY_API_KEY variables))
     || negb (truthy (CLOUDINARY_API_SECRET variables))
  then false
  else negb config_throws.

(** What Cloudinary answers to an upload. *)
Record RawUpload := {
  raw_public_id : option string;
  raw_secure_url : option string;
  raw_width : option Z;
  raw_height : option Z;
  raw_format : option string;
  raw_bytes : option Z
}.

(** The result of [CloudinaryService.uploadImage]: the fields that the
    callers read, the [error] and whether Cloudinary was called. *)
Record ServiceUpload := {
  su_result : CloudinaryUploadResult;
  su_error : option string;
  su_called : bool
}.

(** [CloudinaryService.uploadImage], given what Cloudinary answers to the
    upload should it be made. *)
Definition service_uploadImage (isConfigured : bool) (answer : Outcome RawUpload)
    : ServiceUpload :=
  let failed :=
    {| cu_success := false; cu_publicId := None; cu_secureUrl := None;
       cu_width := None; cu_height := None; cu_format := None; cu_bytes := None |} in
  if negb isConfigured then
    {| su_result := failed;
       su_error := Some "Cloudinary is not configured. Please check environment variables.";
       su_called := false |}
  else
    match answer with
    | Ret uploadResult =>
        {| su_result :=
             {| cu_success := true;
                cu_publicId := raw_public_id uploadResult;
                cu_secureUrl := raw_secure_url uploadResult;
                cu_width := raw_width uploadResult;
                cu_height := raw_height uploadResult;
                cu_format := raw_format uploadResult;
                cu_bytes := raw_bytes uploadResult |};
           su_error := None;
           su_called := true |}
    | Throw error =>
        {| su_result := failed; su_error := Some (exn_message error); su_called := true |}
    end.

(** ** The upload middleware ([middleware/imageGeneration]) *)

(** The error that multer hands to the callback. *)
Inductive UploadError :=
| LimitFileSize
| LimitFileCount
| OtherError (message : string).

(** The files on disk. *)
Definition Files := gset string.

(** [fs.unlinkSync(path)]: throws when there is no such file, or when the
    system refuses. *)
Definition unlinkSync (unlink_fails : string -> bool) (path : string) (files : Files)
    : Outcome unit * Files :=
  if bool_decide (path ∈ files) then
    if unlink_fails path then (Throw (Error "EPERM: operation not permitted" None), files)
    else (Ret tt, files ∖ {[path]})
  else (Throw (Error "ENOENT: no such file or directory" None), files).

(** [fs.existsSync(path)] *)
Definition existsSync (path : string) (files : Files) : bool :=
  bool_decide (path ∈ files).

(** The size limit in megabytes, as the message shows it. *)
Definition size_limit_MB (subscriptionStatus : option string) : Z :=
  getFileSizeLimit subscriptionStatus / (1024 * 1024).

Section UploadMiddleware.
(** [sharp(path).metadata()]: the width and the height, if known. *)
Variable metadata : string -> Outcome (option Z * option Z).
Variable unlink_fails : string -> bool.

(** The [catch (imageError)] block of [uploadSingleImage], and the
    [catch] that follows the callback. *)
Definition invalid_image (file : UploadedFile) (files : Files) : Verdict * Files :=
  if existsSync (file_path file) files then
    match unlinkSync unlink_fails (file_path file) files with
    | (Ret _, files') => (Respond (plain_response 400 "Invalid image file"), files')
    | (Throw _, files') =>
        (Respond (plain_response 500 "Internal server error during file upload"), files')
    end
  else (Respond (plain_response 400 "Invalid image file"), files).

(** A rejection that first removes the uploaded file. *)
Definition reject_file (file : UploadedFile) (message : string) (files : Files)
    : Verdict * Files :=
  match unlinkSync unlink_fails (file_path file) files with
  | (Ret _, files') => (Respond (plain_response 400 message), files')
  | (Throw _, files') => invalid_image file files'
  end.

(** The callback of [uploadSingleImage]: [error] is what multer reports,
    [file] is [req.file]. *)
Definition uploadSingleImage (subscriptionStatus : option string)
    (error : option UploadError) (file : option UploadedFile) (files : Files)
    : Verdict * Files :=
  match error with
  | Some LimitFileSize =>
      (Respond (plain_response 400
                  ("File size exceeds limit of " ++ show_Z (size_limit_MB subscriptionStatus)
                     ++ "MB")), files)
  | Some LimitFileCount => (Respond (plain_response 400 "Too many files uploaded"), files)
  | Some (OtherError message) =>
      (Respond (plain_response 400 (or_lit (Some message) "File upload failed")), files)
  | None =>
      match file with
      | None => (Respond (plain_response 400 "No image file provided"), files)
      | Some file =>
          match metadata (file_path file) with
          | Throw _ => invalid_image file files
          | Ret (width, height) =>
              if (or_num width 0 =? 0) || (or_num height 0 =? 0)
                 || (or_num width 0 <? 64) || (or_num height 0 <? 64) then
                reject_file file "Image must be at least 64x64 pixels" files
              else if (maxDimension subscriptionStatus <? or_num width 0)
                      || (maxDimension subscriptionStatus <? or_num height 0) then
                reject_file file
                  ("Image dimensions must not exceed "
                     ++ show_Z (maxDimension subscriptionStatus) ++ "x"
                     ++ show_Z (maxDimension subscriptionStatus) ++ " pixels") files
              else (Next, files)
          end
      end
  end.
End UploadMiddleware.

Section MultipleUpload.
Variable metadata : string -> Outcome (option Z * option Z).
Variable unlink_fails : string -> bool.

(** [files.forEach(f => { if (fs.existsSync(f.path)) fs.unlinkSync(f.path) })] *)
Fixpoint remove_all (uploaded : list UploadedFile) (files : Files) : Outcome unit * Files :=
  match uploaded with
  | [] => (Ret tt, files)
  | f :: rest =>
      if existsSync (file_path f) files then
        match unlinkSync unlink_fails (file_path f) files with
        | (Ret _, files') => remove_all rest files'
        | (Throw e, files') => (Throw e, files')
        end
      else remove_all rest files
  end.

(** The [catch (imageError)] block of [uploadMultipleImages], and the
    [catch] that follows the callback. *)
Definition invalid_images (uploaded : list UploadedFile) (files : Files) : Verdict * Files :=
  match remove_all uploaded files with
  | (Ret _, files') =>
      (Respond (plain_response 400 "One or more invalid image files"), files')
  | (Throw _, files') =>
      (Respond (plain_response 500 "Internal server error during file upload"), files')
  end.

(** A rejection inside the [try] block, after the removal of all files. *)
Definition reject_files (uploaded : list UploadedFile) (message : string) (files : Files)
    : Verdict * Files :=
  match remove_all uploaded files with
  | (Ret _, files') => (Respond (plain_response 400 message), files')
  | (Throw _, files') => invalid_images uploaded files'
  end.

(** The loop that validates the uploaded images; [todo] are the files
    still to be looked at. *)
Fixpoint check_files (subscriptionStatus : option string) (uploaded todo : list UploadedFile)
    (files : Files) : Verdict * Files :=
  match todo with
  | [] => (Next, files)
  | file :: rest =>
      match metadata (file_path file) with
      | Throw _ => invalid_images uploaded files
      | Ret (width, height) =>
          if (or_num width 0 =? 0) || (or_num height 0 =? 0)
             || (or_num width 0 <? 64) || (or_num height 0 <? 64) then
            reject_files uploaded "All images must be at least 64x64 pixels" files
          else if (maxDimension subscriptionStatus <? or_num width 0)
                  || (maxDimension subscriptionStatus <? or_num height 0) then
            reject_files uploaded
              ("All images must not exceed "
                 ++ show_Z (maxDimension subscriptionStatus) ++ "x"
                 ++ show_Z (maxDimension subscriptionStatus) ++ " pixels") files
          else check_files subscriptionStatus uploaded rest files
      end
  end.

(** The callback of [uploadMultipleImages]: [error] is what multer
    reports, [uploaded] is [req.files]. *)
Definition uploadMultipleImages (subscriptionStatus : option string)
    (error : option UploadError) (uploaded : option (list UploadedFile)) (files : Files)
    : Verdict * Files :=
  match error with
  | Some LimitFileSize =>
      (Respond (plain_response 400
                  ("File size exceeds limit of " ++ show_Z (size_limit_MB subscriptionStatus)
                     ++ "MB")), files)
  | Some LimitFileCount =>
      (Respond (plain_response 400
                  ("Too many files uploaded. Maximum allowed: "
                     ++ show_Z (getFileCountLimit subscriptionStatus))), files)
  | Some (OtherError message) =>
      (Respond (plain_response 400 (or_lit (Some message) "File upload failed")), files)
  | None =>
      match uploaded with
      | None | Some [] => (Respond (plain_response 400 "No image files provided"), files)
      | Some [only] =>
          match remove_all [only] files with
          | (Ret _, files') =>
              (Respond (plain_response 400 "At least 2 images are required for composition"),
               files')
          | (Throw _, files') =>
              (Respond (plain_response 500 "Internal server error during file upload"),
               files')
          end
      | Some several => check_files subscriptionStatus several several files
      end
  end.
End MultipleUpload.

(** * Vocabulary of the statements *)

(** [keeps R m]: the world after [m] is related by [R] to the world before
    it, whether [m] returns or throws. *)
Definition keeps {A} (R : World -> World -> Prop) (m : M A) : Prop :=
  forall w, R w (snd (m w)).

(** The store side of the world. *)
Definition same_store (w w' : World) : Prop :=
  users w' = users w /\ generations w' = generations w /\
  journal w' = journal w /\ dbops w' = dbops w.

(** The provider side of the world: calls made, waits and clock. *)
Definition same_calls (w w' : World) : Prop :=
  submits w' = submits w /\ polls w' = polls w /\
  video_submits w' = video_submits w /\ video_polls w' = video_polls w /\
  downloads w' = downloads w /\ uploads w' = uploads w /\
  posts w' = posts w /\ sleeps w' = sleeps w /\ now w' = now w.

(** [m] never throws. *)
Definition returns {A} (m : M A) : Prop :=
  forall w, exists a, fst (m w) = Ret a.

(** The update written by the [catch] block. *)
Definition failed_update (error : Exn) : Updates :=
  {| up_status := Failed; up_inputImages := None; up_outputImages := None;
     up_errorMessage := Some (exn_message error) |}.

(** The update written on completion. *)
Definition completed_update (inputImages : option (list string))
    (processedImages : list Image) : Updates :=
  {| up_status := Completed; up_inputImages := inputImages;
     up_outputImages := Some (map to_output processedImages);
     up_errorMessage := None |}.

(** The steps that run while [generationRecord] is [null]. *)
Definition opening (env : Env) (context : GenerationContext) (type : GenerationType)
    (checks : M unit) : M ImageGeneration :=
  checks ;; validateGenerationContext env context ;; createGenerationRecord env context type.

(** The four ways through [run_job], with the worlds in between. *)
Inductive job_path (env : Env) (context : GenerationContext) (type : GenerationType)
    (checks : M unit) (generate : M GenerationResponse)
    (inputImages : option (list string)) (w : World)
    : GenerationResult -> World -> Prop :=
| path_rejected error w1 :
    opening env context type checks w = (Throw error, w1) ->
    job_path env context type checks generate inputImages w (failure_of error) w1
| path_no_quota g w1 q g' w2 w3 :
    opening env context type checks w = (Ret g, w1) ->
    validateAndConsumeQuota env context g w1 = (Ret (q, g'), w2) ->
    qr_success q = false ->
    w3 = snd (updateGenerationRecord env g'
                (failed_update
                   (QuotaExceededError (or_lit (qr_message q) "Quota exceeded"))) w2) ->
    job_path env context type checks generate inputImages w
      (failure_of (QuotaExceededError (or_lit (qr_message q) "Quota exceeded"))) w3
| path_provider_failed g w1 q g' w2 error w3 w4 :
    opening env context type checks w = (Ret g, w1) ->
    validateAndConsumeQuota env context g w1 = (Ret (q, g'), w2) ->
    qr_success q = true ->
    executeWithRetry env generate w2 = (Throw error, w3) ->
    w4 = snd (updateGenerationRecord env g' (failed_update error) w3) ->
    job_path env context type checks generate inputImages w (failure_of error) w4
| path_completed g w1 q g' w2 response w3 processedImages w4 w5 :
    opening env context type checks w = (Ret g, w1) ->
    validateAndConsumeQuota env context g w1 = (Ret (q, g'), w2) ->
    qr_success q = true ->
    executeWithRetry env generate w2 = (Ret response, w3) ->
    processGeneratedImages env (resp_images response) (c_subscriptionTier context) w3
      = (Ret processedImages, w4) ->
    length processedImages = length (resp_images response) ->
    w5 = snd (updateGenerationRecord env g'
                (completed_update inputImages processedImages) w4) ->
    job_path env context type checks generate inputImages w
      (Success {| d_images := processedImages;
                  d_creditsUsed := resp_creditsUsed response;
                  d_generationRecord :=
                    assign g' (completed_update inputImages processedImages) |}) w5.

Definition users_kept (w w' : World) : Prop := users w' = users w.
Definition journal_kept (w w' : World) : Prop := journal w' = journal w.
Definition size_kept (w w' : World) : Prop :=
  length (generations w') = length (generations w).

(** A call of one of the four image entry points. *)
Inductive ImageCall :=
| CallTextToImage (context : GenerationContext)
| CallImageToImage (context : GenerationContext) (inputImage : string)
| CallMultiImage (context : GenerationContext) (inputImages : list string)
| CallRefine (context : GenerationContext) (inputImage : string).

Definition call (env : Env) (c : ImageCall) : M GenerationResult :=
  match c with
  | CallTextToImage context => generateTextToImage env context
  | CallImageToImage context inputImage => generateImageToImage env context inputImage
  | CallMultiImage context inputImages => generateMultiImageComposition env context inputImages
  | CallRefine context inputImage => refineImage env context inputImage
  end.

Definition call_context (c : ImageCall) : GenerationContext :=
  match c with
  | CallTextToImage context => context
  | CallImageToImage context _ => context
  | CallMultiImage context _ => context
  | CallRefine context _ => context
  end.

Definition call_type (c : ImageCall) : GenerationType :=
  match c with
  | CallTextToImage _ => TextToImage
  | CallImageToImage _ _ => ImageToImage
  | CallMultiImage _ _ => MultiImage
  | CallRefine _ _ => Refine
  end.

(** The cost of a call, as its document records it. *)
Definition call_cost (env : Env) (c : ImageCall) : Z :=
  cost_of env (call_context c) (call_type c).

(** An environment given by the answers of the store, of the provider
    to submissions and of the media store; every poll says the task is
    still processing, every other collaborator agrees. *)
Definition sample_env (faults : nat -> option Exn)
    (submitted : nat -> Fetched SubmitBody)
    (uploaded : nat -> Outcome CloudinaryUploadResult) : Env :=
  {| db_fault := faults;
     submit_answer := submitted;
     poll_answer := fun _ =>
       HttpOk {| pb_status := "PROCESSING"; pb_generated := [];
                 pb_image_url := None; pb_error := None |};
     video_submit_answer := fun _ => HttpOk (Some "task-1");
     video_poll_answer := fun _ =>
       HttpOk {| vb_status := "PROCESSING"; vb_video := None; vb_error := None |};
     download_ok := fun _ => Ret true;
     upload_answer := uploaded;
     thumbnail_answer := fun publicId => Ret ("thumb/" ++ publicId);
     local_file := fun _ => Ret false;
     probe_answer := fun _ => ProbeAnswer true 200 "OK" (Some "image/png");
     validateImage := fun _ _ _ => Ret {| v_valid := true; v_errors := "" |};
     calculateGenerationCost := fun _ _ => 1;
     axios_post := fun _ => Ret ("task-1", "CREATED");
     backoff := FixedDelay;
     apiKey := "key" |}.

Definition no_fault : nat -> option Exn := fun _ => None.

Definition immediate : nat -> Fetched SubmitBody :=
  fun _ => HttpOk {| sb_image_url := Some "https://x/img.png"; sb_task := None |}.

Definition queued : nat -> Fetched SubmitBody :=
  fun _ => HttpOk {| sb_image_url := None; sb_task := Some "task-1" |}.

Definition unavailable : nat -> Fetched SubmitBody :=
  fun _ => HttpError 503 "Service Unavailable".

Definition stored : nat -> Outcome CloudinaryUploadResult :=
  fun _ => Ret {| cu_success := true; cu_publicId := Some "pid";
                  cu_secureUrl := Some "https://cdn/pid.png";
                  cu_width := Some 512; cu_height := Some 512;
                  cu_format := Some "png"; cu_bytes := Some 1000 |}.

Definition upload_throws : nat -> Outcome CloudinaryUploadResult :=
  fun _ => Throw (Error "upload failed" None).

Definition alice : User :=
  {| u_isActive := true; u_subscriptionTier := Free; u_monthlyUsage := 0 |}.

(** A world with one user, no document and no call made. *)
Definition start : World :=
  {| users := {["alice" := alice]}; generations := []; journal := [];
     dbops := 0; submits := 0; polls := 0; video_submits := 0; video_polls := 0;
     downloads := 0; uploads := 0; posts := 0; sleeps := []; now := 0 |}.

Definition red_circle : GenerationRequest :=
  {| r_prompt := "a red circle"; r_quality := Some "standard"; r_batchSize := None;
     r_aspectRatio := Some "1:1"; r_style := None |}.

(** The context of alice with a given remaining balance. *)
Definition alice_context (remaining : Z) : GenerationContext :=
  createContext "alice" Free red_circle (Some {| q_remaining := remaining |}).

Definition usage (clerkId : string) (w : World) : option Z :=
  u_monthlyUsage <$> users w !! clerkId.

(** The steps of a call before the validation of its context. *)
Definition call_checks (env : Env) (c : ImageCall) : M unit :=
  match c with
  | CallTextToImage _ => ret tt
  | CallImageToImage context inputImage =>
      check_input_image env inputImage "input_image" (c_subscriptionTier context)
        "Input image"
  | CallMultiImage context inputImages =>
      if String.eqb (tier_name (c_subscriptionTier context)) "free" then
        throw (SubscriptionError
                 "Multi-image composition requires Plus or Pro subscription")
      else check_input_images env inputImages 0 (c_subscriptionTier context)
  | CallRefine context inputImage =>
      check_input_image env inputImage "input_image" (c_subscriptionTier context)
        "Input image"
  end.

(** The provider call of a call. *)
Definition call_generate (env : Env) (c : ImageCall) : M GenerationResponse :=
  match c with
  | CallTextToImage context => textToImage env (c_request context)
  | CallImageToImage context _ => imageToImage env (c_request context)
  | CallMultiImage context _ =>
      textToImage env
        (with_prompt (c_request context)
           (r_prompt (c_request context)
              ++ ". Create a composition combining multiple elements."))
  | CallRefine context _ =>
      imageToImage env
        (with_prompt (c_request context)
           (r_prompt (c_request context) ++ ". Refine and enhance the image quality."))
  end.

Definition call_inputs (c : ImageCall) : option (list string) :=
  match c with
  | CallTextToImage _ => None
  | CallImageToImage _ _ => Some ["input_image"]
  | CallMultiImage _ inputImages =>
      Some (imap (fun index _ => "input_image_" ++ show_Z (Z.of_nat index)) inputImages)
  | CallRefine _ _ => Some ["input_image"]
  end.

(** A document that has neither outputs nor an error yet. *)
Definition fresh (g : ImageGeneration) : Prop :=
  g_outputImages g = [] /\ g_errorMessage g = None /\
  (g_status g = Pending \/ g_status g = Processing).

(** The user after [user.monthlyUsage += credits]. *)
Definition charged (user : User) (credits : Z) : User :=
  {| u_isActive := u_isActive user;
     u_subscriptionTier := u_subscriptionTier user;
     u_monthlyUsage := u_monthlyUsage user + credits |}.

(** Sum of the credits of the documents that are [Completed]. *)
Definition completed_credits (l : list ImageGeneration) : Z :=
  foldr (fun g total =>
           match g_status g with
           | Completed => g_credits g + total
           | _ => total
           end) 0 l.







Definition video_timeout : Exn :=
  AppError "Video generation timed out after 2 minutes" (Some 408)
    (Lit "FREEPIK_VIDEO_TIMEOUT").

(** Video counters and waits. *)
Definition video_kept (w w' : World) : Prop :=
  video_submits w' = video_submits w /\ video_polls w' = video_polls w /\
  sleeps w' = sleeps w.

(** Every submission is answered with a transient HTTP failure. *)
Definition submit_always_transient (env : Env) : Prop :=
  forall n, exists status text,
    submit_answer env n = HttpError status text /\ transient_status status = true.

(** The relation between the state of a document, its outputs and its
    error message. *)
Definition job_inv (g : ImageGeneration) : Prop :=
  (g_status g = Completed <-> g_outputImages g <> []) /\
  (g_status g = Failed <-> g_errorMessage g <> None) /\
  (g_status g = Failed -> g_outputImages g = []).

(** Every version of a document that the code has built or mutated, and
    every persisted document, satisfies the relation. *)
Definition records_ok (w : World) : Prop :=
  Forall job_inv (journal w) /\ Forall job_inv (generations w).

Definition inv_kept (w w' : World) : Prop := records_ok w -> records_ok w'.

(** The request of alice for a red circle. *)
Definition alice_request (quotaInfo : option QuotaInfo) : HttpRequest :=
  {| req_userId := Some "alice"; req_prompt := Some "a red circle";
     req_aspectRatio := Some "1:1"; req_style := None;
     req_quality := Some "standard"; req_quotaInfo := quotaInfo |}.

(** The context that the controller builds for a request. *)
Definition request_context (req : HttpRequest) (userId prompt : string) (user : User)
    : GenerationContext :=
  createContext userId (u_subscriptionTier user)
    {| r_prompt := prompt; r_quality := req_quality req; r_batchSize := None;
       r_aspectRatio := req_aspectRatio req; r_style := req_style req |}
    (req_quotaInfo req).

(** The response that the controller sends for a result of the orchestrator. *)
Definition response_of (result : GenerationResult) : HttpResponse :=
  match result with
  | Failure error =>
      {| status := 400;
         body := [("success", JBool false);
                  ("message",
                   JStr (or_lit (Some (e_message error)) "Image generation failed"))] |}
  | Success data =>
      {| status := 200;
         body := [("success", JBool true);
                  ("data",
                   JObj [("images", JArr (map image_json (d_images data)));
                         ("usage", JObj [("creditsUsed", JNum (d_creditsUsed data))])])] |}
  end.

Definition internal_error : HttpResponse :=
  {| status := 500;
     body := [("success", JBool false);
              ("message", JStr "Internal server error during image generation")] |}.

Definition unauthenticated : HttpResponse :=
  {| status := 401;
     body := [("success", JBool false);
              ("message", JStr "Authentication required - no user ID found")] |}.

(** The summary document that [saveGenerationHistory] builds. *)
Definition summary_of (userId : string) (type : GenerationType) (prompt : string)
    (result : GenerationResult) (quality : option string) (t : Z) (id : option nat)
    : ImageGeneration :=
  {| g_id := id; g_userId := userId; g_type := type;
     g_status := match result with Success _ => Completed | Failure _ => Failed end;
     g_prompt := prompt; g_quality := Some (or_lit quality "standard");
     g_inputImages := [];
     g_outputImages :=
       match result with
       | Success data => map (history_output t) (d_images data)
       | Failure _ => []
       end;
     g_cost := 0; g_credits := 1;
     g_errorMessage :=
       match result with
       | Success _ => None
       | Failure error => Some (e_message error)
       end |}.

(** The kinds of failure that the specification tells apart at the HTTP
    layer. *)
Inductive FailureKind :=
| CallerValidation
| CallerQuota
| Authentication
| UpstreamRateLimit
| Unexpected
| TimedOut.

(** The status that the specification derives from the kind of failure:
    400 for validation and quota of the caller, 401 for authentication, 429
    for upstream rate limiting, 500 for unexpected errors and timeouts. *)
Definition spec_status (k : FailureKind) : Z :=
  match k with
  | CallerValidation | CallerQuota => 400
  | Authentication => 401
  | UpstreamRateLimit => 429
  | Unexpected | TimedOut => 500
  end.

(** The store rejects its third operation, the insertion of the document
    of the job. *)
Definition store_down : nat -> option Exn :=
  fun n => if Nat.eqb n 2 then Some (Error "db down" None) else None.

(** The media store fails for the asset handled next: the download of the
    generated image fails, or the upload throws or reports no success or no
    secure URL. *)
Definition media_store_fails (env : Env) (w : World) : bool :=
  match download_ok env (downloads w) with
  | Ret true =>
      match upload_answer env (uploads w) with
      | Ret r => negb (cu_success r) || negb (truthy (cu_secureUrl r))
      | Throw _ => true
      end
  | _ => true
  end.

(** The asset that [uploadToCloudinary] falls back to. *)
Definition fallback_asset (imageUrl : string) (t : Z) : UploadedAsset :=
  {| ua_url := imageUrl; ua_secureUrl := imageUrl;
     ua_publicId := Some ("freepik_" ++ show_Z t);
     ua_format := "jpeg"; ua_width := 1024; ua_height := 1024; ua_bytes := 0 |}.

(** An upload that succeeds and answers with the values of the fallback. *)
Definition stored_as_fallback : nat -> Outcome CloudinaryUploadResult :=
  fun _ => Ret {| cu_success := true; cu_publicId := Some "freepik_0";
                  cu_secureUrl := Some "https://x/img.png";
                  cu_width := Some 1024; cu_height := Some 1024;
                  cu_format := Some "jpeg"; cu_bytes := Some 0 |}.

(** The decision of the quota step and the document it hands back. *)
Definition quota_decision (env : Env) (context : GenerationContext)
    (g : ImageGeneration) (w : World) : Outcome (QuotaResult * ImageGeneration) :=
  fst (validateAndConsumeQuota env context g w).

(** The decision as a function of the balance carried by the context, of
    the point [ops] of the store's script and of whether the owner is known
    to the store. *)
Definition decided (env : Env) (context : GenerationContext) (g : ImageGeneration)
    (ops : nat) (known : bool) : QuotaResult * ImageGeneration :=
  let caught :=
    {| qr_success := false; qr_message := Some "Failed to validate/consume quota";
       qr_remaining := None |} in
  if q_remaining (c_quotaInfo context) <? g_credits g then
    ({| qr_success := false;
        qr_message :=
          Some ("Insufficient quota. Need " ++ show_Z (g_credits g) ++ " credits, have "
                  ++ show_Z (q_remaining (c_quotaInfo context)));
        qr_remaining := Some (q_remaining (c_quotaInfo context)) |}, g)
  else
    match db_fault env ops with
    | Some _ => (caught, g)
    | None =>
        if known then
          match db_fault env (S ops) with
          | Some _ => (caught, g)
          | None =>
              match db_fault env (S (S ops)) with
              | Some _ => (caught, set_status g Processing)
              | None =>
                  ({| qr_success := true; qr_message := None; qr_remaining := None |},
                   set_status g Processing)
              end
          end
        else
          ({| qr_success := false; qr_message := Some "User not found";
              qr_remaining := None |}, g)
    end.

(** A document of alice that waits for its quota. *)
Definition pending_document : ImageGeneration :=
  {| g_id := Some 0%nat; g_userId := "alice"; g_type := TextToImage;
     g_status := Pending; g_prompt := "a red circle"; g_quality := Some "standard";
     g_inputImages := []; g_outputImages := []; g_cost := 1; g_credits := 1;
     g_errorMessage := None |}.

(** The part of the provider call that obtains the URL of the generated
    image: the submission and, when it carries no image, the polls. *)
Definition url_phase (env : Env) : M string :=
  let* response := post_submit env in
  match response with
  | inl (status, text) =>
      throw (AppError ("Freepik API error: " ++ text) (Some status)
               (Lit "FREEPIK_API_ERROR"))
  | inr responseData => submitted_url env responseData
  end.

(** The provider delivers the image URL [u] when it is called in the
    provider-side state of [w]. *)
Definition provider_delivers (env : Env) (w : World) (u : string) : Prop :=
  forall w2, same_calls w w2 -> exists w3, url_phase env w2 = (Ret u, w3).

(** Calls made to the media store. *)
Definition media_kept (w w' : World) : Prop :=
  downloads w' = downloads w /\ uploads w' = uploads w.

(** The request carries no [Authorization] header that starts with
    [Bearer ]. *)
Definition no_bearer_token (req : RouteRequest) : bool :=
  negb (truthy (headers_authorization req))
  || negb (String.prefix "Bearer " (or_lit (headers_authorization req) "")).

(** A refusal [{success: false, message}] without [error] or [code]. *)
Definition refusal_with_message (response : HttpResponse) : Prop :=
  field "success" (body response) = Some (JBool false) /\
  (exists m, field "message" (body response) = Some (JStr m)) /\
  field "error" (body response) = None /\
  field "code" (body response) = None.

(** ** Vocabulary of the further properties *)

(** The persistent data and the journal of the documents. *)
Definition data_kept (w w' : World) : Prop :=
  users w' = users w /\ generations w' = generations w /\ journal w' = journal w.

(** The quality of the request is offered to the tier of the context. *)
Definition quality_offered (context : GenerationContext) : bool :=
  quality_available
    (availableQualities (getModelCapabilities (c_subscriptionTier context)))
    (r_quality (c_request context)).

(** A context whose request asks for a quality that its tier does not have. *)
Definition alice_hd_context : GenerationContext :=
  createContext "alice" Free
    {| r_prompt := "a red circle"; r_quality := Some "hd"; r_batchSize := None;
       r_aspectRatio := None; r_style := None |} None.

(** The handler answers the request in the world [w] with a refusal: a
    status 400, 401 or 500 and a body that says so; no user is changed and
    neither the provider nor the media store is called. *)
Definition refused (handler : M HttpResponse) (w : World) : Prop :=
  exists response,
    fst (handler w) = Ret response /\
    (status response = 400 \/ status response = 401 \/ status response = 500) /\
    field "success" (body response) = Some (JBool false) /\
    users (snd (handler w)) = users w /\
    same_calls w (snd (handler w)).

(** Every file can be read. *)
Definition readable : string -> Outcome string := fun _ => Ret "bytes".

(** What [validateGenerationContext] asks of a context and of the user it
    finds under the user id of the context. *)
Definition acceptable (context : GenerationContext) (user : User) : Prop :=
  u_isActive user = true /\
  (c_subscriptionActive context = true \/ c_subscriptionTier context = Free) /\
  is_blank (r_prompt (c_request context)) = false /\
  Z.of_nat (js_length (r_prompt (c_request context))) <= 2000 /\
  quality_offered context = true /\
  or_num (r_batchSize (c_request context)) 0
    <= maxBatchSize (getModelCapabilities (c_subscriptionTier context)).

(** The order of the tiers: free, plus, pro. *)
Definition tier_rank (t : Tier) : nat :=
  match t with Free => 0 | Plus => 1 | Pro => 2 end.

(** The context with another tier, its subscription being active. *)
Definition upgraded (context : GenerationContext) (tier : Tier) : GenerationContext :=
  {| c_userId := c_userId context;
     c_subscriptionTier := tier;
     c_quotaInfo := c_quotaInfo context;
     c_subscriptionActive := true;
     c_request := c_request context |}.

(** A poll loop has made [k] polls, each one after a wait of 2000 ms, and
    nothing else that is counted. *)
Definition paced (polled : World -> nat) (w w' : World) (k : nat) : Prop :=
  polled w' = (polled w + k)%nat /\
  sleeps w' = (sleeps w ++ repeat 2000 k)%list /\
  now w' = now w + 2000 * Z.of_nat k.

(** The computation can end with the exception [e]. *)
Definition throws {A} (m : M A) (e : Exn) : Prop :=
  exists w w', m w = (Throw e, w').

(** An error that is not an [AppError]. *)
Definition plain_error (e : Exn) : Prop := exists m c, e = Error m c.

(** An [AppError] with a status and one of the given codes. *)
Definition coded (codes : list string) (e : Exn) : Prop :=
  exists m s code, e = AppError m (Some s) (Lit code) /\ In code codes.

(** When [fetch] rejects, it rejects with a plain error. *)
Definition plain_rejection {A} (answer : nat -> Fetched A) : Prop :=
  forall n e, answer n = NetworkError e -> plain_error e.

(** The codes given by [handleFreepikError] to plain errors. *)
Definition handled_codes : list string :=
  ["INVALID_API_KEY"; "QUOTA_EXCEEDED"; "TIMEOUT"; "FREEPIK_ERROR"].

(** The codes of the errors built by the image generation of the provider
    client. *)
Definition image_codes : list string :=
  ["FREEPIK_API_ERROR"; "FREEPIK_POLL_ERROR"; "NO_IMAGES_GENERATED";
   "FREEPIK_GENERATION_FAILED"; "FREEPIK_TIMEOUT"; "NO_IMAGE_URL";
   "INVALID_FREEPIK_RESPONSE"].

(** The codes of the errors built by the video generation. *)
Definition video_codes : list string :=
  ["MISSING_API_KEY"; "INVALID_IMAGE_URL"; "BASE64_UPLOAD_FAILED";
   "IMAGE_URL_NOT_ACCESSIBLE"; "INVALID_IMAGE_TYPE"; "INVALID_URL_FORMAT";
   "FREEPIK_VIDEO_API_ERROR"; "NO_TASK_ID"; "FREEPIK_VIDEO_POLL_ERROR";
   "NO_VIDEO_URL"; "FREEPIK_VIDEO_GENERATION_FAILED"; "FREEPIK_VIDEO_TIMEOUT"].

(** No submission to the provider is made. *)
Definition submissions_kept (w w' : World) : Prop := submits w' = submits w.

(** The image needs no upload: it carries no inline data and its URL does
    not point to this host. *)
Definition remote (image : Image) : bool :=
  negb (truthy (i_data image))
  && negb (truthy (i_url image) && includes "localhost" (or_lit (i_url image) "")).

(** The message of the refusal of a composition to the free tier. *)
Definition composition_needs_upgrade : string :=
  "Multi-image composition requires Plus or Pro subscription".

(** A request of a user without subscription status for a composition of
    two files. *)
Definition bob_composition : UploadRequest :=
  {| ureq_userId := Some "bob"; ureq_prompt := Some "blend them";
     ureq_file := None;
     ureq_files :=
       Some [{| file_path := "/tmp/a.png"; file_mimetype := "image/png";
                file_originalname := "a.png"; file_size := 10 |};
             {| file_path := "/tmp/b.png"; file_mimetype := "image/png";
                file_originalname := "b.png"; file_size := 12 |}];
     ureq_subscriptionStatus := None; ureq_quotaInfo := None |}.

(** [waitForVideoCompletion] has asked [k] times for the status of the
    task and has waited [intervalMs] between two requests. *)
Definition waited (intervalMs : Z) (w w' : World) (k : nat) : Prop :=
  video_polls w' = (video_polls w + k)%nat /\
  sleeps w' = (sleeps w ++ repeat intervalMs (k - 1))%list /\
  now w' = now w + intervalMs * Z.of_nat (k - 1) /\
  posts w' = posts w.

(** The status of the task is never [COMPLETED] nor [FAILED]. *)
Definition never_settles (axios_get : nat -> Outcome VideoStatus) : Prop :=
  forall n, exists data,
    axios_get n = Ret data /\
    String.eqb (vst_status data) "COMPLETED" = false /\
    String.eqb (vst_status data) "FAILED" = false.

(** A task that reports the status [completed] in lower case for ever. *)
Definition lower_case_completed : nat -> Outcome VideoStatus :=
  fun _ => Ret {| vst_task_id := "task-1"; vst_status := "completed";
                  vst_generated := Some ["https://x/video.mp4"]; vst_error := None |}.

(** The key, if given, does not name a member of [Object.prototype]. *)
Definition ordinary (key : option string) : Prop :=
  forall k, key = Some k -> ~ In k object_prototype_members.

(** The aspect ratios and the models that the provider knows. *)
Definition provider_ratios : list string :=
  ["square_1_1"; "widescreen_16_9"; "portrait_9_16"; "standard_4_3"; "standard_3_4"].

Definition provider_models : list string := ["realism"; "creative"; "anime"].

(** The provider queues the task and reports it completed at the first
    poll, with an object that has a [url] and an [image_url]. *)
Definition polled_env : Env :=
  {| db_fault := no_fault;
     submit_answer := queued;
     poll_answer := fun _ =>
       HttpOk {| pb_status := "COMPLETED";
                 pb_generated := [GenObj (Some "https://x/by-url.png")
                                    (Some "https://x/by-image-url.png") None];
                 pb_image_url := None; pb_error := None |};
     video_submit_answer := fun _ => HttpOk (Some "task-1");
     video_poll_answer := fun _ =>
       HttpOk {| vb_status := "PROCESSING"; vb_video := None; vb_error := None |};
     download_ok := fun _ => Ret true;
     upload_answer := stored;
     thumbnail_answer := fun publicId => Ret ("thumb/" ++ publicId);
     local_file := fun _ => Ret false;
     probe_answer := fun _ => ProbeAnswer true 200 "OK" (Some "image/png");
     validateImage := fun _ _ _ => Ret {| v_valid := true; v_errors := "" |};
     calculateGenerationCost := fun _ _ => 1;
     axios_post := fun _ => Ret ("task-1", "CREATED");
     backoff := FixedDelay;
     apiKey := "key" |}.

(** The record that [ensureUserExists] creates for an unknown user. *)
Definition basic_user : User :=
  {| u_isActive := true; u_subscriptionTier := Free; u_monthlyUsage := 0 |}.

(** The subscription status is missing, empty or the name of a tier. *)
Definition recognised (subscriptionStatus : option string) : Prop :=
  subscriptionStatus = None \/ subscriptionStatus = Some "" \/
  subscriptionStatus = Some "free" \/ subscriptionStatus = Some "plus" \/
  subscriptionStatus = Some "pro".

(** The limits that the quota endpoint reports for a subscription status
    are those that the upload middlewares enforce for it. *)
Definition limits_agree (subscriptionStatus : option string) : Prop :=
  lim_fileSize (quota_limits (or_lit subscriptionStatus "free"))
    = getFileSizeLimit subscriptionStatus /\
  lim_multiImageCount (quota_limits (or_lit subscriptionStatus "free"))
    = getFileCountLimit subscriptionStatus /\
  lim_maxDimensions (quota_limits (or_lit subscriptionStatus "free"))
    = maxDimension subscriptionStatus.

(** The verdict of the middleware is an answer with the given status. *)
Definition answered (verdict : Verdict) (code : Z) : Prop :=
  exists response, verdict = Respond response /\ status response = code.

(** The dimensions are within the bounds that the middleware accepts for
    the subscription status. *)
Definition within_bounds (subscriptionStatus : option string) (width height : Z) : Prop :=
  64 <= width <= maxDimension subscriptionStatus /\
  64 <= height <= maxDimension subscriptionStatus.

(** An uploaded file, and a reading of dimensions that finds it too small. *)
Definition small_file : UploadedFile :=
  {| file_path := "/tmp/s.png"; file_mimetype := "image/png";
     file_originalname := "s.png"; file_size := 10 |}.

Definition tiny : string -> Outcome (option Z * option Z) :=
  fun _ => Ret (Some 32, Some 32).

(** The image can be read and its dimensions are within the bounds. *)
Definition acceptable_image (metadata : string -> Outcome (option Z * option Z))
    (subscriptionStatus : option string) (file : UploadedFile) : Prop :=
  exists width height,
    metadata (file_path file) = Ret (Some width, Some height) /\
    within_bounds subscriptionStatus width height.

(** None of the uploaded files is on disk. *)
Definition all_gone (uploaded : list UploadedFile) (files : Files) : Prop :=
  Forall (fun file => file_path file ∉ files) uploaded.

(** The middleware refuses the request: with status 400 once all the
    uploaded files are removed, or with status 500; no file is added. *)
Definition refusal (uploaded : list UploadedFile) (files : Files) (r : Verdict * Files)
    : Prop :=
  (answered (fst r) 400 /\ all_gone uploaded (snd r) \/ answered (fst r) 500) /\
  snd r ⊆ files.

(** The files that multer has stored for the request. *)
Definition stored_files (error : option UploadError)
    (uploaded : option (list UploadedFile)) : list UploadedFile :=
  match error with
  | Some _ => []
  | None => default [] uploaded
  end.

(** Two uploaded files, the second of which is too small. *)
Definition large_file : UploadedFile :=
  {| file_path := "/tmp/l.png"; file_mimetype := "image/png";
     file_originalname := "l.png"; file_size := 10 |}.

Definition second_tiny : string -> Outcome (option Z * option Z) :=
  fun path => if String.eqb path "/tmp/s.png" then Ret (Some 32, Some 32)
              else Ret (Some 512, Some 512).

(** The media store of the environment is the Cloudinary client in the
    given state of configuration. *)
Definition media_through_service (env : Env) (isConfigured : bool) : Prop :=
  forall n, exists answer,
    upload_answer env n = Ret (su_result (service_uploadImage isConfigured answer)).

(** An environment without the secret of Cloudinary. *)
Definition no_secret : CloudinaryVariables :=
  {| CLOUDINARY_CLOUD_NAME := Some "artifex"; CLOUDINARY_API_KEY := Some "key";
     CLOUDINARY_API_SECRET := None |}.

(** The image of a video request has been checked: an inline image was
    split at its single comma and uploaded with success, a remote one was
    fetched with success and is served as an image. *)
Definition checked_source (env : Env) (imageUrl : string) (w : World) : Prop :=
  (String.prefix "data:image" imageUrl = true /\
   (exists payload, after_single_comma imageUrl = Some payload /\ payload <> "") /\
   exists r, upload_answer env (uploads w) = Ret r /\
             cu_success r = true /\ truthy (cu_secureUrl r) = true) \/
  (String.prefix "data:image" imageUrl = false /\
   exists status statusText contentType,
     probe_answer env imageUrl = ProbeAnswer true status statusText contentType /\
     String.prefix "image/" (or_lit contentType "") = true).

(** * Properties *)

(** ** What a computation leaves unchanged *)

Section Keeps.
Variable R : World -> World -> Prop.
Hypothesis R_refl : forall w, R w w.
Hypothesis R_trans : forall a b c, R a b -> R b c -> R a c.

Lemma keeps_ret {A} (a : A) : keeps R (ret a).
Proof. intros w. apply R_refl. Qed.

Lemma keeps_throw {A} (e : Exn) : keeps R (@throw A e).
Proof. intros w. apply R_refl. Qed.

Lemma keeps_bind {A B} (m : M A) (k : A -> M B) :
  keeps R m -> (forall a, keeps R (k a)) -> keeps R (bind m k).
Proof.
  intros Hm Hk w. unfold bind. specialize (Hm w).
  destruct (m w) as [[a | e] w1]; simpl in *; [| exact Hm].
  eapply R_trans; [exact Hm | apply Hk].
Qed.

Lemma keeps_try_catch {A} (m : M A) (h : Exn -> M A) :
  keeps R m -> (forall e, keeps R (h e)) -> keeps R (try_catch m h).
Proof.
  intros Hm Hh w. unfold try_catch. specialize (Hm w).
  destruct (m w) as [[a | e] w1]; simpl in *; [exact Hm |].
  eapply R_trans; [exact Hm | apply Hh].
Qed.

Lemma keeps_attempt {A} (m : M A) : keeps R m -> keeps R (attempt m).
Proof.
  intros Hm w. unfold attempt. specialize (Hm w).
  destruct (m w) as [o w1]; exact Hm.
Qed.

Lemma keeps_settle {A} (o : Outcome A) : keeps R (settle o).
Proof. destruct o; [apply keeps_ret | apply keeps_throw]. Qed.

Lemma keeps_fetched {A} (f : Fetched A) : keeps R (fetched f).
Proof. destruct f; first [apply keeps_ret | apply keeps_throw]. Qed.

End Keeps.

Lemma same_store_refl w : same_store w w.
Proof. repeat split. Qed.

Lemma same_store_trans a b c : same_store a b -> same_store b c -> same_store a c.
Proof. unfold same_store. intros (?&?&?&?) (?&?&?&?). repeat split; congruence. Qed.

Lemma same_calls_refl w : same_calls w w.
Proof. repeat split. Qed.

Lemma same_calls_trans a b c : same_calls a b -> same_calls b c -> same_calls a c.
Proof.
  unfold same_calls.
  intros (?&?&?&?&?&?&?&?&?) (?&?&?&?&?&?&?&?&?). repeat split; congruence.
Qed.

Create HintDb store discriminated.
Create HintDb calls discriminated.

#[local] Hint Resolve same_store_refl same_calls_refl : store calls.

(** *** The provider client leaves the store alone *)

Ltac keeps_combinators refl trans :=
  repeat lazymatch goal with
  | |- keeps _ (ret _) => apply (keeps_ret _ refl)
  | |- keeps _ (throw _) => apply (keeps_throw _ refl)
  | |- keeps _ (settle _) => apply (keeps_settle _ refl)
  | |- keeps _ (fetched _) => apply (keeps_fetched _ refl)
  | |- keeps _ (attempt _) => apply keeps_attempt
  | |- keeps _ (bind _ _) => apply (keeps_bind _ trans); [| intros ?]
  | |- keeps _ (try_catch _ _) => apply (keeps_try_catch _ trans); [| intros ?]
  | |- keeps _ (if ?c then _ else _) => destruct c
  | |- keeps _ (match ?x with _ => _ end) => destruct x
  | |- keeps _ (let _ := _ in _) => cbv zeta
  | _ => fail
  end.

Ltac store_frame := keeps_combinators same_store_refl same_store_trans; eauto with store.
Ltac calls_frame := keeps_combinators same_calls_refl same_calls_trans; eauto with calls.

Section ProviderFrame.
Variable env : Env.

Lemma sleep_store ms : keeps same_store (sleep ms).
Proof. intros w. repeat split. Qed.

Lemma date_now_store : keeps same_store date_now.
Proof. intros w. repeat split. Qed.

Lemma post_submit_store : keeps same_store (post_submit env).
Proof.
  intros w. unfold post_submit.
  destruct (submit_answer env (submits w)); repeat split.
Qed.

Lemma get_poll_store : keeps same_store (get_poll env).
Proof.
  intros w. unfold get_poll.
  destruct (poll_answer env (polls w)); repeat split.
Qed.

Lemma post_video_store : keeps same_store (post_video env).
Proof.
  intros w. unfold post_video.
  destruct (video_submit_answer env (video_submits w)); repeat split.
Qed.

Lemma get_video_poll_store : keeps same_store (get_video_poll env).
Proof.
  intros w. unfold get_video_poll.
  destruct (video_poll_answer env (video_polls w)); repeat split.
Qed.

Lemma download_store : keeps same_store (download env).
Proof.
  intros w. unfold download.
  destruct (download_ok env (downloads w)); repeat split.
Qed.

Lemma uploadImage_store : keeps same_store (uploadImage env).
Proof.
  intros w. unfold uploadImage.
  destruct (upload_answer env (uploads w)); repeat split.
Qed.

Hint Resolve sleep_store date_now_store post_submit_store get_poll_store
  post_video_store get_video_poll_store download_store uploadImage_store : store.

Lemma pollGenerationResult_loop_store n :
  keeps same_store (pollGenerationResult_loop env n).
Proof.
  induction n as [| n IH]; simpl; store_frame.
Qed.

Lemma pollVideoGenerationResult_loop_store taskId n :
  keeps same_store (pollVideoGenerationResult_loop env taskId n).
Proof.
  induction n as [| n IH]; simpl; store_frame.
Qed.

Hint Resolve pollGenerationResult_loop_store pollVideoGenerationResult_loop_store : store.

Lemma uploadToCloudinary_store url : keeps same_store (uploadToCloudinary env url).
Proof. unfold uploadToCloudinary. store_frame. Qed.

Hint Resolve uploadToCloudinary_store : store.

Lemma submitted_url_store body : keeps same_store (submitted_url env body).
Proof. unfold submitted_url, pollGenerationResult. store_frame. Qed.

Hint Resolve submitted_url_store : store.

Lemma textToImage_store request : keeps same_store (textToImage env request).
Proof. unfold textToImage. store_frame. Qed.

Lemma imageToImage_store request : keeps same_store (imageToImage env request).
Proof. unfold imageToImage. apply textToImage_store. Qed.

Lemma video_source_store url : keeps same_store (video_source env url).
Proof. unfold video_source. store_frame. Qed.

Hint Resolve video_source_store : store.

Lemma imageToVideo_store url : keeps same_store (imageToVideo env url).
Proof. unfold imageToVideo, pollVideoGenerationResult. store_frame. Qed.

Lemma withRetry_from_store {A} b (operation : M A) baseDelay n remaining :
  keeps same_store operation ->
  keeps same_store (withRetry_from b operation baseDelay n remaining).
Proof.
  intros Hop. revert n.
  induction remaining as [| remaining IH]; intros n; simpl; store_frame.
Qed.

Lemma processGeneratedImage_store image tier :
  keeps same_store (processGeneratedImage env image tier).
Proof. unfold processGeneratedImage. store_frame. Qed.

Hint Resolve processGeneratedImage_store : store.

Lemma processGeneratedImages_store images tier :
  keeps same_store (processGeneratedImages env images tier).
Proof. induction images as [| image rest IH]; simpl; store_frame. Qed.

Lemma check_input_image_store image name tier label :
  keeps same_store (check_input_image env image name tier label).
Proof. unfold check_input_image. store_frame. Qed.

Hint Resolve check_input_image_store : store.

Lemma check_input_images_store images index tier :
  keeps same_store (check_input_images env images index tier).
Proof.
  revert index. induction images as [| image rest IH]; intros index; simpl; store_frame.
Qed.
End ProviderFrame.

#[local] Hint Resolve textToImage_store imageToImage_store imageToVideo_store
  withRetry_from_store processGeneratedImages_store check_input_image_store
  check_input_images_store : store.

(** *** The store leaves the provider side alone *)

Section StoreFrame.
Variable env : Env.

Lemma db_op_calls {A} (act : M A) : keeps same_calls act -> keeps same_calls (db_op env act).
Proof.
  intros Hact w. unfold db_op.
  destruct (db_fault env (dbops w)); [repeat split |].
  eapply same_calls_trans; [| apply Hact]. repeat split.
Qed.

Lemma findByClerkId_calls clerkId : keeps same_calls (findByClerkId env clerkId).
Proof. apply db_op_calls. intros w. repeat split. Qed.

Lemma save_user_calls clerkId user : keeps same_calls (save_user env clerkId user).
Proof. apply db_op_calls. intros w. repeat split. Qed.

Lemma create_user_calls clerkId : keeps same_calls (create_user env clerkId).
Proof. apply db_op_calls. intros w. repeat split. Qed.

Lemma save_generation_calls g : keeps same_calls (save_generation env g).
Proof. apply db_op_calls. intros w. destruct (g_id g); repeat split. Qed.

Lemma note_calls g : keeps same_calls (note g).
Proof. intros w. repeat split. Qed.

Lemma date_now_calls : keeps same_calls date_now.
Proof. intros w. repeat split. Qed.

Hint Resolve findByClerkId_calls save_user_calls create_user_calls
  save_generation_calls note_calls date_now_calls : calls.

Lemma validateGenerationContext_calls context :
  keeps same_calls (validateGenerationContext env context).
Proof. unfold validateGenerationContext. calls_frame. Qed.

Lemma createGenerationRecord_calls context type :
  keeps same_calls (createGenerationRecord env context type).
Proof. unfold createGenerationRecord. calls_frame. Qed.

Lemma validateAndConsumeQuota_calls context g :
  keeps same_calls (validateAndConsumeQuota env context g).
Proof. unfold validateAndConsumeQuota. calls_frame. Qed.

Lemma updateGenerationRecord_calls g updates :
  keeps same_calls (updateGenerationRecord env g updates).
Proof. unfold updateGenerationRecord. calls_frame. Qed.

Hint Resolve updateGenerationRecord_calls : calls.

Lemma job_failed_calls g error : keeps same_calls (job_failed env g error).
Proof. unfold job_failed. calls_frame. Qed.

Lemma ensureUserExists_calls clerkId : keeps same_calls (ensureUserExists env clerkId).
Proof. unfold ensureUserExists. calls_frame. Qed.

Lemma saveGenerationHistory_calls userId type prompt result quality :
  keeps same_calls (saveGenerationHistory env userId type prompt result quality).
Proof. unfold saveGenerationHistory. calls_frame. Qed.
End StoreFrame.

#[local] Hint Resolve validateGenerationContext_calls createGenerationRecord_calls
  validateAndConsumeQuota_calls updateGenerationRecord_calls job_failed_calls
  ensureUserExists_calls saveGenerationHistory_calls : calls.

(** ** Computations that never throw *)

Section Returns.
Variable env : Env.

Lemma attempt_returns {A} (m : M A) : returns (attempt m).
Proof. intros w. unfold attempt. destruct (m w). eexists; reflexivity. Qed.

Lemma updateGenerationRecord_ret g updates w :
  fst (updateGenerationRecord env g updates w) = Ret (assign g updates).
Proof.
  unfold updateGenerationRecord, bind, note, attempt, ret.
  destruct (save_generation env (assign g updates) (with_journal (assign g updates) w));
    reflexivity.
Qed.

Lemma job_failed_ret g error w :
  fst (job_failed env g error w) = Ret (failure_of error).
Proof.
  unfold job_failed. destruct g as [g |]; [| reflexivity].
  unfold bind.
  pose proof (updateGenerationRecord_ret g
    {| up_status := Failed; up_inputImages := None; up_outputImages := None;
       up_errorMessage := Some (exn_message error) |} w) as H.
  destruct (updateGenerationRecord env g _ w) as [o w1]. simpl in H. subst o.
  reflexivity.
Qed.

Lemma validateAndConsumeQuota_returns context g :
  returns (validateAndConsumeQuota env context g).
Proof.
  intros w. unfold validateAndConsumeQuota.
  destruct (q_remaining (c_quotaInfo context) <? g_credits g); [eexists; reflexivity |].
  unfold bind, attempt, note, ret.
  destruct (findByClerkId env (c_userId context) w) as [[[u |] | e] w1];
    try (eexists; reflexivity).
  destruct (save_user env (c_userId context) _ w1) as [[[] | e] w2];
    try (eexists; reflexivity).
  destruct (save_generation env _ _) as [[? | e] w3]; eexists; reflexivity.
Qed.

Lemma processGeneratedImage_returns image tier :
  returns (processGeneratedImage env image tier).
Proof.
  intros w. unfold processGeneratedImage, try_catch.
  destruct (bind _ _ w) as [[p | e] w1]; eexists; reflexivity.
Qed.

Lemma processGeneratedImages_returns images tier w :
  exists ps, fst (processGeneratedImages env images tier w) = Ret ps /\
             length ps = length images.
Proof.
  revert w. induction images as [| image rest IH]; intros w; simpl.
  - exists []. split; reflexivity.
  - unfold bind.
    destruct (processGeneratedImage_returns image tier w) as [p Hp].
    destruct (processGeneratedImage env image tier w) as [o w1]. simpl in Hp. subst o.
    destruct (IH w1) as (ps & Hps & Hlen).
    destruct (processGeneratedImages env rest tier w1) as [o w2]. simpl in Hps. subst o.
    exists (p :: ps). split; [reflexivity | simpl; congruence].
Qed.

(** The image entry points hand every failure to [job_failed]. *)
Lemma run_job_returns context type checks generate inputImages :
  returns (run_job env context type checks generate inputImages).
Proof.
  intros w. unfold run_job. unfold bind at 1.
  destruct (attempt_returns (checks;; validateGenerationContext env context;;
              createGenerationRecord env context type) w) as [created Hc].
  destruct (attempt _ w) as [o w1]. simpl in Hc. subst o.
  destruct created as [g | error].
  - unfold bind at 1.
    destruct (validateAndConsumeQuota_returns context g w1) as [[q g'] Hq].
    destruct (validateAndConsumeQuota env context g w1) as [o w2]. simpl in Hq. subst o.
    cbv zeta. unfold try_catch.
    destruct (_ w2) as [[r | error] w3]; [eexists; reflexivity |].
    rewrite job_failed_ret. eexists; reflexivity.
  - rewrite job_failed_ret. eexists; reflexivity.
Qed.
End Returns.

(** ** The paths of a job *)

(** Evaluation of the combinators at a known outcome. *)
Lemma bind_ret_eq {A B} (m : M A) (k : A -> M B) w a w1 :
  m w = (Ret a, w1) -> bind m k w = k a w1.
Proof. intros H. unfold bind. rewrite H. reflexivity. Qed.

Lemma bind_throw_eq {A B} (m : M A) (k : A -> M B) w e w1 :
  m w = (Throw e, w1) -> bind m k w = (Throw e, w1).
Proof. intros H. unfold bind. rewrite H. reflexivity. Qed.

Lemma try_catch_ret_eq {A} (m : M A) (h : Exn -> M A) w a w1 :
  m w = (Ret a, w1) -> try_catch m h w = (Ret a, w1).
Proof. intros H. unfold try_catch. rewrite H. reflexivity. Qed.

Lemma try_catch_throw_eq {A} (m : M A) (h : Exn -> M A) w e w1 :
  m w = (Throw e, w1) -> try_catch m h w = h e w1.
Proof. intros H. unfold try_catch. rewrite H. reflexivity. Qed.

Lemma attempt_eq {A} (m : M A) w o w1 :
  m w = (o, w1) -> attempt m w = (Ret o, w1).
Proof. intros H. unfold attempt. rewrite H. reflexivity. Qed.

Section Paths.
Variable env : Env.

Lemma updateGenerationRecord_eq g updates w :
  updateGenerationRecord env g updates w =
    (Ret (assign g updates), snd (updateGenerationRecord env g updates w)).
Proof.
  pose proof (updateGenerationRecord_ret env g updates w) as H.
  destruct (updateGenerationRecord env g updates w) as [o w']. simpl in *. congruence.
Qed.

Lemma job_failed_some g error w :
  job_failed env (Some g) error w =
    (Ret (failure_of error), snd (updateGenerationRecord env g (failed_update error) w)).
Proof.
  unfold job_failed. fold (failed_update error).
  erewrite bind_ret_eq by apply updateGenerationRecord_eq. reflexivity.
Qed.

(** Every run of [run_job] follows one of the four paths. *)
Lemma run_job_path context type checks generate inputImages w :
  exists result w',
    run_job env context type checks generate inputImages w = (Ret result, w') /\
    job_path env context type checks generate inputImages w result w'.
Proof.
  unfold run_job. fold (opening env context type checks).
  destruct (opening env context type checks w) as [[g | error] w1] eqn:Hopen.
  2:{ erewrite bind_ret_eq by (apply attempt_eq; exact Hopen).
      eexists _, _. split; [reflexivity |]. apply path_rejected. exact Hopen. }
  erewrite bind_ret_eq by (apply attempt_eq; exact Hopen).
  destruct (validateAndConsumeQuota_returns env context g w1) as [[q g'] Hq].
  destruct (validateAndConsumeQuota env context g w1) as [o w2] eqn:Hquota.
  simpl in Hq. subst o.
  erewrite bind_ret_eq by exact Hquota.
  cbv zeta. unfold fst, snd.
  destruct (qr_success q) eqn:Hs; cbn [negb].
  - destruct (executeWithRetry env generate w2) as [[response | error] w3] eqn:Hgen.
    + destruct (processGeneratedImages_returns env (resp_images response)
                  (c_subscriptionTier context) w3) as (ps & Hps & Hlen).
      destruct (processGeneratedImages env (resp_images response)
                  (c_subscriptionTier context) w3) as [o w4] eqn:Hproc.
      simpl in Hps. subst o.
      erewrite try_catch_ret_eq.
      2:{ erewrite bind_ret_eq by exact Hgen.
          erewrite bind_ret_eq by exact Hproc.
          fold (completed_update inputImages ps).
          erewrite bind_ret_eq by apply updateGenerationRecord_eq.
          reflexivity. }
      eexists _, _. split; [reflexivity |].
      eapply path_completed; eauto.
    + erewrite try_catch_throw_eq by (erewrite bind_throw_eq by exact Hgen; reflexivity).
      rewrite job_failed_some.
      eexists _, _. split; [reflexivity |].
      eapply path_provider_failed; eauto.
  - erewrite try_catch_throw_eq by reflexivity.
    rewrite job_failed_some.
    eexists _, _. split; [reflexivity |].
    eapply path_no_quota; eauto.
Qed.
End Paths.

(** ** Users, journal and number of documents *)

Lemma users_kept_refl w : users_kept w w.
Proof. reflexivity. Qed.
Lemma users_kept_trans a b c : users_kept a b -> users_kept b c -> users_kept a c.
Proof. unfold users_kept. congruence. Qed.
Lemma journal_kept_trans a b c : journal_kept a b -> journal_kept b c -> journal_kept a c.
Proof. unfold journal_kept. congruence. Qed.
Lemma size_kept_refl w : size_kept w w.
Proof. reflexivity. Qed.
Lemma size_kept_trans a b c : size_kept a b -> size_kept b c -> size_kept a c.
Proof. unfold size_kept. congruence. Qed.

Lemma keeps_weaken {A} (R R' : World -> World -> Prop) (m : M A) :
  (forall w w', R w w' -> R' w w') -> keeps R m -> keeps R' m.
Proof. intros Hsub Hm w. apply Hsub, Hm. Qed.

Lemma same_store_users {A} (m : M A) : keeps same_store m -> keeps users_kept m.
Proof. apply keeps_weaken. intros w w' (?&?&?&?). assumption. Qed.

Lemma same_store_size {A} (m : M A) : keeps same_store m -> keeps size_kept m.
Proof. apply keeps_weaken. intros w w' (?&Hg&?&?). unfold size_kept. rewrite Hg. reflexivity. Qed.

Create HintDb users discriminated.
Create HintDb size discriminated.

Ltac users_frame := keeps_combinators users_kept_refl users_kept_trans; eauto with users.
Ltac size_frame := keeps_combinators size_kept_refl size_kept_trans; eauto with size.

Section StoreFields.
Variable env : Env.

Lemma db_op_keeps {A} (R : World -> World -> Prop) (act : M A) :
  (forall a b c, R a b -> R b c -> R a c) ->
  (forall w, R w (tick_dbops w)) -> keeps R act -> keeps R (db_op env act).
Proof.
  intros Htrans Htick Hact w. unfold db_op.
  destruct (db_fault env (dbops w)); [apply Htick |].
  eapply Htrans; [apply Htick | apply Hact].
Qed.

Lemma findByClerkId_users clerkId : keeps users_kept (findByClerkId env clerkId).
Proof.
  apply db_op_keeps; [apply users_kept_trans | reflexivity | intros w; reflexivity].
Qed.

Lemma findByClerkId_size clerkId : keeps size_kept (findByClerkId env clerkId).
Proof.
  apply db_op_keeps; [apply size_kept_trans | reflexivity | intros w; reflexivity].
Qed.

Lemma save_user_size clerkId user : keeps size_kept (save_user env clerkId user).
Proof.
  apply db_op_keeps; [apply size_kept_trans | reflexivity | intros w; reflexivity].
Qed.

Lemma create_user_size clerkId : keeps size_kept (create_user env clerkId).
Proof.
  apply db_op_keeps; [apply size_kept_trans | reflexivity | intros w; reflexivity].
Qed.

Lemma save_generation_users g : keeps users_kept (save_generation env g).
Proof.
  apply db_op_keeps; [apply users_kept_trans | reflexivity |].
  intros w. destruct (g_id g); reflexivity.
Qed.

Lemma save_generation_journal g : keeps journal_kept (save_generation env g).
Proof.
  apply db_op_keeps; [apply journal_kept_trans | reflexivity |].
  intros w. destruct (g_id g); reflexivity.
Qed.

(** Saving a document that is already in the collection writes in place. *)
Lemma save_generation_size g i :
  g_id g = Some i -> keeps size_kept (save_generation env g).
Proof.
  intros Hid.
  apply db_op_keeps; [apply size_kept_trans | reflexivity |].
  intros w. rewrite Hid. unfold size_kept. simpl. apply length_insert.
Qed.

Lemma note_users g : keeps users_kept (note g).
Proof. intros w. reflexivity. Qed.

Lemma note_size g : keeps size_kept (note g).
Proof. intros w. reflexivity. Qed.

Lemma date_now_users : keeps users_kept date_now.
Proof. intros w. reflexivity. Qed.

Lemma date_now_size : keeps size_kept date_now.
Proof. intros w. reflexivity. Qed.

Hint Resolve findByClerkId_users save_generation_users note_users date_now_users : users.
Hint Resolve findByClerkId_size save_user_size create_user_size note_size
  date_now_size : size.

Lemma validateGenerationContext_users context :
  keeps users_kept (validateGenerationContext env context).
Proof. unfold validateGenerationContext. users_frame. Qed.

Lemma validateGenerationContext_size context :
  keeps size_kept (validateGenerationContext env context).
Proof. unfold validateGenerationContext. size_frame. Qed.

Lemma createGenerationRecord_users context type :
  keeps users_kept (createGenerationRecord env context type).
Proof. unfold createGenerationRecord. users_frame. Qed.

Lemma updateGenerationRecord_users g updates :
  keeps users_kept (updateGenerationRecord env g updates).
Proof. unfold updateGenerationRecord. users_frame. Qed.

Lemma updateGenerationRecord_size g updates i :
  g_id g = Some i -> keeps size_kept (updateGenerationRecord env g updates).
Proof.
  intros Hid. unfold updateGenerationRecord. size_frame.
  apply (save_generation_size _ i). exact Hid.
Qed.

Lemma updateGenerationRecord_journal g updates w :
  journal (snd (updateGenerationRecord env g updates w)) =
    (journal w ++ [assign g updates])%list.
Proof.
  unfold updateGenerationRecord.
  erewrite bind_ret_eq by reflexivity.
  pose proof (save_generation_journal (assign g updates)
                (with_journal (assign g updates) w)) as H.
  unfold bind, attempt.
  destruct (save_generation env _ _) as [o w1]. exact H.
Qed.

Lemma saveGenerationHistory_users userId type prompt result quality :
  keeps users_kept (saveGenerationHistory env userId type prompt result quality).
Proof. unfold saveGenerationHistory. users_frame. Qed.
End StoreFields.

#[local] Hint Resolve findByClerkId_users save_generation_users note_users
  date_now_users validateGenerationContext_users createGenerationRecord_users
  updateGenerationRecord_users saveGenerationHistory_users : users.
#[local] Hint Resolve findByClerkId_size save_user_size create_user_size note_size
  date_now_size validateGenerationContext_size : size.

(** ** The four image entry points *)

Section Calls.
Variable env : Env.

Lemma call_run_job c :
  call env c =
    run_job env (call_context c) (call_type c) (call_checks env c)
      (call_generate env c) (call_inputs c).
Proof. destruct c; reflexivity. Qed.

(** Every entry point ends up in [textToImage] of the provider client. *)
Lemma call_generate_textToImage c :
  exists request, call_generate env c = textToImage env request.
Proof. destruct c; simpl; unfold imageToImage; eexists; reflexivity. Qed.

Lemma call_checks_store c : keeps same_store (call_checks env c).
Proof. destruct c; simpl; store_frame. Qed.

Lemma check_input_image_calls image name tier label :
  keeps same_calls (check_input_image env image name tier label).
Proof. unfold check_input_image. calls_frame. Qed.

Hint Resolve check_input_image_calls : calls.

Lemma check_input_images_calls images index tier :
  keeps same_calls (check_input_images env images index tier).
Proof.
  revert index. induction images as [| image rest IH]; intros index; simpl; calls_frame.
Qed.

Lemma call_checks_calls c : keeps same_calls (call_checks env c).
Proof.
  destruct c; simpl; calls_frame. apply check_input_images_calls.
Qed.

Lemma call_generate_store c : keeps same_store (call_generate env c).
Proof. destruct c; simpl; eauto with store. Qed.

(** The provider client answers with exactly one image. *)
Lemma textToImage_single request w response w' :
  textToImage env request w = (Ret response, w') ->
  exists image, resp_images response = [image].
Proof.
  unfold textToImage, try_catch.
  destruct (bind (post_submit env) _ w) as [[r | e] w1] eqn:Hbody;
    [| unfold throw; discriminate].
  intros H. injection H as <- <-.
  unfold bind in Hbody.
  destruct (post_submit env w) as [[[[status text] | body] | e] w0];
    [unfold throw in Hbody; discriminate | | discriminate].
  destruct (submitted_url env body w0) as [[u | e] w2]; [| discriminate].
  destruct (uploadToCloudinary env u w2) as [[asset | e] w3]; [| discriminate].
  unfold ret in Hbody. injection Hbody as <- _. eexists; reflexivity.
Qed.

Lemma call_generate_single c w response w' :
  call_generate env c w = (Ret response, w') ->
  exists image, resp_images response = [image].
Proof. destruct c; simpl; unfold imageToImage; apply textToImage_single. Qed.

(** What the retry handler returns is what an attempt returned. *)
Lemma withRetry_from_ret {A} b (operation : M A) baseDelay n remaining w a w' :
  withRetry_from b operation baseDelay n remaining w = (Ret a, w') ->
  exists w1, operation w1 = (Ret a, w').
Proof.
  revert n w. induction remaining as [| remaining IH]; intros n w; simpl.
  - unfold throw. discriminate.
  - unfold bind at 1, attempt.
    destruct (operation w) as [[a0 | e] w1] eqn:Hop.
    + unfold ret. intros H. injection H as <- <-. eauto.
    + destruct (transient e); [| unfold throw; discriminate].
      destruct remaining as [| remaining']; [unfold throw; discriminate |].
      unfold bind at 1. unfold sleep at 1. apply IH.
Qed.

Lemma executeWithRetry_single c w response w' :
  executeWithRetry env (call_generate env c) w = (Ret response, w') ->
  exists image, resp_images response = [image].
Proof.
  unfold executeWithRetry, withRetry. intros H.
  apply withRetry_from_ret in H as [w1 H].
  eapply call_generate_single. exact H.
Qed.

Lemma executeWithRetry_store {A} (operation : M A) :
  keeps same_store operation -> keeps same_store (executeWithRetry env operation).
Proof. intros H. unfold executeWithRetry, withRetry. apply withRetry_from_store, H. Qed.
End Calls.

(** ** C2: what the entry points hand back *)

Section Rejected.
Variable env : Env.

Lemma createGenerationRecord_throws_size context type w e w1 :
  createGenerationRecord env context type w = (Throw e, w1) -> size_kept w w1.
Proof.
  unfold createGenerationRecord. erewrite bind_ret_eq by reflexivity.
  unfold save_generation, db_op. simpl.
  destruct (db_fault env (dbops w)); [| discriminate].
  intros H. injection H as _ <-. reflexivity.
Qed.

(** When the opening steps throw, no document has been added. *)
Lemma opening_throws_size context type checks w e w1 :
  keeps same_store checks ->
  opening env context type checks w = (Throw e, w1) -> size_kept w w1.
Proof.
  intros Hchecks. unfold opening, bind.
  pose proof (same_store_size _ Hchecks w) as H0.
  destruct (checks w) as [[[] | e0] w0]; simpl in H0.
  2:{ intros H. injection H as _ <-. exact H0. }
  pose proof (validateGenerationContext_size env context w0) as H1.
  destruct (validateGenerationContext env context w0) as [[[] | e1] w2]; simpl in H1.
  2:{ intros H. injection H as _ <-. eapply size_kept_trans; eassumption. }
  intros H. apply createGenerationRecord_throws_size in H.
  eapply size_kept_trans; [| exact H]. eapply size_kept_trans; eassumption.
Qed.

Lemma failed_update_last g error w :
  exists g', last (journal (snd (updateGenerationRecord env g (failed_update error) w)))
               = Some g' /\
             g_status g' = Failed /\ g_errorMessage g' = Some (exn_message error).
Proof.
  rewrite updateGenerationRecord_journal, last_snoc.
  eexists; split; [reflexivity |]. split; reflexivity.
Qed.
End Rejected.

(** C2, counterexample: with a provider that answers 503 to the video
    submission, [generateVideo] does not return a result: it throws an
    [AppError] to its caller. *)
Lemma generateVideo_throws :
  fst (generateVideo
         {| db_fault := no_fault; submit_answer := immediate;
            poll_answer := poll_answer (sample_env no_fault immediate stored);
            video_submit_answer := fun _ => HttpError 503 "Service Unavailable";
            video_poll_answer := video_poll_answer (sample_env no_fault immediate stored);
            download_ok := fun _ => Ret true; upload_answer := stored;
            thumbnail_answer := fun p => Ret p; local_file := fun _ => Ret false;
            probe_answer := fun _ => ProbeAnswer true 200 "OK" (Some "image/png");
            validateImage := fun _ _ _ => Ret {| v_valid := true; v_errors := "" |};
            calculateGenerationCost := fun _ _ => 1;
            axios_post := fun _ => Ret ("task-1", "CREATED");
            backoff := FixedDelay; apiKey := "key" |}
         "https://x/cat.png" start)
  = Throw (AppError "Freepik API error: Service Unavailable" (Some 503)
             (Lit "FREEPIK_VIDEO_API_ERROR")).
Proof. vm_compute. reflexivity. Qed.

(** C2, amended: the four image entry points always return a result,
    [Success] or [Failure], and never throw; a failure either added no
    document or left the document of the job marked [Failed] with the
    message of the failure.  [generateVideo] returns its result or throws an
    [AppError] to its caller. *)
Theorem entry_points_outcomes (env : Env) :
  (forall c w, exists result, fst (call env c w) = Ret result) /\
  (forall c w err,
     fst (call env c w) = Ret (Failure err) ->
     length (generations (snd (call env c w))) = length (generations w) \/
     exists g, last (journal (snd (call env c w))) = Some g /\
               g_status g = Failed /\ g_errorMessage g = Some (e_message err)) /\
  (forall imageUrl w,
     (exists v, fst (generateVideo env imageUrl w) = Ret v) \/
     (exists m s code, fst (generateVideo env imageUrl w) = Throw (AppError m s code))).
Proof.
  split; [| split].
  - intros c w. rewrite call_run_job. apply run_job_returns.
  - intros c w err. rewrite call_run_job.
    destruct (run_job_path env (call_context c) (call_type c) (call_checks env c)
                (call_generate env c) (call_inputs c) w) as (result & w' & Hrun & Hpath).
    rewrite Hrun. simpl. intros Hres. injection Hres as ->.
    inversion Hpath as
      [error w1 Hopen Hr
      | g w1 q g' w2 w3 Hopen Hq Hs Hw Hr
      | g w1 q g' w2 error w3 w4 Hopen Hq Hs Hgen Hw Hr
      | g w1 q g' w2 response w3 ps w4 w5 Hopen Hq Hs Hgen Hproc Hlen Hw Hr ].
    + left. eapply opening_throws_size; [apply call_checks_store | exact Hopen].
    + right.
      destruct (failed_update_last env g'
                  (QuotaExceededError (or_lit (qr_message q) "Quota exceeded")) w2)
        as (g0 & Hlast & Hst & Hmsg).
      exists g0. rewrite <- Hw in Hlast. cbn [e_message]. auto.
    + right.
      destruct (failed_update_last env g' error w3) as (g0 & Hlast & Hst & Hmsg).
      exists g0. rewrite <- Hw in Hlast. rewrite Hmsg.
      destruct error; cbn [e_message exn_message]; auto.
  - intros imageUrl w. unfold generateVideo, try_catch.
    destruct (_ w) as [[v | [m s code | m code]] w1].
    + left. eexists; reflexivity.
    + right. eexists _, _, _; reflexivity.
    + right. eexists _, _, _; reflexivity.
Qed.

(** C2, witness: the failure of a job without quota is recorded. *)
Lemma entry_points_outcomes_witness :
  exists err,
    fst (call (sample_env no_fault immediate stored)
           (CallTextToImage (alice_context 0)) start) = Ret (Failure err) /\
    (length (generations (snd (call (sample_env no_fault immediate stored)
                                 (CallTextToImage (alice_context 0)) start)))
       = length (generations start) \/
     exists g, last (journal (snd (call (sample_env no_fault immediate stored)
                                     (CallTextToImage (alice_context 0)) start)))
                 = Some g /\
               g_status g = Failed /\ g_errorMessage g = Some (e_message err)).
Proof.
  eexists. split; [vm_compute; reflexivity |].
  apply (proj1 (proj2 (entry_points_outcomes (sample_env no_fault immediate stored)))).
  vm_compute. reflexivity.
Defined.

(** ** The document of a job *)

Lemma bind_ret_inv {A B} (m : M A) (k : A -> M B) w b w' :
  bind m k w = (Ret b, w') ->
  exists a w1, m w = (Ret a, w1) /\ k a w1 = (Ret b, w').
Proof.
  unfold bind. destruct (m w) as [[a | e] w1]; [eauto | discriminate].
Qed.

Section Document.
Variable env : Env.

Lemma createGenerationRecord_ret context type w g w1 :
  createGenerationRecord env context type w = (Ret g, w1) ->
  fresh g /\ g_credits g = cost_of env context type /\
  g_id g = Some (length (generations w)) /\
  length (generations w1) = S (length (generations w)).
Proof.
  unfold createGenerationRecord. erewrite bind_ret_eq by reflexivity.
  unfold save_generation, db_op. simpl.
  destruct (db_fault env (dbops w)); [discriminate |].
  intros H. injection H as <- <-. simpl.
  repeat split; auto. rewrite length_app. simpl. lia.
Qed.

Lemma opening_ret context type checks w g w1 :
  keeps same_store checks ->
  opening env context type checks w = (Ret g, w1) ->
  fresh g /\ g_credits g = cost_of env context type /\
  (exists i, g_id g = Some i) /\
  length (generations w1) = S (length (generations w)).
Proof.
  intros Hchecks Hopen. unfold opening in Hopen.
  apply bind_ret_inv in Hopen as ([] & w0 & H0 & Hopen).
  apply bind_ret_inv in Hopen as ([] & w2 & H2 & Hopen).
  apply createGenerationRecord_ret in Hopen as (Hf & Hc & Hid & Hlen).
  pose proof (same_store_size _ Hchecks w) as S0. rewrite H0 in S0.
  pose proof (validateGenerationContext_size env context w0) as S2. rewrite H2 in S2.
  unfold size_kept in *. simpl in *.
  repeat split; try apply Hf; eauto. congruence.
Qed.

Lemma opening_calls context type checks :
  keeps same_calls checks -> keeps same_calls (opening env context type checks).
Proof. intros H. unfold opening. calls_frame. Qed.

Lemma opening_users context type checks :
  keeps same_store checks -> keeps users_kept (opening env context type checks).
Proof.
  intros H. apply same_store_users in H. unfold opening. users_frame.
Qed.

(** Without balance for the credits of the document, the quota step
    returns at once and touches nothing. *)
Lemma validateAndConsumeQuota_short context g w :
  q_remaining (c_quotaInfo context) < g_credits g ->
  exists q, validateAndConsumeQuota env context g w = (Ret (q, g), w) /\
            qr_success q = false.
Proof.
  intros H. unfold validateAndConsumeQuota.
  apply Z.ltb_lt in H. rewrite H. eexists. split; reflexivity.
Qed.
End Document.

(** C3: a request whose remaining balance is below the cost of its job
    fails without any call to the provider and without any change of the
    usage counters; once the request has passed validation and its document
    has been created, the failure is a [QuotaExceededError] and the document
    is marked [Failed]. *)
Theorem insufficient_quota_fails (env : Env) (c : ImageCall) (w : World) :
  q_remaining (c_quotaInfo (call_context c)) < call_cost env c ->
  (exists err,
     fst (call env c w) = Ret (Failure err) /\
     forall g w1,
       opening env (call_context c) (call_type c) (call_checks env c) w = (Ret g, w1) ->
       e_code err = OfQuotaExceededError /\
       exists g', last (journal (snd (call env c w))) = Some g' /\ g_status g' = Failed) /\
  same_calls w (snd (call env c w)) /\
  users (snd (call env c w)) = users w.
Proof.
  intros Hlow. rewrite call_run_job.
  destruct (run_job_path env (call_context c) (call_type c) (call_checks env c)
              (call_generate env c) (call_inputs c) w) as (result & w' & Hrun & Hpath).
  rewrite Hrun. simpl.
  pose proof (call_checks_store env c) as Hstore.
  pose proof (call_checks_calls env c) as Hcalls.
  assert (Hshort : forall g w1 q g' w2,
             opening env (call_context c) (call_type c) (call_checks env c) w = (Ret g, w1) ->
             validateAndConsumeQuota env (call_context c) g w1 = (Ret (q, g'), w2) ->
             qr_success q = false /\ g' = g /\ w2 = w1).
  { intros g w1 q g' w2 Hopen Hq.
    apply opening_ret in Hopen as (_ & Hc & _); [| exact Hstore].
    destruct (validateAndConsumeQuota_short env (call_context c) g w1) as (q0 & Hq0 & Hs0).
    { rewrite Hc. exact Hlow. }
    rewrite Hq0 in Hq. injection Hq as <- <- <-. auto. }
  inversion Hpath as
    [error w1 Hopen Hr
    | g w1 q g' w2 w3 Hopen Hq Hs Hw Hr
    | g w1 q g' w2 error w3 w4 Hopen Hq Hs Hgen Hw Hr
    | g w1 q g' w2 response w3 ps w4 w5 Hopen Hq Hs Hgen Hproc Hlen Hw Hr ]; subst.
  - split; [| split].
    + unfold failure_of. eexists. split; [reflexivity |].
      intros g w2 Hopen'. rewrite Hopen in Hopen'. discriminate.
    + pose proof (opening_calls env (call_context c) (call_type c) _ Hcalls w) as H.
      rewrite Hopen in H. exact H.
    + pose proof (opening_users env (call_context c) (call_type c) _ Hstore w) as H.
      rewrite Hopen in H. exact H.
  - destruct (Hshort _ _ _ _ _ Hopen Hq) as (_ & -> & ->).
    split; [| split].
    + eexists. split; [reflexivity |].
      intros g0 w2 Hopen'. split; [reflexivity |].
      destruct (failed_update_last env g
                  (QuotaExceededError (or_lit (qr_message q) "Quota exceeded")) w1)
        as (g1 & Hlast & Hst & _).
      eauto.
    + pose proof (opening_calls env (call_context c) (call_type c) _ Hcalls w) as H.
      rewrite Hopen in H. eapply same_calls_trans; [exact H |].
      apply updateGenerationRecord_calls.
    + pose proof (opening_users env (call_context c) (call_type c) _ Hstore w) as H.
      rewrite Hopen in H. unfold users_kept in H. simpl in H. rewrite <- H.
      apply updateGenerationRecord_users.
  - destruct (Hshort _ _ _ _ _ Hopen Hq) as (Hfalse & _). congruence.
  - destruct (Hshort _ _ _ _ _ Hopen Hq) as (Hfalse & _). congruence.
Qed.

(** C3, witness: balance 0 and cost 1. *)
Lemma insufficient_quota_fails_witness :
  q_remaining (c_quotaInfo (alice_context 0))
    < call_cost (sample_env no_fault immediate stored) (CallTextToImage (alice_context 0)) /\
  exists err,
    fst (call (sample_env no_fault immediate stored)
           (CallTextToImage (alice_context 0)) start) = Ret (Failure err) /\
    e_code err = OfQuotaExceededError /\
    same_calls start (snd (call (sample_env no_fault immediate stored)
                             (CallTextToImage (alice_context 0)) start)) /\
    usage "alice" (snd (call (sample_env no_fault immediate stored)
                         (CallTextToImage (alice_context 0)) start)) = Some 0.
Proof.
  split; [vm_compute; reflexivity |].
  destruct (insufficient_quota_fails (sample_env no_fault immediate stored)
              (CallTextToImage (alice_context 0)) start)
    as ((err & Hres & Hinner) & Hcalls & Husers); [vm_compute; reflexivity |].
  exists err. split; [exact Hres |]. split; [| split; [exact Hcalls |]].
  - edestruct Hinner as (Hcode & _); [reflexivity | exact Hcode].
  - unfold usage. rewrite Husers. reflexivity.
Defined.

(** ** C1: the usage counter of a failed job *)

Section Usage.
Variable env : Env.

(** The quota step either leaves the users alone and fails, or has
    persisted the increment of the owner's counter by the credits of the
    document. *)
Lemma validateAndConsumeQuota_users context g w q g' w2 :
  validateAndConsumeQuota env context g w = (Ret (q, g'), w2) ->
  (users w2 = users w /\ qr_success q = false) \/
  (exists u, users w !! c_userId context = Some u /\
             users w2 = <[c_userId context := charged u (g_credits g)]> (users w)).
Proof.
  unfold validateAndConsumeQuota.
  destruct (q_remaining (c_quotaInfo context) <? g_credits g).
  { intros H. injection H as <- _ <-. left. split; reflexivity. }
  unfold bind, attempt, findByClerkId, save_user, save_generation, db_op, note, ret.
  destruct (db_fault env (dbops w)).
  { intros H. injection H as <- _ <-. left. split; reflexivity. }
  destruct (users (tick_dbops w) !! c_userId context) as [u |] eqn:Hu.
  2:{ intros H. injection H as <- _ <-. left. split; reflexivity. }
  destruct (db_fault env (dbops (tick_dbops w))).
  { intros H. injection H as <- _ <-. left. split; reflexivity. }
  simpl.
  destruct (db_fault env _).
  { intros H. injection H as _ _ <-. right. exists u. split; [exact Hu | reflexivity]. }
  destruct (g_id g); intros H; injection H as _ _ <-;
    right; exists u; (split; [exact Hu | reflexivity]).
Qed.
End Usage.

(** C1, counterexample: the provider rejects the submission, the job ends
    [Failed], no document is [Completed], and the usage counter of the owner
    has gone from 0 to 1. *)
Lemma failed_job_consumed_quota :
  exists err,
    fst (call (sample_env no_fault (fun _ => HttpError 400 "Bad Request") stored)
           (CallTextToImage (alice_context 10)) start) = Ret (Failure err) /\
    usage "alice" start = Some 0 /\
    usage "alice"
      (snd (call (sample_env no_fault (fun _ => HttpError 400 "Bad Request") stored)
              (CallTextToImage (alice_context 10)) start)) = Some 1 /\
    completed_credits
      (generations
         (snd (call (sample_env no_fault (fun _ => HttpError 400 "Bad Request") stored)
                 (CallTextToImage (alice_context 10)) start))) = 0.
Proof. eexists. vm_compute. repeat split; reflexivity. Qed.

(** C1, amended: nothing rolls the consumed quota back.  A job that ends
    [Failed] either failed before the quota step persisted the increment,
    and then the usage counters are unchanged and no call was made to the
    provider, or it leaves the owner's counter at its value before the job
    plus the credits of the job. *)
Theorem failed_job_usage (env : Env) (c : ImageCall) (w : World) (err : ResultError) :
  fst (call env c w) = Ret (Failure err) ->
  (users (snd (call env c w)) = users w /\ same_calls w (snd (call env c w))) \/
  (exists u,
     users w !! c_userId (call_context c) = Some u /\
     users (snd (call env c w))
       = <[c_userId (call_context c) := charged u (call_cost env c)]> (users w)).
Proof.
  rewrite call_run_job.
  destruct (run_job_path env (call_context c) (call_type c) (call_checks env c)
              (call_generate env c) (call_inputs c) w) as (result & w' & Hrun & Hpath).
  rewrite Hrun. simpl. intros Hres. injection Hres as ->.
  pose proof (call_checks_store env c) as Hstore.
  pose proof (call_checks_calls env c) as Hcalls.
  pose proof (opening_calls env (call_context c) (call_type c) _ Hcalls w) as Hoc.
  pose proof (opening_users env (call_context c) (call_type c) _ Hstore w) as Hou.
  inversion Hpath as
    [error w1 Hopen Hr
    | g w1 q g' w2 w3 Hopen Hq Hs Hw Hr
    | g w1 q g' w2 error w3 w4 Hopen Hq Hs Hgen Hw Hr
    | g w1 q g' w2 response w3 ps w4 w5 Hopen Hq Hs Hgen Hproc Hlen Hw Hr ]; subst.
  - rewrite Hopen in Hoc, Hou. left. split; assumption.
  - rewrite Hopen in Hoc, Hou. unfold users_kept in Hou. simpl in Hoc, Hou.
    pose proof (updateGenerationRecord_users env g'
                  (failed_update (QuotaExceededError (or_lit (qr_message q) "Quota exceeded")))
                  w2) as Hu3.
    pose proof (updateGenerationRecord_calls env g'
                  (failed_update (QuotaExceededError (or_lit (qr_message q) "Quota exceeded")))
                  w2) as Hc3.
    pose proof (validateAndConsumeQuota_calls env (call_context c) g w1) as Hc2.
    rewrite Hq in Hc2. simpl in Hc2. unfold users_kept in Hu3.
    apply opening_ret in Hopen as (_ & Hcost & _); [| exact Hstore].
    destruct (validateAndConsumeQuota_users env _ _ _ _ _ _ Hq)
      as [(Hu2 & _) | (u & Hfind & Hu2)].
    + left. split; [congruence |].
      eapply same_calls_trans; [exact Hoc |].
      eapply same_calls_trans; [exact Hc2 | exact Hc3].
    + right. exists u. rewrite Hou in Hfind. split; [exact Hfind |].
      rewrite Hu3, Hu2, Hou, Hcost. reflexivity.
  - rewrite Hopen in Hou. unfold users_kept in Hou. simpl in Hou.
    pose proof (updateGenerationRecord_users env g' (failed_update error) w3) as Hu4.
    pose proof (executeWithRetry_store env _ (call_generate_store env c) w2) as Hs3.
    rewrite Hgen in Hs3. destruct Hs3 as (Hu3 & _). simpl in Hu3.
    unfold users_kept in Hu4.
    apply opening_ret in Hopen as (_ & Hcost & _); [| exact Hstore].
    destruct (validateAndConsumeQuota_users env _ _ _ _ _ _ Hq)
      as [(_ & Hfalse) | (u & Hfind & Hu2)]; [congruence |].
    right. exists u. rewrite Hou in Hfind. split; [exact Hfind |].
    rewrite Hu4, Hu3, Hu2, Hou, Hcost. reflexivity.
Qed.

(** C1, witness: the job rejected by the provider keeps its credit. *)
Lemma failed_job_usage_witness :
  (users (snd (call (sample_env no_fault (fun _ => HttpError 400 "Bad Request") stored)
                 (CallTextToImage (alice_context 10)) start)) = users start /\
   same_calls start
     (snd (call (sample_env no_fault (fun _ => HttpError 400 "Bad Request") stored)
             (CallTextToImage (alice_context 10)) start))) \/
  (exists u,
     users start !! "alice" = Some u /\
     users (snd (call (sample_env no_fault (fun _ => HttpError 400 "Bad Request") stored)
                   (CallTextToImage (alice_context 10)) start))
       = <["alice" := charged u 1]> (users start)).
Proof.
  eapply (failed_job_usage
            (sample_env no_fault (fun _ => HttpError 400 "Bad Request") stored)
            (CallTextToImage (alice_context 10)) start).
  vm_compute. reflexivity.
Defined.

(** ** C4: the poll loops *)

Lemma video_kept_refl w : video_kept w w.
Proof. repeat split. Qed.

Lemma video_kept_trans a b c : video_kept a b -> video_kept b c -> video_kept a c.
Proof. unfold video_kept. intros (?&?&?) (?&?&?). repeat split; congruence. Qed.

Section Polling.
Variable env : Env.



Lemma uploadImage_video : keeps video_kept (uploadImage env).
Proof.
  intros w. unfold uploadImage.
  destruct (upload_answer env (uploads w)); repeat split.
Qed.

Lemma video_source_video imageUrl : keeps video_kept (video_source env imageUrl).
Proof.
  unfold video_source.
  keeps_combinators video_kept_refl video_kept_trans; apply uploadImage_video.
Qed.


End Polling.




(** ** C5: the retry bound *)

Section Retry.
Variable env : Env.

Lemma textToImage_unavailable request w :
  submit_always_transient env ->
  exists e, textToImage env request w = (Throw e, tick_submits w) /\
            transient e = true /\ exists m s c, e = AppError m s c.
Proof.
  intros Hsubmit. destruct (Hsubmit (submits w)) as (status & text & Hanswer & Ht).
  eexists. split; [| split].
  - unfold textToImage.
    erewrite try_catch_throw_eq.
    2:{ erewrite bind_ret_eq by (unfold post_submit; rewrite Hanswer; reflexivity).
        reflexivity. }
    reflexivity.
  - exact Ht.
  - eexists _, _, _. reflexivity.
Qed.

(** Three attempts, two waits, then the failure with reason
    [ProviderUnavailable]. *)
Lemma executeWithRetry_exhausted request w :
  submit_always_transient env ->
  exists m s,
    executeWithRetry env (textToImage env request) w
      = (Throw (AppError m s ProviderUnavailable),
         tick_submits
           (with_sleep (retry_delay (backoff env) 1000 2)
              (tick_submits
                 (with_sleep (retry_delay (backoff env) 1000 1) (tick_submits w))))).
Proof.
  intros Hsubmit.
  unfold executeWithRetry, withRetry.
  destruct (textToImage_unavailable request w Hsubmit) as (e1 & H1 & T1 & _).
  cbn [withRetry_from].
  erewrite bind_ret_eq by (apply attempt_eq; exact H1).
  cbv beta iota. rewrite T1.
  erewrite bind_ret_eq by reflexivity.
  set (w1 := with_sleep _ (tick_submits w)).
  destruct (textToImage_unavailable request w1 Hsubmit) as (e2 & H2 & T2 & _).
  erewrite bind_ret_eq by (apply attempt_eq; exact H2).
  cbv beta iota. rewrite T2.
  erewrite bind_ret_eq by reflexivity.
  set (w2 := with_sleep _ (tick_submits w1)).
  destruct (textToImage_unavailable request w2 Hsubmit) as (e3 & H3 & T3 & m & s & c & ->).
  erewrite bind_ret_eq by (apply attempt_eq; exact H3).
  cbv beta iota. rewrite T3.
  eexists _, _. reflexivity.
Qed.
End Retry.

(** C5: when every submission fails with a transient error, a job that
    reaches the provider submits exactly three times, waits twice in between,
    first for the base delay of 1000 ms, and ends [Failed] with reason
    [ProviderUnavailable]. *)
Theorem retry_bound (env : Env) (c : ImageCall) (w : World) :
  submit_always_transient env ->
  submits (snd (call env c w)) <> submits w ->
  (exists err, fst (call env c w) = Ret (Failure err) /\ e_code err = ProviderUnavailable) /\
  submits (snd (call env c w)) = (submits w + 3)%nat /\
  sleeps (snd (call env c w))
    = (sleeps w ++ [1000; retry_delay (backoff env) 1000 2])%list /\
  (exists g, last (journal (snd (call env c w))) = Some g /\ g_status g = Failed).
Proof.
  intros Hsubmit. rewrite call_run_job.
  destruct (run_job_path env (call_context c) (call_type c) (call_checks env c)
              (call_generate env c) (call_inputs c) w) as (result & w' & Hrun & Hpath).
  rewrite Hrun. simpl.
  pose proof (call_checks_calls env c) as Hcalls.
  pose proof (opening_calls env (call_context c) (call_type c) _ Hcalls w) as Hoc.
  destruct (call_generate_textToImage env c) as (request & Hgenerate).
  inversion Hpath as
    [error w1 Hopen Hr
    | g w1 q g' w2 w3 Hopen Hq Hs Hw Hr
    | g w1 q g' w2 error w3 w4 Hopen Hq Hs Hgen Hw Hr
    | g w1 q g' w2 response w3 ps w4 w5 Hopen Hq Hs Hgen Hproc Hlen Hw Hr ]; subst.
  - rewrite Hopen in Hoc. destruct Hoc as (Hsame & _). intros Hne. contradiction.
  - rewrite Hopen in Hoc. simpl in Hoc.
    pose proof (validateAndConsumeQuota_calls env (call_context c) g w1) as Hc2.
    rewrite Hq in Hc2. simpl in Hc2.
    pose proof (updateGenerationRecord_calls env g'
                  (failed_update (QuotaExceededError (or_lit (qr_message q) "Quota exceeded")))
                  w2) as Hc3.
    destruct (same_calls_trans _ _ _ Hoc (same_calls_trans _ _ _ Hc2 Hc3)) as (Hsame & _).
    intros Hne. contradiction.
  - intros _. rewrite Hopen in Hoc. simpl in Hoc.
    pose proof (validateAndConsumeQuota_calls env (call_context c) g w1) as Hc2.
    rewrite Hq in Hc2. simpl in Hc2.
    destruct (same_calls_trans _ _ _ Hoc Hc2) as (Hsub & _ & _ & _ & _ & _ & _ & Hsl & _).
    rewrite Hgenerate in Hgen.
    destruct (executeWithRetry_exhausted env request w2 Hsubmit) as (m & s & Hex).
    rewrite Hex in Hgen. injection Hgen as <- <-.
    pose proof (updateGenerationRecord_calls env g'
                  (failed_update (AppError m s ProviderUnavailable))
                  (tick_submits
                     (with_sleep (retry_delay (backoff env) 1000 2)
                        (tick_submits
                           (with_sleep (retry_delay (backoff env) 1000 1)
                              (tick_submits w2)))))) as Hc4.
    destruct Hc4 as (Hsub4 & _ & _ & _ & _ & _ & _ & Hsl4 & _).
    split; [| split; [| split]].
    + eexists. split; reflexivity.
    + rewrite Hsub4. simpl. rewrite Hsub. lia.
    + rewrite Hsl4. simpl. rewrite Hsl, <- !app_assoc. simpl.
      destruct (backoff env); reflexivity.
    + destruct (failed_update_last env g' (AppError m s ProviderUnavailable)
                  (tick_submits
                     (with_sleep (retry_delay (backoff env) 1000 2)
                        (tick_submits
                           (with_sleep (retry_delay (backoff env) 1000 1)
                              (tick_submits w2)))))) as (g0 & Hlast & Hst & _).
      eauto.
  - rewrite Hgenerate in Hgen.
    destruct (executeWithRetry_exhausted env request w2 Hsubmit) as (m & s & Hex).
    rewrite Hex in Hgen. discriminate.
Qed.

(** C5, witness: a provider that answers 503 to every submission. *)
Lemma retry_bound_witness :
  (exists err,
     fst (call (sample_env no_fault unavailable stored)
            (CallTextToImage (alice_context 10)) start) = Ret (Failure err) /\
     e_code err = ProviderUnavailable) /\
  submits (snd (call (sample_env no_fault unavailable stored)
                  (CallTextToImage (alice_context 10)) start)) = 3%nat /\
  sleeps (snd (call (sample_env no_fault unavailable stored)
                 (CallTextToImage (alice_context 10)) start)) = [1000; 1000].
Proof.
  destruct (retry_bound (sample_env no_fault unavailable stored)
              (CallTextToImage (alice_context 10)) start)
    as (Hfail & Hsubmits & Hsleeps & _).
  - intros n. exists 503, "Service Unavailable". split; reflexivity.
  - vm_compute. discriminate.
  - split; [exact Hfail |]. split; [exact Hsubmits | exact Hsleeps].
Defined.

(** ** C6: outputs and error of a document *)

Lemma inv_kept_refl w : inv_kept w w.
Proof. intros H. exact H. Qed.

Lemma inv_kept_trans a b c : inv_kept a b -> inv_kept b c -> inv_kept a c.
Proof. unfold inv_kept. auto. Qed.

Lemma same_store_inv {A} (m : M A) : keeps same_store m -> keeps inv_kept m.
Proof.
  apply keeps_weaken. intros w w' (_ & Hg & Hj & _) [H1 H2].
  split; [rewrite Hj | rewrite Hg]; assumption.
Qed.

Create HintDb inv discriminated.
Ltac inv_frame := keeps_combinators inv_kept_refl inv_kept_trans; eauto with inv.

Lemma fresh_inv g : fresh g -> job_inv g.
Proof.
  intros (Ho & He & Hs). unfold job_inv. rewrite Ho, He.
  repeat split; try congruence; destruct Hs as [-> | ->]; congruence.
Qed.

Lemma fresh_processing g : fresh g -> fresh (set_status g Processing).
Proof. intros (Ho & He & Hs). repeat split; simpl; auto. Qed.

Lemma fresh_failed g error : fresh g -> job_inv (assign g (failed_update error)).
Proof.
  intros (Ho & He & Hs). unfold job_inv. simpl. rewrite Ho.
  repeat split; congruence.
Qed.

Lemma fresh_completed g inputImages ps :
  fresh g -> ps <> [] -> job_inv (assign g (completed_update inputImages ps)).
Proof.
  intros (Ho & He & Hs) Hps. unfold job_inv. simpl. rewrite He.
  assert (map to_output ps <> []) by (destruct ps; [congruence | discriminate]).
  repeat split; congruence.
Qed.

Section Invariant.
Variable env : Env.

Lemma tick_dbops_inv w : inv_kept w (tick_dbops w).
Proof. intros H. exact H. Qed.

Lemma findByClerkId_inv clerkId : keeps inv_kept (findByClerkId env clerkId).
Proof.
  apply db_op_keeps; [apply inv_kept_trans | apply tick_dbops_inv |].
  intros w H. exact H.
Qed.

Lemma save_user_inv clerkId user : keeps inv_kept (save_user env clerkId user).
Proof.
  apply db_op_keeps; [apply inv_kept_trans | apply tick_dbops_inv |].
  intros w H. exact H.
Qed.

Lemma create_user_inv clerkId : keeps inv_kept (create_user env clerkId).
Proof.
  apply db_op_keeps; [apply inv_kept_trans | apply tick_dbops_inv |].
  intros w H. exact H.
Qed.

Lemma note_inv g : job_inv g -> keeps inv_kept (note g).
Proof.
  intros Hg w [Hj Hs]. split; [| exact Hs].
  simpl. apply Forall_app. split; [exact Hj |].
  constructor; [exact Hg | constructor].
Qed.

Lemma save_generation_inv g : job_inv g -> keeps inv_kept (save_generation env g).
Proof.
  intros Hg.
  apply db_op_keeps; [apply inv_kept_trans | apply tick_dbops_inv |].
  intros w [Hj Hs]. destruct (g_id g); simpl; (split; [exact Hj |]); simpl.
  - apply Forall_insert; assumption.
  - apply Forall_app. split; [exact Hs |].
    constructor; [exact Hg | constructor].
Qed.

Lemma date_now_inv : keeps inv_kept date_now.
Proof. intros w H. exact H. Qed.

Hint Resolve findByClerkId_inv save_user_inv create_user_inv note_inv
  save_generation_inv date_now_inv : inv.

Lemma validateGenerationContext_inv context :
  keeps inv_kept (validateGenerationContext env context).
Proof. unfold validateGenerationContext. inv_frame. Qed.

Lemma createGenerationRecord_inv context type :
  keeps inv_kept (createGenerationRecord env context type).
Proof.
  assert (Hfresh : forall q, job_inv
            {| g_id := None; g_userId := c_userId context; g_type := type;
               g_status := Pending; g_prompt := r_prompt (c_request context);
               g_quality := q; g_inputImages := []; g_outputImages := [];
               g_cost := cost_of env context type;
               g_credits := cost_of env context type; g_errorMessage := None |}).
  { intros q. apply fresh_inv. repeat split; auto. }
  unfold createGenerationRecord. inv_frame.
Qed.

Hint Resolve validateGenerationContext_inv createGenerationRecord_inv : inv.

Lemma opening_inv context type checks :
  keeps same_store checks -> keeps inv_kept (opening env context type checks).
Proof. intros H. apply same_store_inv in H. unfold opening. inv_frame. Qed.

Lemma updateGenerationRecord_inv g updates :
  job_inv (assign g updates) -> keeps inv_kept (updateGenerationRecord env g updates).
Proof. intros H. unfold updateGenerationRecord. inv_frame. Qed.

Lemma validateAndConsumeQuota_inv context g :
  fresh g -> keeps inv_kept (validateAndConsumeQuota env context g).
Proof.
  intros Hg. pose proof (fresh_inv _ (fresh_processing g Hg)) as Hp.
  unfold validateAndConsumeQuota. inv_frame.
Qed.

Lemma validateAndConsumeQuota_fresh context g w q g' w2 :
  fresh g ->
  validateAndConsumeQuota env context g w = (Ret (q, g'), w2) -> fresh g'.
Proof.
  intros Hg. unfold validateAndConsumeQuota.
  destruct (q_remaining (c_quotaInfo context) <? g_credits g).
  { intros H. injection H as _ <- _. exact Hg. }
  unfold bind, attempt, ret.
  destruct (findByClerkId env (c_userId context) w) as [[[u |] | e] w1];
    try (intros H; injection H as _ <- _; exact Hg).
  destruct (save_user env _ _ w1) as [[[] | e] w3];
    try (intros H; injection H as _ <- _; exact Hg).
  destruct (note _ w3) as [[[] | e] w4] eqn:Hnote; [| discriminate].
  destruct (save_generation env _ w4) as [[g0 | e] w5];
    intros H; injection H as _ <- _; apply fresh_processing, Hg.
Qed.

Lemma saveGenerationHistory_inv userId type prompt result quality :
  (forall data, result = Success data -> d_images data <> []) ->
  keeps inv_kept (saveGenerationHistory env userId type prompt result quality).
Proof.
  intros Hres. unfold saveGenerationHistory.
  apply (keeps_bind _ inv_kept_trans); [apply date_now_inv |]. intros t.
  assert (Hinv : job_inv
            {| g_id := None; g_userId := userId; g_type := type;
               g_status := match result with Success _ => Completed | Failure _ => Failed end;
               g_prompt := prompt; g_quality := Some (or_lit quality "standard");
               g_inputImages := [];
               g_outputImages :=
                 match result with
                 | Success data => map (history_output t) (d_images data)
                 | Failure _ => []
                 end;
               g_cost := 0; g_credits := 1;
               g_errorMessage :=
                 match result with
                 | Success _ => None
                 | Failure error => Some (e_message error)
                 end |}).
  { unfold job_inv. destruct result as [data | error]; simpl.
    - specialize (Hres data eq_refl).
      assert (map (history_output t) (d_images data) <> [])
        by (destruct (d_images data); [congruence | discriminate]).
      repeat split; congruence.
    - repeat split; congruence. }
  inv_frame.
Qed.

Lemma ensureUserExists_inv clerkId : keeps inv_kept (ensureUserExists env clerkId).
Proof. unfold ensureUserExists. inv_frame. Qed.

(** A successful job has at least one image. *)
Lemma call_success_images c w data :
  fst (call env c w) = Ret (Success data) -> d_images data <> [].
Proof.
  rewrite call_run_job.
  destruct (run_job_path env (call_context c) (call_type c) (call_checks env c)
              (call_generate env c) (call_inputs c) w) as (result & w' & Hrun & Hpath).
  rewrite Hrun. simpl. intros Hres. injection Hres as ->.
  inversion Hpath as
    [error w1 Hopen Hr
    | g w1 q g' w2 w3 Hopen Hq Hs Hw Hr
    | g w1 q g' w2 error w3 w4 Hopen Hq Hs Hgen Hw Hr
    | g w1 q g' w2 response w3 ps w4 w5 Hopen Hq Hs Hgen Hproc Hlen Hw Hr ];
    try (destruct error; discriminate).
  cbn [d_images].
  apply executeWithRetry_single in Hgen as [image Himage].
  rewrite Himage in Hlen. destruct ps; [discriminate | congruence].
Qed.

Lemma call_inv c : keeps inv_kept (call env c).
Proof.
  intros w Hok. rewrite call_run_job.
  destruct (run_job_path env (call_context c) (call_type c) (call_checks env c)
              (call_generate env c) (call_inputs c) w) as (result & w' & Hrun & Hpath).
  rewrite Hrun. simpl.
  pose proof (call_checks_store env c) as Hstore.
  pose proof (opening_inv (call_context c) (call_type c) _ Hstore w Hok) as H1.
  inversion Hpath as
    [error w1 Hopen Hr
    | g w1 q g' w2 w3 Hopen Hq Hs Hw Hr
    | g w1 q g' w2 error w3 w4 Hopen Hq Hs Hgen Hw Hr
    | g w1 q g' w2 response w3 ps w4 w5 Hopen Hq Hs Hgen Hproc Hlen Hw Hr ]; subst;
    rewrite Hopen in H1; simpl in H1; [exact H1 | | |];
    pose proof Hopen as Hfresh;
    apply opening_ret in Hfresh as (Hfresh & _); try exact Hstore;
    pose proof (validateAndConsumeQuota_inv (call_context c) g Hfresh w1 H1) as H2;
    pose proof (validateAndConsumeQuota_fresh _ _ _ _ _ _ Hfresh Hq) as Hfresh';
    rewrite Hq in H2; simpl in H2.
  - apply updateGenerationRecord_inv; [apply fresh_failed, Hfresh' | exact H2].
  - apply updateGenerationRecord_inv; [apply fresh_failed, Hfresh' |].
    pose proof (same_store_inv _
                  (executeWithRetry_store env _ (call_generate_store env c)) w2 H2) as H3.
    rewrite Hgen in H3. exact H3.
  - pose proof (same_store_inv _
                  (executeWithRetry_store env _ (call_generate_store env c)) w2 H2) as H3.
    rewrite Hgen in H3. simpl in H3.
    pose proof (same_store_inv _
                  (processGeneratedImages_store env (resp_images response)
                     (c_subscriptionTier (call_context c))) w3 H3) as H4.
    rewrite Hproc in H4. simpl in H4.
    apply updateGenerationRecord_inv; [| exact H4].
    apply fresh_completed; [exact Hfresh' |].
    apply executeWithRetry_single in Hgen as [image Himage].
    rewrite Himage in Hlen. destruct ps; [discriminate | congruence].
Qed.

Lemma controller_textToImage_inv req : keeps inv_kept (controller_textToImage env req).
Proof.
  unfold controller_textToImage.
  apply (keeps_try_catch _ inv_kept_trans); [| intros e; apply (keeps_ret _ inv_kept_refl)].
  destruct (negb (truthy (req_userId req))); [apply (keeps_ret _ inv_kept_refl) |].
  cbv zeta.
  apply (keeps_bind _ inv_kept_trans); [apply ensureUserExists_inv |]. intros user.
  destruct (req_prompt req) as [prompt |]; [| apply (keeps_throw _ inv_kept_refl)].
  intros w Hok. unfold bind at 1.
  set (context := createContext _ _ _ _).
  pose proof (call_inv (CallTextToImage context) w Hok) as H1.
  pose proof (call_success_images (CallTextToImage context) w) as Himages.
  pose proof (run_job_returns env context TextToImage (ret tt)
                (textToImage env (c_request context)) None w) as [result Hres].
  simpl in H1, Himages. unfold generateTextToImage in *.
  destruct (run_job env context TextToImage (ret tt) _ None w) as [o w1].
  simpl in Hres, H1, Himages. subst o.
  unfold bind at 1.
  pose proof (saveGenerationHistory_inv
                (or_lit (req_userId req) "") TextToImage prompt result (req_quality req)) as H2.
  specialize (H2 ltac:(intros data ->; apply Himages; reflexivity) w1 H1).
  destruct (saveGenerationHistory env _ _ _ _ _ w1) as [[[] | e] w2]; simpl in H2.
  - destruct result; exact H2.
  - exact H2.
Qed.
End Invariant.

(** C6: in every version of a generation document that the orchestrator
    or the controller builds, mutates or persists, the state is [Completed]
    exactly when the outputs are not empty, it is [Failed] exactly when the
    error message is set, and a [Failed] document has no output. *)
Theorem output_invariant (env : Env) :
  (forall c w, records_ok w -> records_ok (snd (call env c w))) /\
  (forall req w, records_ok w -> records_ok (snd (controller_textToImage env req w))).
Proof.
  split.
  - intros c w. apply (call_inv env c w).
  - intros req w. apply (controller_textToImage_inv env req w).
Qed.

(** ** The controller, step by step *)

Section ControllerSteps.
Variable env : Env.

Lemma saveGenerationHistory_eq userId type prompt result quality w :
  saveGenerationHistory env userId type prompt result quality w =
    (Ret tt, snd (saveGenerationHistory env userId type prompt result quality w)).
Proof.
  unfold saveGenerationHistory, bind, date_now, note, attempt, ret.
  destruct (save_generation env _ _) as [o w1]. reflexivity.
Qed.

(** The controller when the user is known and the prompt is given. *)
Lemma controller_textToImage_steps req w userId prompt user w1 result w2 :
  req_userId req = Some userId -> userId <> "" -> req_prompt req = Some prompt ->
  ensureUserExists env userId w = (Ret user, w1) ->
  generateTextToImage env (request_context req userId prompt user) w1 = (Ret result, w2) ->
  controller_textToImage env req w =
    (Ret (response_of result),
     snd (saveGenerationHistory env userId TextToImage prompt result (req_quality req) w2)).
Proof.
  intros Hid Hne Hprompt Huser Hgen.
  unfold controller_textToImage.
  assert (Htruthy : truthy (req_userId req) = true).
  { rewrite Hid. simpl. destruct (String.eqb_spec userId ""); [contradiction | reflexivity]. }
  assert (Hlit : or_lit (req_userId req) "" = userId).
  { rewrite Hid. simpl. destruct (String.eqb_spec userId ""); [contradiction | reflexivity]. }
  rewrite Htruthy, Hlit, Hprompt. cbn [negb]. cbv zeta.
  fold (request_context req userId prompt user).
  erewrite try_catch_ret_eq; [reflexivity |].
  erewrite bind_ret_eq by exact Huser.
  fold (request_context req userId prompt user).
  erewrite bind_ret_eq by exact Hgen.
  erewrite bind_ret_eq by apply saveGenerationHistory_eq.
  destruct result; reflexivity.
Qed.

(** The orchestrator always hands a result to the controller. *)
Lemma generateTextToImage_eq context w :
  exists result,
    generateTextToImage env context w
      = (Ret result, snd (generateTextToImage env context w)).
Proof.
  destruct (run_job_returns env context TextToImage (ret tt)
              (textToImage env (c_request context)) None w) as [result Hres].
  fold (generateTextToImage env context) in Hres.
  destruct (generateTextToImage env context w) as [o w2].
  simpl in Hres. subst o. eexists. reflexivity.
Qed.

(** With a working store the history step adds its summary as the last
    document. *)
Lemma saveGenerationHistory_adds userId type prompt result quality w :
  (forall n, db_fault env n = None) ->
  generations (snd (saveGenerationHistory env userId type prompt result quality w))
    = (generations w
         ++ [summary_of userId type prompt result quality (now w)
               (Some (length (generations w)))])%list.
Proof.
  intros Hfault.
  unfold saveGenerationHistory, bind, date_now, note, attempt, ret,
    save_generation, db_op. simpl.
  rewrite Hfault. reflexivity.
Qed.
End ControllerSteps.

(** ** C7: the documents written for one attempt *)

Section Records.
Variable env : Env.

Lemma validateAndConsumeQuota_id context g w q g' w2 :
  validateAndConsumeQuota env context g w = (Ret (q, g'), w2) -> g_id g' = g_id g.
Proof.
  unfold validateAndConsumeQuota.
  destruct (q_remaining (c_quotaInfo context) <? g_credits g).
  { intros H. injection H as _ <- _. reflexivity. }
  unfold bind, attempt, ret.
  destruct (findByClerkId env (c_userId context) w) as [[[u |] | e] w1];
    try (intros H; injection H as _ <- _; reflexivity).
  destruct (save_user env _ _ w1) as [[[] | e] w3];
    try (intros H; injection H as _ <- _; reflexivity).
  destruct (note _ w3) as [[[] | e] w4] eqn:Hnote; [| discriminate].
  destruct (save_generation env _ w4) as [[g0 | e] w5];
    intros H; injection H as _ <- _; reflexivity.
Qed.

Lemma validateAndConsumeQuota_size context g i :
  g_id g = Some i -> keeps size_kept (validateAndConsumeQuota env context g).
Proof.
  intros Hid. unfold validateAndConsumeQuota. size_frame.
  apply (save_generation_size _ _ i). exact Hid.
Qed.

Lemma ensureUserExists_size clerkId : keeps size_kept (ensureUserExists env clerkId).
Proof. unfold ensureUserExists. size_frame. Qed.

(** A job adds one document when its opening steps return, none otherwise. *)
Lemma call_size c w :
  length (generations (snd (call env c w)))
    = (length (generations w)
       + match fst (opening env (call_context c) (call_type c) (call_checks env c) w) with
         | Ret _ => 1
         | Throw _ => 0
         end)%nat.
Proof.
  rewrite call_run_job.
  destruct (run_job_path env (call_context c) (call_type c) (call_checks env c)
              (call_generate env c) (call_inputs c) w) as (result & w' & Hrun & Hpath).
  rewrite Hrun. simpl.
  pose proof (call_checks_store env c) as Hstore.
  inversion Hpath as
    [error w1 Hopen Hr
    | g w1 q g' w2 w3 Hopen Hq Hs Hw Hr
    | g w1 q g' w2 error w3 w4 Hopen Hq Hs Hgen Hw Hr
    | g w1 q g' w2 response w3 ps w4 w5 Hopen Hq Hs Hgen Hproc Hlen Hw Hr ]; subst;
    rewrite Hopen; simpl.
  { apply opening_throws_size in Hopen; [| exact Hstore].
    unfold size_kept in Hopen. lia. }
  all: pose proof Hopen as Hret;
    apply opening_ret in Hret as (_ & _ & (i & Hid) & Hlen1); try exact Hstore;
    pose proof (validateAndConsumeQuota_size (call_context c) g i Hid w1) as Hs2;
    pose proof (validateAndConsumeQuota_id _ _ _ _ _ _ Hq) as Hid';
    rewrite Hid in Hid'; rewrite Hq in Hs2; unfold size_kept in Hs2; simpl in Hs2.
  - pose proof (updateGenerationRecord_size env g'
                  (failed_update
                     (QuotaExceededError (or_lit (qr_message q) "Quota exceeded")))
                  i Hid' w2) as Hs3.
    unfold size_kept in Hs3. lia.
  - pose proof (same_store_size _
                  (executeWithRetry_store env _ (call_generate_store env c)) w2) as Hs3.
    rewrite Hgen in Hs3. unfold size_kept in Hs3. simpl in Hs3.
    pose proof (updateGenerationRecord_size env g' (failed_update error) i Hid' w3) as Hs4.
    unfold size_kept in Hs4. lia.
  - pose proof (same_store_size _
                  (executeWithRetry_store env _ (call_generate_store env c)) w2) as Hs3.
    rewrite Hgen in Hs3. unfold size_kept in Hs3. simpl in Hs3.
    pose proof (same_store_size _
                  (processGeneratedImages_store env (resp_images response)
                     (c_subscriptionTier (call_context c))) w3) as Hs4.
    rewrite Hproc in Hs4. unfold size_kept in Hs4. simpl in Hs4.
    pose proof (updateGenerationRecord_size env g'
                  (completed_update (call_inputs c) ps) i Hid' w4) as Hs5.
    unfold size_kept in Hs5. lia.
Qed.

(** With a working store the opening steps of a text-to-image job return
    exactly when the validation of the context does. *)
Lemma opening_validated context w :
  (forall n, db_fault env n = None) ->
  match fst (opening env context TextToImage (ret tt) w) with
  | Ret _ => 1%nat
  | Throw _ => 0%nat
  end
  = match fst (validateGenerationContext env context w) with
    | Ret _ => 1%nat
    | Throw _ => 0%nat
    end.
Proof.
  intros Hfault. unfold opening.
  erewrite bind_ret_eq by reflexivity.
  unfold bind at 1.
  destruct (validateGenerationContext env context w) as [[[] | e] w1]; [| reflexivity].
  unfold createGenerationRecord.
  erewrite bind_ret_eq by reflexivity.
  unfold save_generation, db_op. rewrite Hfault. reflexivity.
Qed.

Lemma ensureUserExists_works clerkId w :
  (forall n, db_fault env n = None) ->
  exists user, ensureUserExists env clerkId w
               = (Ret user, snd (ensureUserExists env clerkId w)).
Proof.
  intros Hfault. unfold ensureUserExists, bind, try_catch, findByClerkId, create_user, db_op.
  rewrite Hfault. destruct (users (tick_dbops w) !! clerkId) as [u |].
  - eexists. reflexivity.
  - rewrite Hfault. eexists. reflexivity.
Qed.
End Records.

(** C7, counterexample: one successful attempt leaves two documents in the
    history collection, the one of the orchestrator and the summary of the
    controller. *)
Lemma two_records_for_one_attempt :
  (exists response,
     fst (controller_textToImage (sample_env no_fault immediate stored)
            (alice_request (Some {| q_remaining := 10 |})) start) = Ret response /\
     status response = 200) /\
  length (generations start) = 0%nat /\
  map g_status
    (generations
       (snd (controller_textToImage (sample_env no_fault immediate stored)
               (alice_request (Some {| q_remaining := 10 |})) start)))
    = [Completed; Completed] /\
  map g_cost
    (generations
       (snd (controller_textToImage (sample_env no_fault immediate stored)
               (alice_request (Some {| q_remaining := 10 |})) start)))
    = [1; 0].
Proof.
  split; [eexists; split; vm_compute; reflexivity |].
  vm_compute. repeat split; reflexivity.
Qed.

(** C7, amended: with a working store the controller persists exactly one
    summary of the attempt (request parameters, final state, outputs, error
    message) whether the attempt ended completed or failed, and it is the
    last document written; the orchestrator has persisted a document of its
    own before when the request passed validation, so that an attempt leaves
    two documents when it passed validation and one otherwise. *)
Theorem history_records (env : Env) (req : HttpRequest) (w : World)
    (userId prompt : string) :
  (forall n, db_fault env n = None) ->
  req_userId req = Some userId -> userId <> "" -> req_prompt req = Some prompt ->
  exists user w1 result t id,
    ensureUserExists env userId w = (Ret user, w1) /\
    fst (generateTextToImage env (request_context req userId prompt user) w1) = Ret result /\
    fst (controller_textToImage env req w) = Ret (response_of result) /\
    length (generations (snd (controller_textToImage env req w)))
      = (length (generations w)
         + match fst (validateGenerationContext env
                        (request_context req userId prompt user) w1) with
           | Ret _ => 2
           | Throw _ => 1
           end)%nat /\
    last (generations (snd (controller_textToImage env req w)))
      = Some (summary_of userId TextToImage prompt result (req_quality req) t id).
Proof.
  intros Hfault Hid Hne Hprompt.
  destruct (ensureUserExists_works env userId w Hfault) as [user Huser].
  set (w1 := snd (ensureUserExists env userId w)) in *.
  destruct (generateTextToImage_eq env (request_context req userId prompt user) w1)
    as [result Hgen].
  set (w2 := snd (generateTextToImage env (request_context req userId prompt user) w1)) in *.
  pose proof (controller_textToImage_steps env req w userId prompt user w1 result w2
                Hid Hne Hprompt Huser Hgen) as Hsteps.
  exists user, w1, result, (now w2), (Some (length (generations w2))).
  split; [exact Huser |]. split; [rewrite Hgen; reflexivity |].
  rewrite Hsteps. cbn [fst snd]. split; [reflexivity |].
  rewrite saveGenerationHistory_adds by exact Hfault.
  split; [| apply last_snoc].
  rewrite length_app. simpl.
  pose proof (call_size env (CallTextToImage (request_context req userId prompt user)) w1)
    as Hsize.
  simpl in Hsize. fold w2 in Hsize.
  rewrite opening_validated in Hsize by exact Hfault.
  pose proof (ensureUserExists_size env userId w) as Hsize1.
  fold w1 in Hsize1. unfold size_kept in Hsize1.
  destruct (fst (validateGenerationContext env _ w1)); lia.
Qed.

(** C7, witness: the attempt of alice with a working store. *)
Lemma history_records_witness :
  exists user w1 result t id,
    ensureUserExists (sample_env no_fault immediate stored) "alice" start = (Ret user, w1) /\
    fst (generateTextToImage (sample_env no_fault immediate stored)
           (request_context (alice_request None) "alice" "a red circle" user) w1)
      = Ret result /\
    fst (controller_textToImage (sample_env no_fault immediate stored)
           (alice_request None) start) = Ret (response_of result) /\
    length (generations (snd (controller_textToImage (sample_env no_fault immediate stored)
                                (alice_request None) start)))
      = (length (generations start)
         + match fst (validateGenerationContext (sample_env no_fault immediate stored)
                        (request_context (alice_request None) "alice" "a red circle" user)
                        w1) with
           | Ret _ => 2
           | Throw _ => 1
           end)%nat /\
    last (generations (snd (controller_textToImage (sample_env no_fault immediate stored)
                              (alice_request None) start)))
      = Some (summary_of "alice" TextToImage "a red circle" result (Some "standard") t id).
Proof.
  apply (history_records (sample_env no_fault immediate stored) (alice_request None) start
           "alice" "a red circle").
  - intros n. reflexivity.
  - reflexivity.
  - discriminate.
  - reflexivity.
Defined.

(** ** C8: the responses to failed requests *)

Lemma truthy_some o :
  truthy o = true -> exists s, o = Some s /\ s <> "".
Proof.
  destruct o as [s |]; [| discriminate]. simpl.
  destruct (String.eqb_spec s ""); [discriminate |]. eauto.
Qed.

(** C8, counterexample: the store fails while the job is created, an
    unexpected error; the controller answers 400, not 500, and the body has
    no [code] field. *)
Lemma unexpected_error_answered_400 :
  exists response,
    fst (controller_textToImage (sample_env store_down immediate stored)
           (alice_request None) start) = Ret response /\
    fst (generateTextToImage (sample_env store_down immediate stored)
           (alice_context 10) (tick_dbops start))
      = Ret (Failure {| e_code := Lit "GENERATION_FAILED"; e_message := "db down";
                        e_details := None |}) /\
    status response = 400 /\
    status response <> spec_status Unexpected /\
    body response = [("success", JBool false); ("message", JStr "db down")] /\
    field "code" (body response) = None.
Proof.
  eexists. split; [vm_compute; reflexivity |].
  split; [vm_compute; reflexivity |].
  repeat split; try reflexivity. discriminate.
Qed.

Section Routes.
Variable env : Env.
Variable getAuth : RouteRequest -> Outcome (option string).
Variable verifyToken : string -> Outcome (option string).

Lemma requireAuthentication_no_token req :
  no_bearer_token req = true ->
  requireAuthentication getAuth verifyToken req
    = Respond (plain_response 401 "Authentication required - no token provided").
Proof. unfold no_bearer_token, requireAuthentication. intros ->. reflexivity. Qed.

Lemma requireAuthentication_refuses req refusal :
  requireAuthentication getAuth verifyToken req = Respond refusal ->
  refusal = plain_response 401 "Authentication required - no token provided" \/
  refusal = plain_response 401 "Invalid or expired token".
Proof.
  unfold requireAuthentication.
  destruct (negb _ || negb _); [intros H; injection H as <-; auto |].
  destruct (verified_userId _ _ _ _) as [userId | e].
  - destruct (negb (truthy userId)); [| discriminate].
    intros H; injection H as <-; auto.
  - intros H; injection H as <-; auto.
Qed.

Lemma controller_generateVideo_answers req w :
  exists response,
    fst (controller_generateVideo env req w) = Ret response /\
    (status response = 200 \/ status response = 400 \/ status response = 500) /\
    (status response <> 200 ->
     field "success" (body response) = Some (JBool false) /\
     (exists m, field "error" (body response) = Some (JStr m)) /\
     field "message" (body response) = None /\
     field "code" (body response) = None).
Proof.
  unfold controller_generateVideo.
  destruct (truthy (vreq_image req)); cbn [negb].
  2:{ eexists. split; [reflexivity |]. simpl. split; [auto |]. intros _. eauto. }
  destruct (truthy (vreq_prompt req)); cbn [negb].
  2:{ eexists. split; [reflexivity |]. simpl. split; [auto |]. intros _. eauto. }
  unfold try_catch, bind.
  destruct (service_generateVideo env w) as [[result | e] w1].
  + eexists. split; [reflexivity |]. simpl. split; [auto |]. congruence.
  + eexists. split; [reflexivity |]. simpl. split; [auto |]. intros _. eauto.
Qed.
End Routes.

(** C8, amended: a failed request is answered with a structured body that
    has no [code] field.  The [textToImage] handler of the image controller
    answers [{success: false, message}]: 401 exactly when the request has no
    user id, 400 exactly for the failures that the orchestrator returns,
    whatever their reason, with the message of the failure, and 500 only when
    the handler itself catches an exception (the user cannot be ensured or
    the prompt is missing).  On the route [POST /generate] of the video
    routes, [requireAuthentication] answers 401 with
    [{success: false, message}] before anything else runs, in particular
    when the request carries no Bearer token; a request that passes it is
    answered by the quota middleware, if that one answers, and otherwise by
    the [generateVideo] handler, whose failures are [{success: false, error}]
    with status 400 or 500. *)
Theorem failure_responses (env : Env) :
  (forall req w, exists response,
     fst (controller_textToImage env req w) = Ret response /\
     (status response = 200 \/ status response = 400 \/
      status response = 401 \/ status response = 500) /\
     (status response <> 200 ->
      field "success" (body response) = Some (JBool false) /\
      (exists m, field "message" (body response) = Some (JStr m)) /\
      field "code" (body response) = None) /\
     (status response = 401 <-> truthy (req_userId req) = false) /\
     (status response = 500 ->
      exists userId,
        req_userId req = Some userId /\
        ((exists e, fst (ensureUserExists env userId w) = Throw e) \/
         req_prompt req = None)) /\
     (status response = 400 ->
      exists userId prompt user w1 err,
        req_userId req = Some userId /\ req_prompt req = Some prompt /\
        ensureUserExists env userId w = (Ret user, w1) /\
        fst (generateTextToImage env (request_context req userId prompt user) w1)
          = Ret (Failure err) /\
        field "message" (body response)
          = Some (JStr (or_lit (Some (e_message err)) "Image generation failed")))) /\
  (forall req w userId prompt user w1 err w2,
     req_userId req = Some userId -> userId <> "" -> req_prompt req = Some prompt ->
     ensureUserExists env userId w = (Ret user, w1) ->
     generateTextToImage env (request_context req userId prompt user) w1
       = (Ret (Failure err), w2) ->
     exists response,
       fst (controller_textToImage env req w) = Ret response /\
       status response = 400 /\
       body response = [("success", JBool false);
                        ("message",
                         JStr (or_lit (Some (e_message err)) "Image generation failed"))]) /\
  (forall getAuth verifyToken checkQuota req w, exists response,
     fst (route_generateVideo env getAuth verifyToken checkQuota req w) = Ret response /\
     (no_bearer_token req = true -> status response = 401) /\
     (forall refusal,
        requireAuthentication getAuth verifyToken req = Respond refusal ->
        response = refusal /\ status response = 401 /\ refusal_with_message response) /\
     (requireAuthentication getAuth verifyToken req = Next ->
      (forall answer, fst (checkQuota req w) = Respond answer -> response = answer) /\
      (fst (checkQuota req w) = Next ->
       (status response = 200 \/ status response = 400 \/ status response = 500) /\
       (status response <> 200 ->
        field "success" (body response) = Some (JBool false) /\
        (exists m, field "error" (body response) = Some (JStr m)) /\
        field "message" (body response) = None /\
        field "code" (body response) = None)))).
Proof.
  split; [| split].
  - intros req w.
    destruct (truthy (req_userId req)) eqn:Hid.
    + apply truthy_some in Hid as Hsome. destruct Hsome as (userId & Hsome & Hne).
      assert (Hlit : or_lit (req_userId req) "" = userId).
      { rewrite Hsome. simpl. destruct (String.eqb_spec userId "");
          [contradiction | reflexivity]. }
      destruct (ensureUserExists env userId w) as [[user | e] w1] eqn:Huser.
      * destruct (req_prompt req) as [prompt |] eqn:Hprompt.
        -- destruct (generateTextToImage_eq env (request_context req userId prompt user) w1)
             as [result Hgen].
           rewrite (controller_textToImage_steps env req w userId prompt user w1 result _
                      Hsome Hne Hprompt Huser Hgen).
           eexists. split; [reflexivity |].
           destruct result as [data | error]; simpl.
           ++ split; [auto |]. split; [congruence |].
              split; [split; discriminate |]. split; discriminate.
           ++ split; [auto |]. split; [eauto |].
              split; [split; discriminate |]. split; [discriminate |].
              intros _. exists userId, prompt, user, w1, error.
              rewrite Hgen. auto.
        -- exists internal_error. unfold controller_textToImage.
           rewrite Hid, Hprompt, Hlit. cbn [negb]. cbv zeta.
           erewrite try_catch_throw_eq
             by (erewrite bind_ret_eq by exact Huser; reflexivity).
           simpl. split; [reflexivity |]. split; [auto |]. split; [eauto |].
           split; [split; discriminate |]. split; [| discriminate].
           intros _. exists userId. auto.
      * exists internal_error. unfold controller_textToImage.
        rewrite Hid, Hlit. cbn [negb]. cbv zeta.
        erewrite try_catch_throw_eq
          by (erewrite bind_throw_eq by exact Huser; reflexivity).
        simpl. split; [reflexivity |]. split; [auto |]. split; [eauto |].
        split; [split; discriminate |]. split; [| discriminate].
        intros _. exists userId. split; [exact Hsome |]. left.
        exists e. rewrite Huser. reflexivity.
    + exists unauthenticated. unfold controller_textToImage. rewrite Hid. simpl.
      split; [reflexivity |]. split; [auto |]. split; [eauto |].
      split; [split; auto |]. split; discriminate.
  - intros req w userId prompt user w1 err w2 Hid Hne Hprompt Huser Hgen.
    rewrite (controller_textToImage_steps env req w userId prompt user w1 _ _
               Hid Hne Hprompt Huser Hgen).
    eexists. split; [reflexivity |]. split; reflexivity.
  - intros getAuth verifyToken checkQuota req w.
    unfold route_generateVideo, authenticated_with_quota.
    pose proof (requireAuthentication_no_token getAuth verifyToken req) as Hnone.
    pose proof (requireAuthentication_refuses getAuth verifyToken req) as Hrefuses.
    destruct (requireAuthentication getAuth verifyToken req) as [| refusal].
    + destruct (checkQuota req w) as [[| answer] w1]; cbn [fst].
      * destruct (controller_generateVideo_answers env (route_body req) w1)
          as (response & Hres & Hstatus & Hbody).
        exists response. split; [exact Hres |].
        split; [intros H; specialize (Hnone H); discriminate Hnone |].
        split; [discriminate |]. intros _.
        split; [discriminate |]. intros _. split; assumption.
      * exists answer. split; [reflexivity |].
        split; [intros H; specialize (Hnone H); discriminate Hnone |].
        split; [discriminate |]. intros _.
        split; [intros a H; injection H as <-; reflexivity | discriminate].
    + exists refusal. split; [reflexivity |].
      assert (Hshape : status refusal = 401 /\ refusal_with_message refusal).
      { destruct (Hrefuses refusal eq_refl) as [-> | ->];
          (split; [reflexivity |]); unfold refusal_with_message; simpl; eauto. }
      split; [intros _; apply Hshape |].
      split; [| discriminate].
      intros r H. injection H as <-. split; [reflexivity | exact Hshape].
Qed.

(** C8, witness: the job of alice fails for lack of quota and is answered
    400 with the message of the failure. *)
Lemma failure_responses_witness :
  exists response,
    fst (controller_textToImage (sample_env no_fault immediate stored)
           (alice_request (Some {| q_remaining := 0 |})) start) = Ret response /\
    status response = 400 /\
    body response = [("success", JBool false);
                     ("message", JStr "Insufficient quota. Need 1 credits, have 0")].
Proof.
  edestruct (proj1 (proj2 (failure_responses (sample_env no_fault immediate stored)))
               (alice_request (Some {| q_remaining := 0 |})) start
               "alice" "a red circle") as (response & Hres & Hstatus & Hbody).
  - reflexivity.
  - discriminate.
  - reflexivity.
  - vm_compute. reflexivity.
  - vm_compute. reflexivity.
  - exists response. split; [exact Hres |]. split; [exact Hstatus | exact Hbody].
Defined.

(** ** C9: a failing upload *)

Section Upload.
Variable env : Env.

Lemma uploadToCloudinary_returns imageUrl w :
  exists asset, uploadToCloudinary env imageUrl w
                = (Ret asset, snd (uploadToCloudinary env imageUrl w)).
Proof.
  unfold uploadToCloudinary, try_catch.
  destruct (bind (download env) _ w) as [[asset | e] w1]; eexists; reflexivity.
Qed.

Lemma uploadToCloudinary_fallback imageUrl w :
  media_store_fails env w = true ->
  fst (uploadToCloudinary env imageUrl w) = Ret (fallback_asset imageUrl (now w)).
Proof.
  unfold media_store_fails, uploadToCloudinary, try_catch, bind, download, uploadImage.
  destruct (download_ok env (downloads w)) as [[|] | e]; simpl; try reflexivity.
  destruct (upload_answer env (uploads w)) as [r | e]; simpl; [| reflexivity].
  intros H. rewrite H. reflexivity.
Qed.

Lemma media_kept_refl w : media_kept w w.
Proof. split; reflexivity. Qed.

Lemma media_kept_trans a b c : media_kept a b -> media_kept b c -> media_kept a c.
Proof. unfold media_kept. intros (? & ?) (? & ?). split; congruence. Qed.

Lemma sleep_media ms : keeps media_kept (sleep ms).
Proof. intros w. split; reflexivity. Qed.

Lemma post_submit_media : keeps media_kept (post_submit env).
Proof.
  intros w. unfold post_submit.
  destruct (submit_answer env (submits w)); split; reflexivity.
Qed.

Lemma get_poll_media : keeps media_kept (get_poll env).
Proof.
  intros w. unfold get_poll.
  destruct (poll_answer env (polls w)); split; reflexivity.
Qed.

Lemma pollGenerationResult_loop_media n :
  keeps media_kept (pollGenerationResult_loop env n).
Proof.
  induction n as [| n IH]; simpl;
    keeps_combinators media_kept_refl media_kept_trans;
    auto using sleep_media, get_poll_media.
Qed.

Lemma url_phase_media : keeps media_kept (url_phase env).
Proof.
  unfold url_phase, submitted_url, pollGenerationResult.
  keeps_combinators media_kept_refl media_kept_trans;
    auto using post_submit_media, pollGenerationResult_loop_media.
Qed.

(** Once the URL of the generated image is known, the provider call
    returns one image that keeps it, whatever the media store does. *)
Lemma textToImage_generated request w u w1 :
  url_phase env w = (Ret u, w1) ->
  exists asset,
    fst (uploadToCloudinary env u w1) = Ret asset /\
    textToImage env request w
      = (Ret {| resp_images := [imageData asset u];
                resp_creditsUsed := calculateCreditsUsed request |},
         snd (uploadToCloudinary env u w1)).
Proof.
  intros Hphase.
  destruct (uploadToCloudinary_returns u w1) as [asset Hup].
  exists asset. split; [rewrite Hup; reflexivity |].
  unfold url_phase in Hphase.
  apply bind_ret_inv in Hphase as (response & w0 & Hpost & Hrest).
  destruct response as [[status text] | body]; [discriminate |].
  unfold textToImage.
  erewrite try_catch_ret_eq; [reflexivity |].
  erewrite bind_ret_eq by exact Hpost.
  cbv beta iota.
  erewrite bind_ret_eq by exact Hrest.
  erewrite bind_ret_eq by exact Hup. reflexivity.
Qed.

Lemma executeWithRetry_first {A} (operation : M A) w a w' :
  operation w = (Ret a, w') -> executeWithRetry env operation w = (Ret a, w').
Proof.
  intros H. unfold executeWithRetry, withRetry. cbn [withRetry_from].
  erewrite bind_ret_eq by (apply attempt_eq; exact H). reflexivity.
Qed.

(** A processed image keeps the provider URL it came from; when it
    carries no inline data and its URL is not a local one, nothing else than
    the tier is added to it. *)
Lemma processGeneratedImage_keeps image tier w o w' :
  processGeneratedImage env image tier w = (o, w') ->
  exists p, o = Ret p /\
            i_originalUrl p = i_originalUrl image /\
            (truthy (i_data image) = false ->
             truthy (i_url image) && includes "localhost" (or_lit (i_url image) "") = false ->
             p = processed image tier).
Proof.
  unfold processGeneratedImage, try_catch.
  destruct (bind _ _ w) as [[p0 | e] w1] eqn:Hbody.
  2:{ intros H. injection H as <- _. eexists. split; [reflexivity |].
      split; [reflexivity |]. intros Hdata Hlocal. rewrite Hdata, Hlocal in Hbody.
      erewrite bind_ret_eq in Hbody by reflexivity. discriminate. }
  intros H. injection H as <- _. exists p0. split; [reflexivity |].
  apply bind_ret_inv in Hbody as (cloudinaryResult & w2 & Hupload & Hrest).
  split.
  - destruct cloudinaryResult as [r |].
    + destruct (cu_success r).
      * apply bind_ret_inv in Hrest as (thumbnailUrl & w3 & _ & Hrest).
        injection Hrest as <- _. reflexivity.
      * injection Hrest as <- _. reflexivity.
    + injection Hrest as <- _. reflexivity.
  - intros Hdata Hlocal. rewrite Hdata, Hlocal in Hupload. injection Hupload as <- _.
    injection Hrest as <- _. reflexivity.
Qed.

Lemma processGeneratedImages_one image tier w ps w' :
  processGeneratedImages env [image] tier w = (Ret ps, w') ->
  exists p, ps = [p] /\
            i_originalUrl p = i_originalUrl image /\
            (truthy (i_data image) = false ->
             truthy (i_url image) && includes "localhost" (or_lit (i_url image) "") = false ->
             p = processed image tier).
Proof.
  cbn [processGeneratedImages]. intros H.
  apply bind_ret_inv in H as (p & w1 & Hp & H).
  apply processGeneratedImage_keeps in Hp as (p' & Heq & Horig & Hlocal).
  injection Heq as <-.
  erewrite bind_ret_eq in H by reflexivity. injection H as <- _.
  exists p. auto.
Qed.
End Upload.

(** C9, counterexample: the upload throws, the job completes and the asset
    is kept under the provider URL, but nothing marks it as unpersisted: the
    result and the documents are those of a run in which the media store
    accepted the asset under that same URL. *)
Lemma no_unpersisted_flag :
  (exists data image,
     fst (call (sample_env no_fault immediate upload_throws)
            (CallTextToImage (alice_context 10)) start) = Ret (Success data) /\
     d_images data = [image] /\
     i_url image = Some "https://x/img.png" /\
     i_processingError image = None) /\
  fst (call (sample_env no_fault immediate upload_throws)
         (CallTextToImage (alice_context 10)) start)
    = fst (call (sample_env no_fault immediate stored_as_fallback)
             (CallTextToImage (alice_context 10)) start) /\
  generations (snd (call (sample_env no_fault immediate upload_throws)
                      (CallTextToImage (alice_context 10)) start))
    = generations (snd (call (sample_env no_fault immediate stored_as_fallback)
                          (CallTextToImage (alice_context 10)) start)).
Proof.
  split; [eexists _, _; vm_compute; repeat split; reflexivity |].
  split; vm_compute; reflexivity.
Qed.

(** C9, amended: when the provider delivers the URL of a generated image,
    at once or after polling, a job that reached the provider ends
    [Completed] whatever the media store does, with exactly one asset that
    keeps the provider URL as its original URL.  When the media store fails
    for that asset, the asset is kept with the provider URL as its [url] and
    [secureUrl] and with no processing error: no flag marks it as
    unpersisted. *)
Theorem upload_failure_keeps_asset (env : Env) (c : ImageCall) (w : World) (u : string) :
  provider_delivers env w u -> u <> "" ->
  submits (snd (call env c w)) <> submits w ->
  exists data image,
    fst (call env c w) = Ret (Success data) /\
    d_images data = [image] /\
    i_originalUrl image = u /\
    g_status (d_generationRecord data) = Completed /\
    g_outputImages (d_generationRecord data) = [to_output image] /\
    (media_store_fails env w = true -> includes "localhost" u = false ->
     i_url image = Some u /\ i_secureUrl image = Some u /\
     i_processingError image = None).
Proof.
  intros Hdelivers Hne. rewrite call_run_job.
  destruct (run_job_path env (call_context c) (call_type c) (call_checks env c)
              (call_generate env c) (call_inputs c) w) as (result & w' & Hrun & Hpath).
  rewrite Hrun. simpl.
  pose proof (call_checks_calls env c) as Hcalls.
  pose proof (opening_calls env (call_context c) (call_type c) _ Hcalls w) as Hoc.
  destruct (call_generate_textToImage env c) as (request & Hgenerate).
  assert (Hprovider : forall g w1 q g' w2,
             opening env (call_context c) (call_type c) (call_checks env c) w = (Ret g, w1) ->
             validateAndConsumeQuota env (call_context c) g w1 = (Ret (q, g'), w2) ->
             exists asset w3 t,
               executeWithRetry env (call_generate env c) w2
                 = (Ret {| resp_images := [imageData asset u];
                           resp_creditsUsed := calculateCreditsUsed request |}, w3) /\
               (media_store_fails env w = true -> asset = fallback_asset u t)).
  { intros g w1 q g' w2 Hopen Hq.
    rewrite Hopen in Hoc. simpl in Hoc.
    pose proof (validateAndConsumeQuota_calls env (call_context c) g w1) as Hc2.
    rewrite Hq in Hc2. simpl in Hc2.
    pose proof (same_calls_trans _ _ _ Hoc Hc2) as Hsame.
    destruct Hsame as (Hsub & Hrest). pose proof Hrest as Hrest'.
    destruct Hrest' as (_ & _ & _ & Hdown & Hup & _).
    destruct (Hdelivers w2 (conj Hsub Hrest)) as (w3 & Hphase).
    pose proof (url_phase_media env w2) as Hmedia.
    rewrite Hphase in Hmedia. destruct Hmedia as (Hdown3 & Hup3). simpl in Hdown3, Hup3.
    destruct (textToImage_generated env request w2 u w3 Hphase) as (asset & Hasset & Htext).
    exists asset, (snd (uploadToCloudinary env u w3)), (now w3).
    split.
    - rewrite Hgenerate. apply executeWithRetry_first. exact Htext.
    - intros Hfails.
      assert (Hfails3 : media_store_fails env w3 = true).
      { unfold media_store_fails in *. rewrite Hdown3, Hup3, Hdown, Hup. exact Hfails. }
      rewrite (uploadToCloudinary_fallback env u _ Hfails3) in Hasset.
      injection Hasset as <-. reflexivity. }
  inversion Hpath as
    [error w1 Hopen Hr
    | g w1 q g' w2 w3 Hopen Hq Hs Hw Hr
    | g w1 q g' w2 error w3 w4 Hopen Hq Hs Hgen Hw Hr
    | g w1 q g' w2 response w3 ps w4 w5 Hopen Hq Hs Hgen Hproc Hlen Hw Hr ]; subst.
  - rewrite Hopen in Hoc. destruct Hoc as (Hsame & _). intros Hdiff. contradiction.
  - rewrite Hopen in Hoc. simpl in Hoc.
    pose proof (validateAndConsumeQuota_calls env (call_context c) g w1) as Hc2.
    rewrite Hq in Hc2. simpl in Hc2.
    pose proof (updateGenerationRecord_calls env g'
                  (failed_update (QuotaExceededError (or_lit (qr_message q) "Quota exceeded")))
                  w2) as Hc3.
    destruct (same_calls_trans _ _ _ Hoc (same_calls_trans _ _ _ Hc2 Hc3)) as (Hsame & _).
    intros Hdiff. contradiction.
  - destruct (Hprovider _ _ _ _ _ Hopen Hq) as (asset & w3' & t & Hex & _).
    rewrite Hex in Hgen. discriminate.
  - intros _.
    destruct (Hprovider _ _ _ _ _ Hopen Hq) as (asset & w3' & t & Hex & Hfallback).
    rewrite Hex in Hgen. injection Hgen as <- <-.
    cbn [resp_images] in Hproc.
    apply processGeneratedImages_one in Hproc as (p & -> & Horig & Hlocal).
    eexists _, p. split; [reflexivity |].
    cbn [d_images d_generationRecord].
    split; [reflexivity |]. split; [exact Horig |].
    split; [reflexivity |]. split; [reflexivity |].
    intros Hfails Hnotlocal.
    specialize (Hfallback Hfails). subst asset.
    assert (Hprimary : i_url (imageData (fallback_asset u t) u) = Some u).
    { simpl. destruct (String.eqb_spec u ""); [contradiction | reflexivity]. }
    rewrite Hlocal; [| reflexivity |].
    2:{ rewrite Hprimary. simpl.
        destruct (String.eqb_spec u ""); [contradiction |].
        rewrite Hnotlocal. apply andb_false_r. }
    simpl. destruct (String.eqb_spec u ""); [contradiction |]. auto.
Qed.

(** C9, witness: the upload throws and the red circle is kept. *)
Lemma upload_failure_keeps_asset_witness :
  exists data image,
    fst (call (sample_env no_fault immediate upload_throws)
           (CallTextToImage (alice_context 10)) start) = Ret (Success data) /\
    d_images data = [image] /\
    g_status (d_generationRecord data) = Completed /\
    i_url image = Some "https://x/img.png" /\
    i_processingError image = None.
Proof.
  destruct (upload_failure_keeps_asset (sample_env no_fault immediate upload_throws)
              (CallTextToImage (alice_context 10)) start "https://x/img.png")
    as (data & image & Hres & Himages & _ & Hstatus & _ & Hkept).
  - intros w2 _. eexists. reflexivity.
  - discriminate.
  - vm_compute. discriminate.
  - destruct Hkept as (Hurl & _ & Herr); [reflexivity | reflexivity |].
    exists data, image. auto.
Defined.

(** ** C10: what the quota decision depends on *)

Lemma quota_decision_decided env context g w :
  quota_decision env context g w
    = Ret (decided env context g (dbops w)
             (bool_decide (is_Some (users w !! c_userId context)))).
Proof.
  unfold quota_decision, validateAndConsumeQuota, decided, quota_failure.
  destruct (q_remaining (c_quotaInfo context) <? g_credits g); [reflexivity |].
  destruct (db_fault env (dbops w)) as [e0 |] eqn:F0.
  { erewrite bind_ret_eq
      by (apply attempt_eq; unfold findByClerkId, db_op; rewrite F0; reflexivity).
    reflexivity. }
  erewrite bind_ret_eq
    by (apply attempt_eq; unfold findByClerkId, db_op; rewrite F0; reflexivity).
  cbn [users tick_dbops].
  destruct (users w !! c_userId context) as [user |]; [| reflexivity].
  rewrite bool_decide_eq_true_2 by eauto.
  destruct (db_fault env (S (dbops w))) as [e1 |] eqn:F1.
  { erewrite bind_ret_eq
      by (apply attempt_eq; unfold save_user, db_op; cbn [dbops tick_dbops];
          rewrite F1; reflexivity).
    reflexivity. }
  erewrite bind_ret_eq
    by (apply attempt_eq; unfold save_user, db_op; cbn [dbops tick_dbops];
        rewrite F1; reflexivity).
  cbv beta iota.
  erewrite bind_ret_eq by reflexivity.
  destruct (db_fault env (S (S (dbops w)))) as [e2 |] eqn:F2.
  { erewrite bind_ret_eq
      by (apply attempt_eq; unfold save_generation, db_op;
          cbn [dbops tick_dbops with_users with_journal];
          rewrite F2; reflexivity).
    reflexivity. }
  unfold bind, attempt, save_generation, db_op.
  cbn [dbops tick_dbops with_users with_journal]. rewrite F2.
  destruct (g_id (set_status g Processing)); reflexivity.
Qed.

(** C10: the decision of the quota step is the same in two worlds that
    are at the same point of the store's script and know the same owner,
    whatever usage the store has recorded for the accounts; a context built
    without middleware quota carries 10 remaining credits; and with that
    default and a working store the step succeeds for every job of at most
    10 credits, whatever the recorded usage of the owner. *)
Theorem quota_decision_ignores_usage (env : Env) :
  (forall context g w1 w2,
     dbops w1 = dbops w2 ->
     (is_Some (users w1 !! c_userId context) <-> is_Some (users w2 !! c_userId context)) ->
     quota_decision env context g w1 = quota_decision env context g w2) /\
  (forall userId tier request,
     q_remaining (c_quotaInfo (createContext userId tier request None)) = 10) /\
  (forall userId tier request g w user,
     (forall n, db_fault env n = None) ->
     users w !! userId = Some user ->
     g_credits g <= 10 ->
     quota_decision env (createContext userId tier request None) g w
       = Ret ({| qr_success := true; qr_message := None; qr_remaining := None |},
              set_status g Processing)).
Proof.
  split; [| split].
  - intros context g w1 w2 Hops Hdom.
    rewrite !quota_decision_decided, Hops.
    rewrite (bool_decide_ext _ _ Hdom). reflexivity.
  - intros userId tier request. reflexivity.
  - intros userId tier request g w user Hfault Huser Hcredits.
    rewrite quota_decision_decided. unfold decided.
    cbn [createContext c_quotaInfo q_remaining c_userId default].
    rewrite !Hfault, Huser.
    destruct (10 <? g_credits g) eqn:Hlt; [apply Z.ltb_lt in Hlt; lia |].
    rewrite bool_decide_eq_true_2 by eauto. reflexivity.
Qed.

(** C10, witness: alice with a recorded usage of 0 and of 1000. *)
Lemma quota_decision_ignores_usage_witness :
  quota_decision (sample_env no_fault immediate stored) (alice_context 10)
    pending_document start
  = quota_decision (sample_env no_fault immediate stored) (alice_context 10)
      pending_document (with_users (insert "alice" (charged alice 1000)) start) /\
  quota_decision (sample_env no_fault immediate stored)
    (createContext "alice" Free red_circle None) pending_document
    (with_users (insert "alice" (charged alice 1000)) start)
  = Ret ({| qr_success := true; qr_message := None; qr_remaining := None |},
         set_status pending_document Processing).
Proof.
  split.
  - apply (proj1 (quota_decision_ignores_usage (sample_env no_fault immediate stored))).
    + reflexivity.
    + split; intros _; vm_compute; eauto.
  - apply (proj2 (proj2 (quota_decision_ignores_usage
                           (sample_env no_fault immediate stored)))
             "alice" Free red_circle pending_document
             (with_users (insert "alice" (charged alice 1000)) start)
             (charged alice 1000)).
    + intros n. reflexivity.
    + vm_compute. reflexivity.
    + vm_compute. discriminate.
Defined.

(** C6, witness: the documents written for the attempt of alice. *)
Lemma output_invariant_witness :
  records_ok start /\
  records_ok (snd (call (sample_env no_fault immediate stored)
                     (CallTextToImage (alice_context 10)) start)) /\
  records_ok (snd (controller_textToImage (sample_env no_fault immediate stored)
                     (alice_request None) start)).
Proof.
  assert (Hstart : records_ok start) by (split; constructor).
  split; [exact Hstart |]. split.
  - apply (proj1 (output_invariant (sample_env no_fault immediate stored))). exact Hstart.
  - apply (proj2 (output_invariant (sample_env no_fault immediate stored))). exact Hstart.
Defined.

(** * Further properties of the code *)

Lemma data_kept_refl w : data_kept w w.
Proof. repeat split. Qed.

Lemma data_kept_trans a b c : data_kept a b -> data_kept b c -> data_kept a c.
Proof. unfold data_kept. intros (? & ? & ?) (? & ? & ?). repeat split; congruence. Qed.

Lemma same_store_data {A} (m : M A) : keeps same_store m -> keeps data_kept m.
Proof. intros H w. destruct (H w) as (? & ? & ? & _). repeat split; assumption. Qed.

Create HintDb data discriminated.

Ltac data_frame := keeps_combinators data_kept_refl data_kept_trans; eauto with data.

(** ** Requests that the validation always rejects *)

Section Unoffered.
Variable env : Env.

Lemma findByClerkId_data clerkId : keeps data_kept (findByClerkId env clerkId).
Proof.
  intros w. unfold findByClerkId, db_op.
  destruct (db_fault env (dbops w)); repeat split.
Qed.

Hint Resolve findByClerkId_data : data.

Lemma validateGenerationContext_data context :
  keeps data_kept (validateGenerationContext env context).
Proof. unfold validateGenerationContext. data_frame. Qed.

(** The validation throws when the quality is not offered. *)
Lemma validateGenerationContext_unoffered context w :
  quality_offered context = false ->
  exists e, fst (validateGenerationContext env context w) = Throw e.
Proof.
  unfold quality_offered. intros Hq.
  unfold validateGenerationContext, bind, findByClerkId, db_op.
  destruct (db_fault env (dbops w)); [eexists; reflexivity |].
  cbv zeta. cbn [fst snd].
  destruct (users (tick_dbops w) !! c_userId context) as [u |]; [| eexists; reflexivity].
  destruct (negb (u_isActive u)); [eexists; reflexivity |].
  destruct (negb (c_subscriptionActive context) && _); [eexists; reflexivity |].
  destruct (is_blank _); [eexists; reflexivity |].
  destruct (2000 <? _); [eexists; reflexivity |].
  rewrite Hq. eexists; reflexivity.
Qed.

(** So the steps that open a job throw, having touched neither the data
    nor the provider. *)
Lemma opening_unoffered context type checks w :
  quality_offered context = false ->
  keeps same_store checks -> keeps same_calls checks ->
  exists e w1,
    opening env context type checks w = (Throw e, w1) /\
    data_kept w w1 /\ same_calls w w1.
Proof.
  intros Hq Hstore Hcalls. unfold opening, bind.
  pose proof (same_store_data _ Hstore w) as D0.
  pose proof (Hcalls w) as C0.
  destruct (checks w) as [[[] | e0] w0]; cbn [snd] in D0, C0.
  2:{ eexists _, _. split; [reflexivity |]. split; assumption. }
  destruct (validateGenerationContext_unoffered context w0 Hq) as [e He].
  pose proof (validateGenerationContext_data context w0) as D1.
  pose proof (validateGenerationContext_calls env context w0) as C1.
  destruct (validateGenerationContext env context w0) as [o w1].
  cbn [fst snd] in He, D1, C1. subst o.
  eexists _, _. split; [reflexivity |]. split.
  - eapply data_kept_trans; eassumption.
  - eapply same_calls_trans; eassumption.
Qed.

(** The job of such a call fails in its opening steps. *)
Lemma call_unoffered c w :
  quality_offered (call_context c) = false ->
  exists error w',
    call env c w = (Ret (Failure error), w') /\
    data_kept w w' /\ same_calls w w'.
Proof.
  intros Hq. rewrite call_run_job.
  destruct (opening_unoffered (call_context c) (call_type c) (call_checks env c) w Hq
              (call_checks_store env c) (call_checks_calls env c))
    as (e & w1 & Hopen & D & C).
  unfold run_job. fold (opening env (call_context c) (call_type c) (call_checks env c)).
  erewrite bind_ret_eq by (apply attempt_eq; exact Hopen).
  cbn [job_failed]. unfold failure_of.
  eexists _, _. split; [reflexivity |]. split; assumption.
Qed.
End Unoffered.

(** X1: a job whose request asks for a quality that is not offered to its
    tier (a request that names no quality is one) always returns a failure,
    whatever the entry point; no document is created, no user is charged and
    the provider and the media store are not called. *)
Theorem unoffered_quality_rejected (env : Env) (c : ImageCall) (w : World) :
  quality_offered (call_context c) = false ->
  (exists error, fst (call env c w) = Ret (Failure error)) /\
  data_kept w (snd (call env c w)) /\
  same_calls w (snd (call env c w)).
Proof.
  intros Hq.
  destruct (call_unoffered env c w Hq) as (error & w' & Hcall & D & C).
  rewrite Hcall. cbn [fst snd]. split; [eexists; reflexivity |]. split; assumption.
Qed.

(** X1, witness: a free user asks for the [hd] quality. *)
Lemma unoffered_quality_rejected_witness :
  (exists error,
     fst (call (sample_env no_fault immediate stored) (CallTextToImage alice_hd_context)
            start) = Ret (Failure error)) /\
  submits (snd (call (sample_env no_fault immediate stored)
                  (CallTextToImage alice_hd_context) start)) = 0%nat.
Proof.
  destruct (unoffered_quality_rejected (sample_env no_fault immediate stored)
              (CallTextToImage alice_hd_context) start) as (Hr & _ & Hc).
  - reflexivity.
  - split; [exact Hr |]. destruct Hc as (Hs & _). rewrite Hs. reflexivity.
Defined.

(** ** The endpoints that take uploaded images *)

Section UploadEndpointsRefuse.
Variable env : Env.
Variable readFileSync : string -> Outcome string.

(** What the endpoints do once the files are read: the job fails, its
    summary is saved and the failure is answered with status 400. *)
Lemma upload_job_refused c userId type prompt fallback w :
  quality_offered (call_context c) = false ->
  exists response w',
    (let* result := call env c in
     saveGenerationHistory env userId type prompt result None ;;
     ret (result_response result fallback)) w = (Ret response, w') /\
    status response = 400 /\
    field "success" (body response) = Some (JBool false) /\
    users w' = users w /\ same_calls w w'.
Proof.
  intros Hq.
  destruct (call_unoffered env c w Hq) as (error & w1 & Hcall & (Du & _) & C).
  erewrite bind_ret_eq by exact Hcall.
  erewrite bind_ret_eq by apply saveGenerationHistory_eq.
  eexists _, _. split; [reflexivity |].
  split; [reflexivity |]. split; [reflexivity |].
  pose proof (saveGenerationHistory_users env userId type prompt (Failure error) None w1) as U.
  pose proof (saveGenerationHistory_calls env userId type prompt (Failure error) None w1) as C1.
  split.
  - unfold users_kept in U. congruence.
  - eapply same_calls_trans; eassumption.
Qed.

Lemma refused_at_once code message (handler : M HttpResponse) w :
  handler w = (Ret (plain_response code message), w) ->
  code = 400 \/ code = 401 \/ code = 500 ->
  refused handler w.
Proof.
  intros H Hcode. exists (plain_response code message). rewrite H.
  split; [reflexivity |]. split; [exact Hcode |]. split; [reflexivity |].
  split; [reflexivity | apply same_calls_refl].
Qed.

Lemma refused_job (handler : M HttpResponse) w response w' :
  handler w = (Ret response, w') ->
  status response = 400 ->
  field "success" (body response) = Some (JBool false) ->
  users w' = users w -> same_calls w w' ->
  refused handler w.
Proof.
  intros H S F U C. exists response. rewrite H. cbn [fst snd]. auto 6.
Qed.

Lemma read_all_world files w : snd (read_all readFileSync files w) = w.
Proof.
  revert w. induction files as [| file rest IH]; intros w; [reflexivity |].
  simpl. unfold bind.
  destruct (readFileSync (file_path file)) as [data | e]; simpl; [| reflexivity].
  specialize (IH w). destruct (read_all readFileSync rest w) as [[others | e] w1];
    simpl in *; assumption.
Qed.

Lemma controller_imageToImage_refused req w :
  refused (controller_imageToImage env readFileSync req) w.
Proof.
  unfold controller_imageToImage.
  destruct (truthy (ureq_userId req)); cbn [negb].
  2:{ eapply refused_at_once; [reflexivity | auto]. }
  destruct (ureq_file req) as [sourceImage |].
  2:{ eapply refused_at_once; [reflexivity | auto]. }
  destruct (ureq_prompt req) as [prompt |].
  2:{ eapply refused_at_once; [reflexivity | auto]. }
  cbv zeta.
  destruct (readFileSync (file_path sourceImage)) as [imageBuffer | e] eqn:Hread.
  2:{ eapply refused_at_once; [| auto].
      erewrite try_catch_throw_eq; [reflexivity |].
      erewrite bind_throw_eq; reflexivity. }
  set (context := createContext _ _ _ _).
  destruct (upload_job_refused (CallImageToImage context imageBuffer)
              (or_lit (ureq_userId req) "") ImageToImage prompt
              "Image generation failed" w) as (response & w' & Hrun & S & F & U & C);
    [reflexivity |].
  eapply refused_job; [| exact S | exact F | exact U | exact C].
  erewrite try_catch_ret_eq; [reflexivity |].
  erewrite bind_ret_eq by reflexivity.
  exact Hrun.
Qed.

Lemma controller_refineImage_refused req w :
  refused (controller_refineImage env readFileSync req) w.
Proof.
  unfold controller_refineImage.
  destruct (truthy (ureq_userId req)); cbn [negb].
  2:{ eapply refused_at_once; [reflexivity | auto]. }
  destruct (ureq_file req) as [sourceImage |].
  2:{ eapply refused_at_once; [reflexivity | auto]. }
  cbv zeta.
  destruct (readFileSync (file_path sourceImage)) as [imageBuffer | e] eqn:Hread.
  2:{ eapply refused_at_once; [| auto].
      erewrite try_catch_throw_eq; [reflexivity |].
      erewrite bind_throw_eq; reflexivity. }
  set (context := createContext _ _ _ _).
  destruct (upload_job_refused (CallRefine context imageBuffer)
              (or_lit (ureq_userId req) "") Refine (default "" (ureq_prompt req))
              "Image refinement failed" w) as (response & w' & Hrun & S & F & U & C);
    [reflexivity |].
  eapply refused_job; [| exact S | exact F | exact U | exact C].
  erewrite try_catch_ret_eq; [reflexivity |].
  erewrite bind_ret_eq by reflexivity.
  exact Hrun.
Qed.

Lemma controller_multiImageComposition_refused req w :
  refused (controller_multiImageComposition env readFileSync req) w.
Proof.
  unfold controller_multiImageComposition.
  destruct (truthy (ureq_userId req)); cbn [negb].
  2:{ eapply refused_at_once; [reflexivity | auto]. }
  destruct (ureq_files req) as [[| file rest] |].
  2:{ destruct (ureq_prompt req) as [prompt |].
      2:{ eapply refused_at_once; [reflexivity | auto]. }
      cbv zeta.
      pose proof (read_all_world (file :: rest) w) as Hw.
      destruct (read_all readFileSync (file :: rest) w) as [[inputImages | e] w0] eqn:Hread;
        cbn [snd] in Hw; subst w0.
      2:{ eapply refused_at_once; [| auto].
          erewrite try_catch_throw_eq; [reflexivity |].
          erewrite bind_throw_eq; [reflexivity | exact Hread]. }
      set (context := createContext _ _ _ _).
      destruct (upload_job_refused (CallMultiImage context inputImages)
                  (or_lit (ureq_userId req) "") MultiImage prompt
                  "Image generation failed" w) as (response & w' & Hrun & S & F & U & C);
        [reflexivity |].
      eapply refused_job; [| exact S | exact F | exact U | exact C].
      erewrite try_catch_ret_eq; [reflexivity |].
      erewrite bind_ret_eq by exact Hread.
      exact Hrun. }
  - eapply refused_at_once; [reflexivity | auto].
  - eapply refused_at_once; [reflexivity | auto].
Qed.
End UploadEndpointsRefuse.

(** X2: the endpoints that transform, compose and refine uploaded images
    never answer with a success.  The request they hand to the orchestrator
    names no quality, which the validation of the job rejects, so whatever
    the request, the store, the files and the collaborators, the answer is a
    refusal with status 400, 401 or 500; no user is charged and the provider
    is not called. *)
Theorem upload_endpoints_never_succeed (env : Env) (readFileSync : string -> Outcome string)
    (req : UploadRequest) (w : World) :
  refused (controller_imageToImage env readFileSync req) w /\
  refused (controller_multiImageComposition env readFileSync req) w /\
  refused (controller_refineImage env readFileSync req) w.
Proof.
  split; [| split].
  - apply controller_imageToImage_refused.
  - apply controller_multiImageComposition_refused.
  - apply controller_refineImage_refused.
Qed.

(** ** What the validation of a context accepts *)

Section Validation.
Variable env : Env.

Lemma validateGenerationContext_accepts context w :
  fst (validateGenerationContext env context w) = Ret tt <->
  db_fault env (dbops w) = None /\
  exists user, users w !! c_userId context = Some user /\ acceptable context user.
Proof.
  unfold acceptable, quality_offered.
  unfold validateGenerationContext, bind, findByClerkId, db_op.
  destruct (db_fault env (dbops w)) as [e |].
  { split; [discriminate | intros [H _]; discriminate]. }
  cbv zeta. cbn [fst snd]. change (users (tick_dbops w)) with (users w).
  destruct (users w !! c_userId context) as [u |].
  2:{ split; [discriminate | intros (_ & user & H & _); discriminate]. }
  destruct (u_isActive u) eqn:Hactive; cbn [negb].
  2:{ split; [discriminate |].
      intros (_ & user & H & Ha & _). injection H as <-. congruence. }
  destruct (c_subscriptionActive context) eqn:Hsub; cbn [negb andb].
  - destruct (is_blank _) eqn:Hblank.
    { split; [discriminate |]. intros (_ & user & _ & _ & _ & Hb & _). discriminate. }
    destruct (2000 <? _) eqn:Hlen.
    { split; [discriminate |]. intros (_ & user & _ & _ & _ & _ & Hl & _).
      apply Z.ltb_lt in Hlen. lia. }
    destruct (quality_available _ _) eqn:Hq; cbn [negb].
    2:{ split; [discriminate |]. intros (_ & user & _ & _ & _ & _ & _ & Hq' & _).
        discriminate. }
    destruct (maxBatchSize _ <? _) eqn:Hbatch.
    { split; [discriminate |]. intros (_ & user & _ & _ & _ & _ & _ & _ & Hb).
      apply Z.ltb_lt in Hbatch. lia. }
    split; [| reflexivity]. intros _. split; [reflexivity |].
    exists u. split; [reflexivity |].
    apply Z.ltb_ge in Hlen. apply Z.ltb_ge in Hbatch. auto 8.
  - destruct (c_subscriptionTier context) eqn:Htier; cbn [tier_name String.eqb negb].
    2,3: split; [discriminate |];
      intros (_ & user & _ & _ & [H | H] & _); discriminate.
    change (String.eqb "free" "free") with true. cbn [negb].
    destruct (is_blank _) eqn:Hblank.
    { split; [discriminate |]. intros (_ & user & _ & _ & _ & Hb & _). discriminate. }
    destruct (2000 <? _) eqn:Hlen.
    { split; [discriminate |]. intros (_ & user & _ & _ & _ & _ & Hl & _).
      apply Z.ltb_lt in Hlen. lia. }
    destruct (quality_available _ _) eqn:Hq; cbn [negb].
    2:{ split; [discriminate |]. intros (_ & user & _ & _ & _ & _ & _ & Hq' & _).
        discriminate. }
    destruct (maxBatchSize _ <? _) eqn:Hbatch.
    { split; [discriminate |]. intros (_ & user & _ & _ & _ & _ & _ & _ & Hb).
      apply Z.ltb_lt in Hbatch. lia. }
    split; [| reflexivity]. intros _. split; [reflexivity |].
    exists u. split; [reflexivity |].
    apply Z.ltb_ge in Hlen. apply Z.ltb_ge in Hbatch. auto 8.
Qed.
End Validation.

Lemma quality_available_upgrade (a b : Tier) quality :
  (tier_rank a <= tier_rank b)%nat ->
  quality_available (availableQualities (getModelCapabilities a)) quality = true ->
  quality_available (availableQualities (getModelCapabilities b)) quality = true.
Proof.
  intros Hle. destruct quality as [q |]; [| discriminate].
  destruct a, b; simpl in Hle; try lia; try (intros H; exact H); simpl;
    destruct (String.eqb q "standard"); simpl; try reflexivity;
    destruct (String.eqb q "hd"); simpl; try reflexivity; try discriminate;
    intros H; exact H || discriminate H.
Qed.

Lemma maxBatchSize_upgrade (a b : Tier) :
  (tier_rank a <= tier_rank b)%nat ->
  maxBatchSize (getModelCapabilities a) <= maxBatchSize (getModelCapabilities b).
Proof. destruct a, b; simpl; lia. Qed.

(** X3: the validation of a context accepts it exactly when the lookup of
    the user succeeds and finds an active user, the subscription is active
    or the tier is free, the prompt is not blank (white space is what
    [trim] removes, the no-break space included) and has at most 2000 UTF-16
    code units, the quality is one that the tier offers, and the batch size,
    if any, is within the limit of the tier. *)
Theorem validation_accepts_exactly (env : Env) (context : GenerationContext) (w : World) :
  fst (validateGenerationContext env context w) = Ret tt <->
  db_fault env (dbops w) = None /\
  exists user, users w !! c_userId context = Some user /\ acceptable context user.
Proof. apply validateGenerationContext_accepts. Qed.

(** A prompt of one no-break space is blank; an accented letter of two
    bytes counts for one code unit and a character outside the basic plane
    for two. *)
Lemma prompts_are_read_as_text :
  is_blank (String (ascii_of_N 194) (String (ascii_of_N 160) "")) = true /\
  js_length (String (ascii_of_N 195) (String (ascii_of_N 169) "")) = 1%nat /\
  js_length (String (ascii_of_N 240)
               (String (ascii_of_N 159)
                  (String (ascii_of_N 152) (String (ascii_of_N 128) "")))) = 2%nat.
Proof. repeat split. Qed.

(** X4: what the validation accepts for a tier, it accepts for every higher
    tier with an active subscription: an upgrade never turns a valid request
    into an invalid one. *)
Theorem upgrade_keeps_request_valid (env : Env) (context : GenerationContext)
    (tier : Tier) (w : World) :
  (tier_rank (c_subscriptionTier context) <= tier_rank tier)%nat ->
  fst (validateGenerationContext env context w) = Ret tt ->
  fst (validateGenerationContext env (upgraded context tier) w) = Ret tt.
Proof.
  intros Hle H.
  apply validateGenerationContext_accepts in H as (Hdb & user & Huser & Hok).
  apply validateGenerationContext_accepts. split; [exact Hdb |].
  exists user. split; [exact Huser |].
  destruct Hok as (Ha & _ & Hb & Hl & Hq & Hbatch).
  unfold acceptable, quality_offered in *. cbn [upgraded c_subscriptionActive
    c_subscriptionTier c_request].
  split; [exact Ha |]. split; [left; reflexivity |].
  split; [exact Hb |]. split; [exact Hl |]. split.
  - eapply quality_available_upgrade; eassumption.
  - pose proof (maxBatchSize_upgrade _ _ Hle). lia.
Qed.

(** X4, witness: the request of alice, a free user, seen as a pro user. *)
Lemma upgrade_keeps_request_valid_witness :
  fst (validateGenerationContext (sample_env no_fault immediate stored)
         (upgraded (alice_context 10) Pro) start) = Ret tt.
Proof.
  apply (upgrade_keeps_request_valid (sample_env no_fault immediate stored)
           (alice_context 10) Pro start).
  - simpl. lia.
  - reflexivity.
Defined.

(** ** The pace of the poll loops *)

Section Pace.
Variable env : Env.

Lemma paced_none (polled : World -> nat) w : paced polled w w 0.
Proof.
  unfold paced. simpl. rewrite Nat.add_0_r, app_nil_r. repeat split; lia.
Qed.

Lemma pollGenerationResult_loop_paced n w :
  exists k,
    (k <= n)%nat /\
    paced polls w (snd (pollGenerationResult_loop env n w)) k /\
    forall r, fst (pollGenerationResult_loop env n w) = Ret r ->
      (1 <= k)%nat /\
      exists data, poll_answer env (polls w + k - 1) = HttpOk data /\
                   is_completed (pb_status data) = true.
Proof.
  revert w. induction n as [| n IH]; intros w.
  - exists 0%nat. split; [lia |]. split; [apply paced_none |].
    intros r Hr. discriminate Hr.
  - assert (Hone : paced polls w (tick_polls (with_sleep 2000 w)) 1).
    { unfold paced. simpl. repeat split; lia. }
    assert (Hlast : (polls w + 1 - 1 = polls w)%nat) by lia.
    remember (pollGenerationResult_loop env (S n) w) as res eqn:Hres.
    cbn [pollGenerationResult_loop] in Hres.
    unfold bind, sleep, get_poll in Hres.
    change (polls (with_sleep 2000 w)) with (polls w) in Hres.
    destruct (poll_answer env (polls w)) as [e | status text | data] eqn:Hanswer;
      cbn [fetched] in Hres; unfold throw, ret in Hres.
    1,2: subst res; exists 1%nat; split; [lia |]; split;
      [exact Hone | intros r Hr; discriminate Hr].
    destruct (is_completed (pb_status data)) eqn:Hdone.
    { exists 1%nat. split; [lia |]. split.
      - destruct (pb_generated data); [destruct (truthy (pb_image_url data)) |];
          subst res; exact Hone.
      - intros r _. split; [lia |]. exists data. rewrite Hlast. auto. }
    destruct (is_failed (pb_status data)).
    { subst res. exists 1%nat. split; [lia |]. split;
        [exact Hone | intros r Hr; discriminate Hr]. }
    destruct (IH (tick_polls (with_sleep 2000 w))) as (k & Hk & (Hp & Hs & Ht) & Hret).
    subst res.
    exists (S k). split; [lia |]. split.
    + unfold paced. rewrite Hp, Hs, Ht. simpl polls. simpl sleeps. simpl now.
      rewrite <- app_assoc. simpl. repeat split; lia.
    + intros r Hr. destruct (Hret r Hr) as (Hpos & data' & Hd & Hc).
      split; [lia |]. exists data'. split; [| exact Hc].
      rewrite <- Hd. f_equal. simpl. lia.
Qed.

Lemma pollVideoGenerationResult_loop_paced taskId n w :
  exists k,
    (k <= n)%nat /\
    paced video_polls w (snd (pollVideoGenerationResult_loop env taskId n w)) k /\
    forall r, fst (pollVideoGenerationResult_loop env taskId n w) = Ret r ->
      (1 <= k)%nat /\
      exists data, video_poll_answer env (video_polls w + k - 1) = HttpOk data /\
                   is_completed (vb_status data) = true.
Proof.
  revert w. induction n as [| n IH]; intros w.
  - exists 0%nat. split; [lia |]. split; [apply paced_none |].
    intros r Hr. discriminate Hr.
  - assert (Hone : paced video_polls w (tick_video_polls (with_sleep 2000 w)) 1).
    { unfold paced. simpl. repeat split; lia. }
    assert (Hlast : (video_polls w + 1 - 1 = video_polls w)%nat) by lia.
    remember (pollVideoGenerationResult_loop env taskId (S n) w) as res eqn:Hres.
    cbn [pollVideoGenerationResult_loop] in Hres.
    unfold bind, sleep, get_video_poll in Hres.
    change (video_polls (with_sleep 2000 w)) with (video_polls w) in Hres.
    destruct (video_poll_answer env (video_polls w)) as [e | status text | data] eqn:Hanswer;
      cbn [fetched] in Hres; unfold throw, ret in Hres.
    1,2: subst res; exists 1%nat; split; [lia |]; split;
      [exact Hone | intros r Hr; discriminate Hr].
    destruct (is_completed (vb_status data)) eqn:Hdone.
    { exists 1%nat. split; [lia |]. split.
      - destruct (truthy (vb_video data)); subst res; exact Hone.
      - intros r _. split; [lia |]. exists data. rewrite Hlast. auto. }
    destruct (is_failed (vb_status data)).
    { subst res. exists 1%nat. split; [lia |]. split;
        [exact Hone | intros r Hr; discriminate Hr]. }
    destruct (IH (tick_video_polls (with_sleep 2000 w)))
      as (k & Hk & (Hp & Hs & Ht) & Hret).
    subst res.
    exists (S k). split; [lia |]. split.
    + unfold paced. rewrite Hp, Hs, Ht. simpl video_polls. simpl sleeps. simpl now.
      rewrite <- app_assoc. simpl. repeat split; lia.
    + intros r Hr. destruct (Hret r Hr) as (Hpos & data' & Hd & Hc).
      split; [lia |]. exists data'. split; [| exact Hc].
      rewrite <- Hd. f_equal. simpl. lia.
Qed.
End Pace.

(** X5: whatever the provider answers, a poll loop makes at most
    [maxAttempts] polls (30 for an image and 60 for a video when the caller
    gives none), waits 2000 ms before each of them, and returns a result
    only if the last poll it made reported a completed task. *)
Theorem poll_loops_are_paced (env : Env) :
  (forall maxAttempts w, exists k,
     (k <= default 30 maxAttempts)%nat /\
     paced polls w (snd (pollGenerationResult env maxAttempts w)) k /\
     forall r, fst (pollGenerationResult env maxAttempts w) = Ret r ->
       (1 <= k)%nat /\
       exists data, poll_answer env (polls w + k - 1) = HttpOk data /\
                    is_completed (pb_status data) = true) /\
  (forall taskId maxAttempts w, exists k,
     (k <= default 60 maxAttempts)%nat /\
     paced video_polls w (snd (pollVideoGenerationResult env taskId maxAttempts w)) k /\
     forall r, fst (pollVideoGenerationResult env taskId maxAttempts w) = Ret r ->
       (1 <= k)%nat /\
       exists data, video_poll_answer env (video_polls w + k - 1) = HttpOk data /\
                    is_completed (vb_status data) = true).
Proof.
  split.
  - intros maxAttempts w. apply pollGenerationResult_loop_paced.
  - intros taskId maxAttempts w. apply pollVideoGenerationResult_loop_paced.
Qed.

(** ** The errors that leave the provider client *)

Lemma throws_ret {A} (a : A) e : ~ throws (ret a) e.
Proof. intros (w & w' & H). discriminate H. Qed.

Lemma throws_throw {A} e0 e : throws (@throw A e0) e -> e = e0.
Proof. intros (w & w' & H). injection H as -> _. reflexivity. Qed.

Lemma throws_bind {A B} (m : M A) (k : A -> M B) e :
  throws (bind m k) e -> throws m e \/ exists a, throws (k a) e.
Proof.
  intros (w & w' & H). unfold bind in H.
  destruct (m w) as [[a | e0] w1] eqn:Hm.
  - right. exists a, w1, w'. exact H.
  - left. injection H as <- <-. exists w, w1. exact Hm.
Qed.

Lemma throws_try_catch {A} (m : M A) (h : Exn -> M A) e :
  throws (try_catch m h) e -> exists e0, throws m e0 /\ throws (h e0) e.
Proof.
  intros (w & w' & H). unfold try_catch in H.
  destruct (m w) as [[a | e0] w1] eqn:Hm; [discriminate H |].
  exists e0. split; [exists w, w1; exact Hm | exists w1, w'; exact H].
Qed.

Lemma throws_fetched {A} (f : Fetched A) e : throws (fetched f) e -> f = NetworkError e.
Proof.
  intros (w & w' & H). destruct f as [e0 | status text | data]; try discriminate H.
  injection H as -> _. reflexivity.
Qed.

Lemma coded_here codes m s code :
  In code codes -> coded codes (AppError m (Some s) (Lit code)).
Proof. intros H. exists m, s, code. split; [reflexivity | exact H]. Qed.

(** [handleFreepikError] hands an [AppError] on and gives a code to any
    other error. *)
Lemma handleFreepikError_coded codes e :
  plain_error e \/ coded codes e ->
  coded (codes ++ handled_codes) (handleFreepikError e).
Proof.
  intros [(m & c & ->) | H].
  - unfold handleFreepikError. cbv zeta.
    destruct (includes "API key" _);
      [apply coded_here; apply in_or_app; right; simpl; tauto |].
    destruct (includes "quota" _ || includes "limit" _);
      [apply coded_here; apply in_or_app; right; simpl; tauto |].
    destruct (includes "timeout" _);
      apply coded_here; apply in_or_app; right; simpl; tauto.
  - destruct H as (m & s & code & -> & Hin). simpl.
    apply coded_here. apply in_or_app. left. exact Hin.
Qed.

Section ProviderErrors.
Variable env : Env.

Lemma throws_sleep ms e : ~ throws (sleep ms) e.
Proof. intros (w & w' & H). discriminate H. Qed.

Lemma uploadToCloudinary_never_throws imageUrl e :
  ~ throws (uploadToCloudinary env imageUrl) e.
Proof.
  intros (w & w' & H).
  destruct (uploadToCloudinary_returns env imageUrl w) as [a Ha].
  rewrite H in Ha. discriminate Ha.
Qed.

Lemma pollGenerationResult_loop_throws n e :
  plain_rejection (poll_answer env) ->
  throws (pollGenerationResult_loop env n) e ->
  plain_error e \/ coded image_codes e.
Proof.
  intros Hplain. induction n as [| n IH]; cbn [pollGenerationResult_loop]; intros H.
  - apply throws_throw in H as ->. right. apply coded_here. simpl. tauto.
  - apply throws_bind in H as [H | [[] H]]; [destruct (throws_sleep _ _ H) |].
    apply throws_bind in H as [H | [response H]].
    + destruct H as (w & w' & H). unfold get_poll in H.
      left. eapply Hplain. eapply throws_fetched. exists (tick_polls w), w'. exact H.
    + destruct response as [[status text] | data].
      { apply throws_throw in H as ->. right. apply coded_here. simpl. tauto. }
      destruct (is_completed (pb_status data)).
      { destruct (pb_generated data); [destruct (truthy (pb_image_url data)) |].
        - destruct (throws_ret _ _ H).
        - apply throws_throw in H as ->. right. apply coded_here. simpl. tauto.
        - destruct (throws_ret _ _ H). }
      destruct (is_failed (pb_status data)).
      { apply throws_throw in H as ->. right. apply coded_here. simpl. tauto. }
      apply IH. exact H.
Qed.

Lemma submitted_url_throws responseData e :
  plain_rejection (poll_answer env) ->
  throws (submitted_url env responseData) e ->
  plain_error e \/ coded image_codes e.
Proof.
  intros Hplain H. unfold submitted_url in H.
  destruct (truthy (sb_image_url responseData)); [destruct (throws_ret _ _ H) |].
  destruct (truthy (sb_task responseData)).
  - apply throws_bind in H as [H | [generationData H]].
    + eapply pollGenerationResult_loop_throws; eassumption.
    + destruct (truthy (polled_url generationData)); [destruct (throws_ret _ _ H) |].
      apply throws_throw in H as ->. right. apply coded_here. simpl. tauto.
  - apply throws_throw in H as ->. right. apply coded_here. simpl. tauto.
Qed.

Lemma textToImage_throws request e :
  plain_rejection (submit_answer env) -> plain_rejection (poll_answer env) ->
  throws (textToImage env request) e ->
  coded (image_codes ++ handled_codes) e.
Proof.
  intros Hsubmit Hpoll H. unfold textToImage in H.
  apply throws_try_catch in H as (e0 & H0 & H).
  apply throws_throw in H as ->. apply handleFreepikError_coded.
  apply throws_bind in H0 as [H0 | [response H0]].
  - destruct H0 as (w & w' & H0). unfold post_submit in H0.
    left. eapply Hsubmit. eapply throws_fetched. exists (tick_submits w), w'. exact H0.
  - destruct response as [[status text] | responseData].
    { apply throws_throw in H0 as ->. right. apply coded_here. simpl. tauto. }
    apply throws_bind in H0 as [H0 | [imageUrl H0]].
    + eapply submitted_url_throws; eassumption.
    + apply throws_bind in H0 as [H0 | [asset H0]].
      * destruct (uploadToCloudinary_never_throws _ _ H0).
      * destruct (throws_ret _ _ H0).
Qed.

Lemma pollVideoGenerationResult_loop_throws taskId n e :
  plain_rejection (video_poll_answer env) ->
  throws (pollVideoGenerationResult_loop env taskId n) e ->
  plain_error e \/ coded video_codes e.
Proof.
  intros Hplain. induction n as [| n IH]; cbn [pollVideoGenerationResult_loop]; intros H.
  - apply throws_throw in H as ->. right. apply coded_here. simpl. tauto.
  - apply throws_bind in H as [H | [[] H]]; [destruct (throws_sleep _ _ H) |].
    apply throws_bind in H as [H | [response H]].
    + destruct H as (w & w' & H). unfold get_video_poll in H.
      left. eapply Hplain. eapply throws_fetched.
      exists (tick_video_polls w), w'. exact H.
    + destruct response as [[status text] | data].
      { apply throws_throw in H as ->. right. apply coded_here. simpl. tauto. }
      destruct (is_completed (vb_status data)).
      { destruct (truthy (vb_video data)); [destruct (throws_ret _ _ H) |].
        apply throws_throw in H as ->. right. apply coded_here. simpl. tauto. }
      destruct (is_failed (vb_status data)).
      { apply throws_throw in H as ->. right. apply coded_here. simpl. tauto. }
      apply IH. exact H.
Qed.

(** Whatever goes wrong with the source image, one of four codes is given. *)
Lemma video_source_throws imageUrl e :
  throws (video_source env imageUrl) e -> coded video_codes e.
Proof.
  unfold video_source. intros H.
  destruct (String.prefix "data:image" imageUrl).
  - apply throws_try_catch in H as (e0 & _ & H).
    apply throws_throw in H as ->. apply coded_here. simpl. tauto.
  - apply throws_try_catch in H as (e0 & H0 & H).
    destruct (probe_answer env imageUrl) as [| ok status statusText contentType].
    + apply throws_throw in H0 as ->. apply throws_throw in H as ->.
      apply coded_here. simpl. tauto.
    + destruct (negb ok).
      { apply throws_throw in H0 as ->. apply throws_throw in H as ->.
        apply coded_here. simpl. tauto. }
      destruct (negb (String.prefix "image/" (or_lit contentType ""))).
      { apply throws_throw in H0 as ->. apply throws_throw in H as ->.
        apply coded_here. simpl. tauto. }
      destruct (throws_ret _ _ H0).
Qed.

Lemma imageToVideo_throws imageUrl e :
  plain_rejection (video_submit_answer env) -> plain_rejection (video_poll_answer env) ->
  throws (imageToVideo env imageUrl) e ->
  coded (video_codes ++ handled_codes) e.
Proof.
  intros Hsubmit Hpoll H. unfold imageToVideo in H.
  apply throws_try_catch in H as (e0 & H0 & H).
  apply throws_throw in H as ->. apply handleFreepikError_coded.
  destruct (String.eqb (apiKey env) "").
  { apply throws_throw in H0 as ->. right. apply coded_here. simpl. tauto. }
  destruct (String.eqb imageUrl "").
  { apply throws_throw in H0 as ->. right. apply coded_here. simpl. tauto. }
  apply throws_bind in H0 as [H0 | [source H0]].
  { right. eapply video_source_throws. exact H0. }
  apply throws_bind in H0 as [H0 | [response H0]].
  - destruct H0 as (w & w' & H0). unfold post_video in H0.
    left. eapply Hsubmit. eapply throws_fetched.
    exists (tick_video_submits w), w'. exact H0.
  - destruct response as [[status text] | task].
    { apply throws_throw in H0 as ->. right. apply coded_here. simpl. tauto. }
    destruct (negb (truthy task)).
    { apply throws_throw in H0 as ->. right. apply coded_here. simpl. tauto. }
    cbv zeta in H0.
    apply throws_bind in H0 as [H0 | [videoResult H0]].
    + eapply pollVideoGenerationResult_loop_throws; eassumption.
    + destruct (throws_ret _ _ H0).
Qed.

Lemma generateVideo_throws_coded imageUrl e :
  plain_rejection (video_submit_answer env) -> plain_rejection (video_poll_answer env) ->
  throws (generateVideo env imageUrl) e ->
  coded (video_codes ++ handled_codes) e.
Proof.
  intros Hsubmit Hpoll H. unfold generateVideo in H.
  apply throws_try_catch in H as (e0 & H0 & H).
  assert (Hcoded : coded (video_codes ++ handled_codes) e0).
  { destruct (String.eqb imageUrl "").
    { apply throws_throw in H0 as ->. apply coded_here. simpl. tauto. }
    apply throws_bind in H0 as [H0 | [videoResult H0]].
    - eapply imageToVideo_throws; eassumption.
    - destruct (negb (truthy (vr_videoUrl videoResult))).
      + apply throws_throw in H0 as ->. apply coded_here. simpl. tauto.
      + destruct (throws_ret _ _ H0). }
  destruct Hcoded as (m & s & code & -> & Hin).
  apply throws_throw in H as ->. apply coded_here. exact Hin.
Qed.
End ProviderErrors.

(** X6: when the rejections of [fetch] are plain errors, every error that
    leaves [textToImage] or [imageToImage] of the provider client is an
    [AppError] with a status and one of eleven codes: the seven that the
    generation builds and the four that [handleFreepikError] gives to other
    errors.  A failure of the media store is never among them. *)
Theorem image_generation_error_codes (env : Env) (request : GenerationRequest) (e : Exn) :
  plain_rejection (submit_answer env) -> plain_rejection (poll_answer env) ->
  throws (textToImage env request) e \/ throws (imageToImage env request) e ->
  coded (image_codes ++ handled_codes) e.
Proof.
  intros Hsubmit Hpoll [H | H]; eapply textToImage_throws; eassumption.
Qed.

(** X7: when the rejections of [fetch] are plain errors, every error that
    leaves [imageToVideo] of the provider client or [generateVideo] of the
    orchestrator is an [AppError] with a status and one of sixteen codes;
    a failed upload of an inline image is reported as [BASE64_UPLOAD_FAILED],
    never as [CLOUDINARY_UPLOAD_FAILED]. *)
Theorem video_generation_error_codes (env : Env) (imageUrl : string) (e : Exn) :
  plain_rejection (video_submit_answer env) -> plain_rejection (video_poll_answer env) ->
  throws (imageToVideo env imageUrl) e \/ throws (generateVideo env imageUrl) e ->
  coded (video_codes ++ handled_codes) e /\
  forall m s, e <> AppError m s (Lit "CLOUDINARY_UPLOAD_FAILED").
Proof.
  intros Hsubmit Hpoll H.
  assert (Hcoded : coded (video_codes ++ handled_codes) e).
  { destruct H as [H | H];
      [eapply imageToVideo_throws | eapply generateVideo_throws_coded]; eassumption. }
  split; [exact Hcoded |].
  destruct Hcoded as (m & s & code & -> & Hin). intros m' s' Heq.
  injection Heq as _ _ ->. simpl in Hin.
  repeat (destruct Hin as [Hin | Hin]; [discriminate Hin |]). exact Hin.
Qed.

(** X6, witness: the provider answers the submission with a 503. *)
Lemma image_generation_error_codes_witness :
  coded (image_codes ++ handled_codes)
    (AppError "Freepik API error: Service Unavailable" (Some 503)
       (Lit "FREEPIK_API_ERROR")).
Proof.
  apply (image_generation_error_codes (sample_env no_fault unavailable stored) red_circle).
  - intros n e H. discriminate H.
  - intros n e H. discriminate H.
  - left. exists start. eexists. vm_compute. reflexivity.
Defined.

(** X7, witness: a video task that never completes. *)
Lemma video_generation_error_codes_witness :
  coded (video_codes ++ handled_codes) video_timeout /\
  forall m s, video_timeout <> AppError m s (Lit "CLOUDINARY_UPLOAD_FAILED").
Proof.
  apply (video_generation_error_codes (sample_env no_fault queued stored)
           "https://x/cat.png").
  - intros n e H. discriminate H.
  - intros n e H. discriminate H.
  - left. exists start. eexists. vm_compute. reflexivity.
Defined.

(** ** What a successful generation returns *)

Lemma truthy_or_lit o : truthy o = true -> or_lit o "" <> "".
Proof.
  destruct o as [s |]; [| discriminate]. simpl.
  destruct (String.eqb_spec s ""); [discriminate | auto].
Qed.

Lemma try_catch_ret_inv {A} (m : M A) (h : Exn -> M A) w a w' :
  try_catch m h w = (Ret a, w') ->
  m w = (Ret a, w') \/ exists e w1, m w = (Throw e, w1) /\ h e w1 = (Ret a, w').
Proof.
  unfold try_catch. destruct (m w) as [[a0 | e] w1]; intros H.
  - left. exact H.
  - right. exists e, w1. split; [reflexivity | exact H].
Qed.

Section Assets.
Variable env : Env.

(** [uploadToCloudinary]: one download at most, then one upload at most,
    and an asset whose two URLs agree and are usable. *)
Lemma uploadToCloudinary_asset imageUrl w :
  exists asset,
    uploadToCloudinary env imageUrl w
      = (Ret asset, snd (uploadToCloudinary env imageUrl w)) /\
    ua_secureUrl asset = ua_url asset /\
    (imageUrl <> "" -> ua_url asset <> "") /\
    (ua_url asset = imageUrl \/
     exists r, download_ok env (downloads w) = Ret true /\
               upload_answer env (uploads w) = Ret r /\ cu_success r = true /\
               cu_secureUrl r = Some (ua_url asset)) /\
    downloads (snd (uploadToCloudinary env imageUrl w)) = S (downloads w) /\
    (uploads (snd (uploadToCloudinary env imageUrl w)) = uploads w \/
     download_ok env (downloads w) = Ret true /\
     uploads (snd (uploadToCloudinary env imageUrl w)) = S (uploads w)).
Proof.
  unfold uploadToCloudinary, try_catch, bind, download, uploadImage.
  destruct (download_ok env (downloads w)) as [[|] | e] eqn:Hdown; cbn.
  2,3: eexists; split; [reflexivity |]; cbn; auto 8.
  destruct (upload_answer env (uploads w)) as [r | e] eqn:Hup; cbn.
  2:{ eexists; split; [reflexivity |]; cbn; auto 8. }
  destruct (cu_success r) eqn:Hsuccess; cbn.
  2:{ eexists; split; [reflexivity |]; cbn; auto 8. }
  destruct (truthy (cu_secureUrl r)) eqn:Hurl; cbn.
  2:{ eexists; split; [reflexivity |]; cbn; auto 8. }
  eexists; split; [reflexivity |]; cbn.
  split; [reflexivity |]. split; [intros _; apply truthy_or_lit; exact Hurl |].
  split; [| auto].
  right. exists r. repeat split; try assumption.
  destruct (cu_secureUrl r) as [s |]; [| discriminate]. simpl in *.
  destruct (String.eqb s ""); [discriminate | reflexivity].
Qed.

Lemma submitted_url_submissions responseData :
  keeps submissions_kept (submitted_url env responseData).
Proof.
  assert (Hrefl : forall w, submissions_kept w w) by reflexivity.
  assert (Htrans : forall a b c,
             submissions_kept a b -> submissions_kept b c -> submissions_kept a c).
  { unfold submissions_kept. intros. congruence. }
  assert (Hloop : forall n, keeps submissions_kept (pollGenerationResult_loop env n)).
  { induction n as [| n IH]; simpl; keeps_combinators Hrefl Htrans; auto;
      try (intros w; reflexivity).
    intros w. unfold get_poll. destruct (poll_answer env (polls w)); reflexivity. }
  unfold submitted_url, pollGenerationResult.
  keeps_combinators Hrefl Htrans. apply Hloop.
Qed.

Lemma uploadToCloudinary_submissions imageUrl :
  keeps submissions_kept (uploadToCloudinary env imageUrl).
Proof.
  intros w. unfold uploadToCloudinary, try_catch, bind, download, uploadImage.
  destruct (download_ok env (downloads w)) as [[|] | e]; cbn; try reflexivity.
  destruct (upload_answer env (uploads w)) as [r | e]; cbn; [| reflexivity].
  destruct (negb (cu_success r) || negb (truthy (cu_secureUrl r))); reflexivity.
Qed.

Lemma submitted_url_usable responseData w u w' :
  submitted_url env responseData w = (Ret u, w') -> u <> "".
Proof.
  unfold submitted_url.
  destruct (truthy (sb_image_url responseData)) eqn:Hnow.
  { intros H. injection H as <- _. apply truthy_or_lit. exact Hnow. }
  destruct (truthy (sb_task responseData)); [| discriminate].
  intros H. apply bind_ret_inv in H as (generationData & w1 & _ & H).
  destruct (truthy (polled_url generationData)) eqn:Hpolled; [| discriminate].
  injection H as <- _. apply truthy_or_lit. exact Hpolled.
Qed.

Lemma calculateCreditsUsed_values request :
  calculateCreditsUsed request = 1 \/ calculateCreditsUsed request = 2.
Proof.
  unfold calculateCreditsUsed. destruct (r_quality request) as [q |]; [| auto].
  destruct (String.eqb q "hd"); [auto |]. destruct (String.eqb q "ultra"); auto.
Qed.

Lemma textToImage_returns_usable request w response w' :
  textToImage env request w = (Ret response, w') ->
  exists image url,
    resp_images response = [image] /\
    i_originalUrl image <> "" /\
    i_url image = Some url /\ url <> "" /\
    i_secureUrl image = Some url /\
    i_processingError image = None /\
    (resp_creditsUsed response = 1 \/ resp_creditsUsed response = 2) /\
    submits w' = S (submits w).
Proof.
  unfold textToImage. intros H.
  apply try_catch_ret_inv in H as [H | (e & w1 & _ & H)]; [| discriminate H].
  apply bind_ret_inv in H as (posted & w0 & Hpost & H).
  assert (Hs0 : submits w0 = S (submits w)).
  { unfold post_submit in Hpost.
    destruct (submit_answer env (submits w)); simpl in Hpost; try discriminate;
      injection Hpost as _ <-; reflexivity. }
  destruct posted as [[status text] | responseData]; [discriminate H |].
  apply bind_ret_inv in H as (imageUrl & w2 & Hurl & H).
  pose proof (submitted_url_usable _ _ _ _ Hurl) as Hne.
  destruct (uploadToCloudinary_asset imageUrl w2)
    as (asset & Hup & Hsame & Husable & _).
  erewrite bind_ret_eq in H by exact Hup.
  injection H as <- <-.
  exists (imageData asset imageUrl), (ua_url asset). cbn [resp_images resp_creditsUsed].
  split; [reflexivity |]. split; [exact Hne |].
  assert (Hprimary : (if String.eqb (ua_secureUrl asset) "" then ua_url asset
                      else ua_secureUrl asset) = ua_url asset).
  { rewrite Hsame. destruct (String.eqb (ua_url asset) ""); reflexivity. }
  unfold imageData. cbv zeta. rewrite Hprimary. cbn.
  split; [reflexivity |]. split; [auto |]. split; [reflexivity |].
  split; [reflexivity |]. split; [apply calculateCreditsUsed_values |].
  pose proof (submitted_url_submissions responseData w0) as Hs2.
  rewrite Hurl in Hs2.
  pose proof (uploadToCloudinary_submissions imageUrl w2) as Hs3.
  unfold submissions_kept in *. cbn [snd] in Hs2. congruence.
Qed.
End Assets.

(** X8: [uploadToCloudinary] never throws.  It downloads the generated
    image once and uploads it at most once, and only after a successful
    download; the asset it returns has the same [url] and [secureUrl], which
    is either the secure URL of a successful upload or the URL of the
    provider, and is not empty unless the URL of the provider is. *)
Theorem upload_always_yields_asset (env : Env) (imageUrl : string) (w : World) :
  exists asset,
    uploadToCloudinary env imageUrl w
      = (Ret asset, snd (uploadToCloudinary env imageUrl w)) /\
    ua_secureUrl asset = ua_url asset /\
    (imageUrl <> "" -> ua_url asset <> "") /\
    (ua_url asset = imageUrl \/
     exists r, download_ok env (downloads w) = Ret true /\
               upload_answer env (uploads w) = Ret r /\ cu_success r = true /\
               cu_secureUrl r = Some (ua_url asset)) /\
    downloads (snd (uploadToCloudinary env imageUrl w)) = S (downloads w) /\
    (uploads (snd (uploadToCloudinary env imageUrl w)) = uploads w \/
     download_ok env (downloads w) = Ret true /\
     uploads (snd (uploadToCloudinary env imageUrl w)) = S (uploads w)).
Proof. apply uploadToCloudinary_asset. Qed.

(** X9: when [textToImage] of the provider client returns, it has made
    exactly one submission and returns exactly one image; the image has a
    non-empty [url], equal to its [secureUrl], a non-empty [originalUrl] and
    no processing error, and the credits reported are 1 or 2. *)
Theorem generated_image_is_usable (env : Env) (request : GenerationRequest) (w : World)
    (response : GenerationResponse) :
  fst (textToImage env request w) = Ret response ->
  exists image url,
    resp_images response = [image] /\
    i_originalUrl image <> "" /\
    i_url image = Some url /\ url <> "" /\
    i_secureUrl image = Some url /\
    i_processingError image = None /\
    (resp_creditsUsed response = 1 \/ resp_creditsUsed response = 2) /\
    submits (snd (textToImage env request w)) = S (submits w).
Proof.
  intros H. destruct (textToImage env request w) as [o w'] eqn:Hrun.
  cbn [fst] in H. subst o. cbn [snd].
  eapply textToImage_returns_usable. exact Hrun.
Qed.

(** X9, witness: the provider answers at once and the upload succeeds. *)
Lemma generated_image_is_usable_witness :
  exists response image,
    fst (textToImage (sample_env no_fault immediate stored) red_circle start)
      = Ret response /\
    resp_images response = [image] /\
    i_url image = Some "https://cdn/pid.png".
Proof.
  pose proof (generated_image_is_usable (sample_env no_fault immediate stored)
                red_circle start) as T.
  specialize (T _ ltac:(vm_compute; reflexivity)).
  destruct T as (image & url & Himages & _).
  eexists _, image. split; [vm_compute; reflexivity |].
  split; [exact Himages |].
  cbn in Himages. injection Himages as <-. reflexivity.
Defined.

(** ** The processing of the generated images *)

Section Processing.
Variable env : Env.

Lemma processGeneratedImage_remote image tier w :
  remote image = true ->
  processGeneratedImage env image tier w = (Ret (processed image tier), w).
Proof.
  unfold remote, processGeneratedImage. intros H.
  apply andb_true_iff in H as (Hdata & Hlocal).
  apply negb_true_iff in Hdata, Hlocal. rewrite Hdata, Hlocal. reflexivity.
Qed.

(** One image costs one upload at most. *)
Lemma processGeneratedImage_uploads image tier w :
  (uploads w <= uploads (snd (processGeneratedImage env image tier w))
   <= uploads w + 1)%nat.
Proof.
  unfold processGeneratedImage, try_catch, bind, uploadImage, settle, ret.
  repeat match goal with
         | |- context [truthy ?o] => destruct (truthy o); simpl
         | |- context [includes ?n ?s] => destruct (includes n s); simpl
         | |- context [local_file env ?u] => destruct (local_file env u) as [[|] |]; simpl
         | |- context [upload_answer env ?n] => destruct (upload_answer env n); simpl
         | |- context [cu_success ?r] => destruct (cu_success r); simpl
         | |- context [thumbnail_answer env ?u] => destruct (thumbnail_answer env u); simpl
         end; lia.
Qed.

Lemma processGeneratedImages_all images tier w :
  exists ps,
    processGeneratedImages env images tier w
      = (Ret ps, snd (processGeneratedImages env images tier w)) /\
    map i_originalUrl ps = map i_originalUrl images /\
    (uploads (snd (processGeneratedImages env images tier w))
     <= uploads w + length (filter (fun image => negb (remote image)) images))%nat /\
    (forallb remote images = true ->
     ps = map (fun image => processed image tier) images /\
     snd (processGeneratedImages env images tier w) = w).
Proof.
  revert w. induction images as [| image rest IH]; intros w.
  - exists []. repeat split. simpl. lia.
  - cbn [processGeneratedImages forallb map].
    destruct (processGeneratedImage env image tier w) as [o w1] eqn:Hone.
    destruct (processGeneratedImage_keeps env image tier w o w1 Hone)
      as (p & -> & Horig & _).
    destruct (IH w1) as (ps & Hrest & Hurls & Hcount & Hremote).
    erewrite bind_ret_eq by exact Hone.
    erewrite bind_ret_eq by exact Hrest.
    exists (p :: ps). split; [reflexivity |]. split; [| split].
    + cbn [map]. rewrite Horig, Hurls. reflexivity.
    + cbn [snd]. rewrite filter_cons.
      destruct (remote image) eqn:Himage.
      * rewrite (processGeneratedImage_remote image tier w Himage) in Hone.
        injection Hone as _ <-.
        rewrite decide_False by (simpl; auto). exact Hcount.
      * pose proof (processGeneratedImage_uploads image tier w) as Hup.
        rewrite Hone in Hup. cbn [snd] in Hup.
        rewrite decide_True by (simpl; auto). simpl. lia.
    + intros H. apply andb_true_iff in H as (Himage & Hothers).
      rewrite (processGeneratedImage_remote image tier w Himage) in Hone.
      injection Hone as <- <-.
      destruct (Hremote Hothers) as (-> & Hw).
      split; [reflexivity |]. cbn [snd]. exact Hw.
Qed.
End Processing.

(** X10: [processGeneratedImages] never throws and returns the images in
    their order, one for one, each with the [originalUrl] it came with.  It
    uploads at most once for each image that carries inline data or has a URL
    on [localhost].  When no image is of that kind, which is the case of the
    images of the provider client, it only adds the tier to each image and
    calls nothing: no second upload is made. *)
Theorem processing_keeps_every_image (env : Env) (images : list Image) (tier : Tier)
    (w : World) :
  exists ps,
    processGeneratedImages env images tier w
      = (Ret ps, snd (processGeneratedImages env images tier w)) /\
    map i_originalUrl ps = map i_originalUrl images /\
    (uploads (snd (processGeneratedImages env images tier w))
     <= uploads w + length (filter (fun image => negb (remote image)) images))%nat /\
    (forallb remote images = true ->
     ps = map (fun image => processed image tier) images /\
     snd (processGeneratedImages env images tier w) = w).
Proof. apply processGeneratedImages_all. Qed.

(** ** Compositions and the free tier *)

Section FreeComposition.
Variable env : Env.
Variable readFileSync : string -> Outcome string.

Lemma generateMultiImageComposition_free context inputImages w :
  c_subscriptionTier context = Free ->
  generateMultiImageComposition env context inputImages w
    = (Ret (failure_of (SubscriptionError composition_needs_upgrade)), w).
Proof.
  intros Htier. unfold generateMultiImageComposition, run_job.
  rewrite Htier. reflexivity.
Qed.

Lemma read_all_readable files w :
  Forall (fun file => exists data, readFileSync (file_path file) = Ret data) files ->
  exists inputImages, read_all readFileSync files w = (Ret inputImages, w).
Proof.
  induction 1 as [| file rest (data & Hdata) _ (others & IH)].
  - exists []. reflexivity.
  - exists (data :: others). cbn [read_all].
    erewrite bind_ret_eq by (rewrite Hdata; reflexivity).
    erewrite bind_ret_eq by exact IH. reflexivity.
Qed.

Lemma controller_multiImageComposition_free req w userId prompt file rest :
  ureq_userId req = Some userId -> userId <> "" ->
  ureq_prompt req = Some prompt ->
  ureq_files req = Some (file :: rest) ->
  Forall (fun file => exists data, readFileSync (file_path file) = Ret data)
    (file :: rest) ->
  default Free (ureq_subscriptionStatus req) = Free ->
  fst (controller_multiImageComposition env readFileSync req w)
    = Ret (plain_response 400 composition_needs_upgrade).
Proof.
  intros Hid Hne Hprompt Hfiles Hread Htier.
  unfold controller_multiImageComposition.
  assert (Htruthy : truthy (ureq_userId req) = true).
  { rewrite Hid. simpl. destruct (String.eqb_spec userId ""); [contradiction | reflexivity]. }
  rewrite Htruthy, Hfiles, Hprompt, Htier. cbn [negb]. cbv zeta.
  destruct (read_all_readable (file :: rest) w Hread) as (inputImages & Hall).
  erewrite try_catch_ret_eq; [reflexivity |].
  erewrite bind_ret_eq by exact Hall.
  erewrite bind_ret_eq by (apply generateMultiImageComposition_free; reflexivity).
  erewrite bind_ret_eq by apply saveGenerationHistory_eq.
  reflexivity.
Qed.
End FreeComposition.

(** X11: a composition of images for the free tier is refused before
    anything is done: [generateMultiImageComposition] returns the failure of
    a [SubscriptionError] and leaves the world as it was (no image is
    validated, the store and the provider are not called).  The endpoint
    takes the tier of a request without subscription status to be the free
    one, and then answers with status 400 and the message of that error. *)
Theorem free_tier_cannot_compose (env : Env) (readFileSync : string -> Outcome string) :
  (forall context inputImages w,
     c_subscriptionTier context = Free ->
     exists error,
       generateMultiImageComposition env context inputImages w
         = (Ret (Failure error), w) /\
       e_code error = OfSubscriptionError /\
       e_message error = composition_needs_upgrade) /\
  (forall req w userId prompt file rest,
     ureq_userId req = Some userId -> userId <> "" ->
     ureq_prompt req = Some prompt ->
     ureq_files req = Some (file :: rest) ->
     Forall (fun file => exists data, readFileSync (file_path file) = Ret data)
       (file :: rest) ->
     default Free (ureq_subscriptionStatus req) = Free ->
     fst (controller_multiImageComposition env readFileSync req w)
       = Ret (plain_response 400 composition_needs_upgrade)).
Proof.
  split.
  - intros context inputImages w Htier.
    rewrite generateMultiImageComposition_free by exact Htier.
    eexists. split; [reflexivity |]. split; reflexivity.
  - intros req w userId prompt file rest.
    apply controller_multiImageComposition_free.
Qed.

(** X11, witness: a request without subscription status for a composition
    of two readable files. *)
Lemma free_tier_cannot_compose_witness :
  fst (controller_multiImageComposition (sample_env no_fault immediate stored) readable
         bob_composition start)
    = Ret (plain_response 400 composition_needs_upgrade).
Proof.
  destruct (free_tier_cannot_compose (sample_env no_fault immediate stored) readable)
    as [_ H].
  eapply (H bob_composition start "bob" "blend them").
  - reflexivity.
  - discriminate.
  - reflexivity.
  - reflexivity.
  - repeat constructor; eexists; reflexivity.
  - reflexivity.
Defined.

(** ** Waiting for a video *)

Section Waiting.
Variable env : Env.
Variable axios_get : nat -> Outcome VideoStatus.

Lemma service_getVideoStatus_world w :
  snd (service_getVideoStatus axios_get w) = tick_video_polls w.
Proof.
  unfold service_getVideoStatus.
  destruct (axios_get (video_polls w)) as [data | [m s c | m c]]; reflexivity.
Qed.

Lemma waited_once intervalMs w : waited intervalMs w (tick_video_polls w) 1.
Proof.
  unfold waited. simpl. rewrite app_nil_r. repeat split; lia.
Qed.

Lemma waitForVideoCompletion_loop_waited n intervalMs w :
  exists k,
    (k <= n)%nat /\ (1 <= n -> 1 <= k)%nat /\
    waited intervalMs w (snd (waitForVideoCompletion_loop axios_get n intervalMs w)) k /\
    forall data, fst (waitForVideoCompletion_loop axios_get n intervalMs w) = Ret data ->
      vst_status data = "COMPLETED".
Proof.
  revert w. induction n as [| n IH]; intros w.
  - exists 0%nat. split; [lia |]. split; [lia |]. split.
    + unfold waited. simpl. rewrite Nat.add_0_r, app_nil_r. repeat split; lia.
    + intros data H. discriminate H.
  - remember (waitForVideoCompletion_loop axios_get (S n) intervalMs w) as res eqn:Hres.
    cbn [waitForVideoCompletion_loop] in Hres. unfold bind at 1 in Hres.
    pose proof (service_getVideoStatus_world w) as Hw.
    destruct (service_getVideoStatus axios_get w) as [[data | e] w1];
      cbn [snd] in Hw; subst w1.
    2:{ subst res. exists 1%nat. split; [lia |]. split; [lia |].
        split; [apply waited_once | intros data H; discriminate H]. }
    destruct (String.eqb (vst_status data) "COMPLETED") eqn:Hdone.
    { subst res. exists 1%nat. split; [lia |]. split; [lia |].
      split; [apply waited_once |].
      intros data' H. injection H as <-. apply String.eqb_eq. exact Hdone. }
    destruct (String.eqb (vst_status data) "FAILED").
    { subst res. exists 1%nat. split; [lia |]. split; [lia |].
      split; [apply waited_once | intros data' H; discriminate H]. }
    unfold bind at 1 in Hres.
    destruct n as [| n'].
    + subst res. exists 1%nat. split; [lia |]. split; [lia |].
      split; [apply waited_once | intros data' H; discriminate H].
    + cbn [sleep] in Hres.
      destruct (IH (with_sleep intervalMs (tick_video_polls w)))
        as (k & Hk & Hpos & (Hp & Hs & Ht & Hposts) & Hret).
      subst res. exists (S k). split; [lia |]. split; [lia |]. split.
      * assert (1 <= k)%nat by (apply Hpos; lia).
        unfold waited. rewrite Hp, Hs, Ht, Hposts.
        simpl video_polls. simpl sleeps. simpl now. simpl posts.
        replace (S k - 1)%nat with (S (k - 1)) by lia.
        rewrite <- app_assoc.
        split; [lia |]. split; [reflexivity |]. split; [lia | reflexivity].
      * exact Hret.
Qed.

(** A task that never settles is asked for [n] times, with a wait between
    two requests, and is then given up. *)
Lemma waitForVideoCompletion_loop_gives_up n intervalMs w :
  never_settles axios_get ->
  exists w',
    waitForVideoCompletion_loop axios_get n intervalMs w
      = (Throw (Error "Video generation timed out" None), w') /\
    waited intervalMs w w' n.
Proof.
  intros Hnever. revert w. induction n as [| n IH]; intros w.
  - exists w. split; [reflexivity |].
    unfold waited. simpl. rewrite Nat.add_0_r, app_nil_r. repeat split; lia.
  - cbn [waitForVideoCompletion_loop].
    destruct (Hnever (video_polls w)) as (data & Hget & Hc & Hf).
    erewrite bind_ret_eq
      by (unfold service_getVideoStatus; rewrite Hget; reflexivity).
    cbv beta. rewrite Hc, Hf.
    destruct n as [| n'].
    + erewrite bind_ret_eq by reflexivity.
      eexists. split; [reflexivity |]. apply waited_once.
    + erewrite bind_ret_eq by reflexivity.
      destruct (IH (with_sleep intervalMs (tick_video_polls w)))
        as (w' & Hthrow & Hp & Hs & Ht & Hposts).
      exists w'. split; [exact Hthrow |].
      unfold waited. rewrite Hp, Hs, Ht, Hposts.
      simpl video_polls. simpl sleeps. simpl now. simpl posts.
      replace (S (S n') - 1)%nat with (S (S n' - 1)) by lia.
      rewrite <- app_assoc.
      split; [lia |]. split; [reflexivity |]. split; [lia | reflexivity].
Qed.
End Waiting.

Section SyncEndpoint.
Variable env : Env.
Variable axios_get : nat -> Outcome VideoStatus.

Lemma service_generateVideo_world w :
  snd (service_generateVideo env w) = tick_posts w.
Proof.
  unfold service_generateVideo.
  destruct (axios_post env (posts w)) as [data | [m s c | m c]]; reflexivity.
Qed.

Lemma controller_generateVideoSync_answers req w :
  exists response,
    fst (controller_generateVideoSync env axios_get req w) = Ret response /\
    (status response = 200 \/ status response = 400 \/ status response = 500) /\
    (status response = 200 ->
     exists data,
       vst_status data = "COMPLETED" /\
       body response = [("success", JBool true); ("data", JObj (status_data data))]) /\
    (posts (snd (controller_generateVideoSync env axios_get req w)) <= posts w + 1)%nat /\
    (video_polls (snd (controller_generateVideoSync env axios_get req w))
     <= video_polls w + 60)%nat /\
    now w <= now (snd (controller_generateVideoSync env axios_get req w)) <= now w + 295000.
Proof.
  unfold controller_generateVideoSync.
  destruct (truthy (vreq_image req)); cbn [negb].
  2:{ eexists. split; [reflexivity |]. cbn. split; [auto |].
      split; [discriminate |]. lia. }
  destruct (truthy (vreq_prompt req)); cbn [negb].
  2:{ eexists. split; [reflexivity |]. cbn. split; [auto |].
      split; [discriminate |]. lia. }
  unfold try_catch, bind.
  pose proof (service_generateVideo_world w) as Hw.
  destruct (service_generateVideo env w) as [[posted | e] w1]; cbn [snd] in Hw; subst w1.
  2:{ eexists. split; [reflexivity |]. cbn. split; [auto |].
      split; [discriminate |]. lia. }
  change (waitForVideoCompletion axios_get (Some 60%nat) (Some 5000))
    with (waitForVideoCompletion_loop axios_get 60 5000).
  destruct (waitForVideoCompletion_loop_waited axios_get 60 5000 (tick_posts w))
    as (k & Hk & _ & (Hp & _ & Ht & Hposts) & Hret).
  destruct (waitForVideoCompletion_loop axios_get 60 5000 (tick_posts w))
    as [[data | e] w2]; cbn [fst snd] in *; unfold ret; cbn [fst snd].
  - eexists. split; [reflexivity |]. cbn [status body]. split; [auto |].
    split; [intros _; exists data; split; [apply Hret |]; reflexivity |].
    rewrite Hp, Ht, Hposts. simpl. lia.
  - eexists. split; [reflexivity |]. cbn [status body video_failure].
    split; [auto |]. split; [discriminate |].
    rewrite Hp, Ht, Hposts. simpl. lia.
Qed.
End SyncEndpoint.

(** X12: whatever the video API answers, [waitForVideoCompletion] asks for
    the status at most [maxAttempts] times (60 by default), waits
    [intervalMs] (5000 ms by default) between two requests and not after the
    last one, and returns only a status [COMPLETED].  A task whose status is
    never [COMPLETED] nor [FAILED] (a status [completed] in lower case is
    such a status) is asked for exactly [maxAttempts] times and then given up
    with the error [Video generation timed out]. *)
Theorem waiting_for_a_video (axios_get : nat -> Outcome VideoStatus)
    (maxAttempts : option nat) (intervalMs : option Z) (w : World) :
  (exists k,
     (k <= default 60 maxAttempts)%nat /\
     waited (default 5000 intervalMs) w
       (snd (waitForVideoCompletion axios_get maxAttempts intervalMs w)) k /\
     forall data,
       fst (waitForVideoCompletion axios_get maxAttempts intervalMs w) = Ret data ->
       vst_status data = "COMPLETED") /\
  (never_settles axios_get ->
   fst (waitForVideoCompletion axios_get maxAttempts intervalMs w)
     = Throw (Error "Video generation timed out" None) /\
   waited (default 5000 intervalMs) w
     (snd (waitForVideoCompletion axios_get maxAttempts intervalMs w))
     (default 60%nat maxAttempts)).
Proof.
  unfold waitForVideoCompletion. split.
  - destruct (waitForVideoCompletion_loop_waited axios_get (default 60%nat maxAttempts)
                (default 5000 intervalMs) w) as (k & Hk & _ & Hw & Hret).
    exists k. auto.
  - intros Hnever.
    destruct (waitForVideoCompletion_loop_gives_up axios_get (default 60%nat maxAttempts)
                (default 5000 intervalMs) w Hnever) as (w' & Hrun & Hw).
    rewrite Hrun. split; [reflexivity | exact Hw].
Qed.

(** X12, witness: the API reports [completed] in lower case; three attempts
    are made and the task is given up. *)
Lemma waiting_for_a_video_witness :
  fst (waitForVideoCompletion lower_case_completed (Some 3%nat) (Some 5000) start)
    = Throw (Error "Video generation timed out" None) /\
  video_polls (snd (waitForVideoCompletion lower_case_completed (Some 3%nat) (Some 5000)
                      start)) = 3%nat /\
  sleeps (snd (waitForVideoCompletion lower_case_completed (Some 3%nat) (Some 5000)
                 start)) = [5000; 5000].
Proof.
  destruct (waiting_for_a_video lower_case_completed (Some 3%nat) (Some 5000) start)
    as [_ H].
  destruct H as (Hthrow & Hp & Hs & _).
  - intros n. eexists. split; [reflexivity |]. split; reflexivity.
  - split; [exact Hthrow |]. split; [exact Hp | exact Hs].
Defined.

(** X13: the route [POST /generate-sync] answers every request.  A
    request that [requireAuthentication] refuses is answered 401 and nothing
    is called.  A request that the quota middleware answers gets that answer
    and the handler does not run.  Any other request is answered by the
    handler with status 200, 400 or 500; a status 200 carries the data of a
    task whose status is [COMPLETED]; the handler starts at most one
    generation, asks for its status at most 60 times and waits 295 seconds at
    most in all. *)
Theorem synchronous_video_endpoint (env : Env) (axios_get : nat -> Outcome VideoStatus)
    (getAuth : RouteRequest -> Outcome (option string))
    (verifyToken : string -> Outcome (option string))
    (checkQuota : RouteRequest -> World -> Verdict * World)
    (req : RouteRequest) (w : World) :
  exists response,
    fst (route_generateVideoSync env axios_get getAuth verifyToken checkQuota req w)
      = Ret response /\
    (forall refusal,
       requireAuthentication getAuth verifyToken req = Respond refusal ->
       response = refusal /\ status response = 401 /\
       snd (route_generateVideoSync env axios_get getAuth verifyToken checkQuota req w)
         = w) /\
    (requireAuthentication getAuth verifyToken req = Next ->
     (forall answer,
        fst (checkQuota req w) = Respond answer ->
        response = answer /\
        snd (route_generateVideoSync env axios_get getAuth verifyToken checkQuota req w)
          = snd (checkQuota req w)) /\
     (fst (checkQuota req w) = Next ->
      (status response = 200 \/ status response = 400 \/ status response = 500) /\
      (status response = 200 ->
       exists data,
         vst_status data = "COMPLETED" /\
         body response = [("success", JBool true); ("data", JObj (status_data data))]) /\
      (posts (snd (route_generateVideoSync env axios_get getAuth verifyToken checkQuota
                     req w))
       <= posts (snd (checkQuota req w)) + 1)%nat /\
      (video_polls (snd (route_generateVideoSync env axios_get getAuth verifyToken
                           checkQuota req w))
       <= video_polls (snd (checkQuota req w)) + 60)%nat /\
      now (snd (checkQuota req w))
      <= now (snd (route_generateVideoSync env axios_get getAuth verifyToken checkQuota
                     req w))
      <= now (snd (checkQuota req w)) + 295000)).
Proof.
  unfold route_generateVideoSync, authenticated_with_quota.
  pose proof (requireAuthentication_refuses getAuth verifyToken req) as Hrefuses.
  destruct (requireAuthentication getAuth verifyToken req) as [| refusal].
  - destruct (checkQuota req w) as [[| answer] w1]; cbn [fst snd].
    + destruct (controller_generateVideoSync_answers env axios_get (route_body req) w1)
        as (response & Hres & Hrest).
      exists response. split; [exact Hres |]. split; [discriminate |].
      intros _. split; [discriminate |]. intros _. exact Hrest.
    + exists answer. split; [reflexivity |]. split; [discriminate |].
      intros _. split; [| discriminate].
      intros a H. injection H as <-. split; reflexivity.
  - exists refusal. split; [reflexivity |]. split; [| discriminate].
    intros r H. injection H as <-. split; [reflexivity |].
    split; [| reflexivity].
    destruct (Hrefuses refusal eq_refl) as [-> | ->]; reflexivity.
Qed.

(** ** The payload sent to the provider *)

Lemma own_property_value key table v :
  own_property key table = Some v -> In v (map snd table).
Proof.
  induction table as [| [k v'] rest IH]; [discriminate |]. simpl.
  destruct (String.eqb k key); [intros H; injection H as ->; auto | auto].
Qed.

Lemma existsb_eqb_In key (l : list string) :
  existsb (String.eqb key) l = true <-> In key l.
Proof.
  rewrite existsb_exists. split.
  - intros (x & Hin & Heq). apply String.eqb_eq in Heq. subst. exact Hin.
  - intros Hin. exists key. split; [exact Hin | apply String.eqb_refl].
Qed.

Lemma mapped_ordinary table key fallback :
  ~ In "" (map snd table) ->
  ~ In key object_prototype_members ->
  exists s, mapped table key fallback = Name s /\
            (In s (map snd table) \/ s = fallback).
Proof.
  intros Hvalues Hkey. unfold mapped.
  destruct (own_property key table) as [v |] eqn:Hown.
  - apply own_property_value in Hown.
    destruct (String.eqb_spec v ""); [subst; contradiction |].
    exists v. auto.
  - destruct (existsb (String.eqb key) object_prototype_members) eqn:Hmember.
    + apply existsb_eqb_In in Hmember. contradiction.
    + exists fallback. auto.
Qed.

Lemma or_lit_ordinary o d :
  ordinary o -> ~ In d object_prototype_members ->
  ~ In (or_lit o d) object_prototype_members.
Proof.
  intros Ho Hd. destruct o as [s |]; simpl; [| exact Hd].
  destruct (String.eqb s ""); [exact Hd | apply Ho; reflexivity].
Qed.

Lemma mapAspectRatio_ordinary aspectRatio :
  ordinary aspectRatio ->
  exists s, mapAspectRatio aspectRatio = Name s /\ In s provider_ratios.
Proof.
  intros H. unfold mapAspectRatio.
  destruct (mapped_ordinary ratioMap (or_lit aspectRatio "1:1") "square_1_1")
    as (s & Hs & Hin).
  - simpl. intros Hc. repeat (destruct Hc as [Hc | Hc]; [discriminate Hc |]). exact Hc.
  - apply or_lit_ordinary; [exact H |]. simpl. intros Hc.
    repeat (destruct Hc as [Hc | Hc]; [discriminate Hc |]). exact Hc.
  - exists s. split; [exact Hs |]. simpl in Hin |- *.
    destruct Hin as [Hin | ->]; [| auto]. tauto.
Qed.

Lemma mapStyleToModel_ordinary style :
  ordinary style ->
  exists s, mapStyleToModel style = Name s /\ In s provider_models.
Proof.
  intros H. unfold mapStyleToModel.
  destruct (mapped_ordinary styleMap (or_lit style "realistic") "realism")
    as (s & Hs & Hin).
  - simpl. intros Hc. repeat (destruct Hc as [Hc | Hc]; [discriminate Hc |]). exact Hc.
  - apply or_lit_ordinary; [exact H |]. simpl. intros Hc.
    repeat (destruct Hc as [Hc | Hc]; [discriminate Hc |]). exact Hc.
  - exists s. split; [exact Hs |]. simpl in Hin |- *.
    destruct Hin as [Hin | ->]; [| auto]. tauto.
Qed.

Lemma getQualitySettings_plain tier quality :
  quality <> Some "hd" -> quality <> Some "ultra" ->
  getQualitySettings tier quality = getQualitySettings tier None.
Proof.
  intros Hhd Hultra. unfold getQualitySettings. cbv zeta.
  destruct quality as [q |]; [| reflexivity].
  destruct (String.eqb_spec q "hd"); [subst; contradiction |].
  destruct (String.eqb_spec q "ultra"); [subst; contradiction |].
  reflexivity.
Qed.

(** X14: the quality settings sent to the provider.  The quality [hd]
    gives the settings of the plus tier and the quality [ultra] those of the
    pro tier, whatever the tier of the request; any other quality, or none,
    gives the settings of the tier.  So the resolution is [1k] exactly for
    the free tier without [hd] or [ultra], and a pro request that asks for
    [hd] gets less dynamic range and detailing than one that asks for
    nothing. *)
Theorem quality_overrides_tier (tier : Tier) (quality : option string) :
  getQualitySettings tier (Some "hd") = getQualitySettings Plus None /\
  getQualitySettings tier (Some "ultra") = getQualitySettings Pro None /\
  (quality <> Some "hd" -> quality <> Some "ultra" ->
   getQualitySettings tier quality = getQualitySettings tier None) /\
  (qs_resolution (getQualitySettings tier quality) = "1k" <->
   tier = Free /\ quality <> Some "hd" /\ quality <> Some "ultra") /\
  qs_hdr (getQualitySettings Pro (Some "hd")) < qs_hdr (getQualitySettings Pro None) /\
  qs_creative_detailing (getQualitySettings Pro (Some "hd"))
    < qs_creative_detailing (getQualitySettings Pro None).
Proof.
  split; [destruct tier; reflexivity |].
  split; [destruct tier; reflexivity |].
  split; [apply getQualitySettings_plain |].
  split; [| split; reflexivity].
  destruct (decide (quality = Some "hd")) as [-> | Hhd].
  { split; [destruct tier; discriminate | intros (_ & H & _); contradiction]. }
  destruct (decide (quality = Some "ultra")) as [-> | Hultra].
  { split; [destruct tier; discriminate | intros (_ & _ & H); contradiction]. }
  rewrite (getQualitySettings_plain tier quality Hhd Hultra).
  destruct tier; cbn; split; try discriminate; auto;
    intros (H & _); discriminate H.
Qed.

(** X15: the payload built for a request whose aspect ratio and style, if
    given, do not name a member of [Object.prototype]: the prompt is the one
    of the request, the aspect ratio is one of the five that the provider
    knows and the model one of its three, unknown or missing values giving
    [square_1_1] and [realism]; the resolution is [1k] or [2k] and the NSFW
    filter is on.  An aspect ratio that names such a member is mapped to
    the member, not to a ratio. *)
Theorem payload_is_well_formed (tier : Tier) (request : GenerationRequest) :
  (ordinary (r_aspectRatio request) -> ordinary (r_style request) ->
   exists ratio model,
     p_aspect_ratio (buildRequestPayload tier request) = Name ratio /\
     In ratio provider_ratios /\
     p_model (buildRequestPayload tier request) = Name model /\
     In model provider_models /\
     p_prompt (buildRequestPayload tier request) = r_prompt request /\
     (p_resolution (buildRequestPayload tier request) = "1k" \/
      p_resolution (buildRequestPayload tier request) = "2k") /\
     p_filter_nsfw (buildRequestPayload tier request) = true) /\
  (forall member, In member object_prototype_members ->
   mapAspectRatio (Some member) = Member member /\
   mapStyleToModel (Some member) = Member member).
Proof.
  split.
  - intros Hratio Hstyle.
    destruct (mapAspectRatio_ordinary _ Hratio) as (ratio & Hr & Hrin).
    destruct (mapStyleToModel_ordinary _ Hstyle) as (model & Hm & Hmin).
    exists ratio, model. cbn [buildRequestPayload p_aspect_ratio p_model p_prompt
      p_resolution p_filter_nsfw].
    split; [exact Hr |]. split; [exact Hrin |]. split; [exact Hm |].
    split; [exact Hmin |]. split; [reflexivity |]. split; [| reflexivity].
    unfold getQualitySettings. cbv zeta.
    destruct (_ || _); [auto |]. destruct tier; auto.
  - intros member Hin. simpl in Hin.
    repeat (destruct Hin as [<- | Hin]; [split; reflexivity |]). destruct Hin.
Qed.

(** X15, witness: a widescreen anime request. *)
Lemma payload_is_well_formed_witness :
  exists ratio model,
    p_aspect_ratio
      (buildRequestPayload Free
         {| r_prompt := "a cat"; r_quality := None; r_batchSize := None;
            r_aspectRatio := Some "landscape"; r_style := Some "anime" |}) = Name ratio /\
    In ratio provider_ratios /\
    p_model
      (buildRequestPayload Free
         {| r_prompt := "a cat"; r_quality := None; r_batchSize := None;
            r_aspectRatio := Some "landscape"; r_style := Some "anime" |}) = Name model /\
    In model provider_models.
Proof.
  destruct (payload_is_well_formed Free
              {| r_prompt := "a cat"; r_quality := None; r_batchSize := None;
                 r_aspectRatio := Some "landscape"; r_style := Some "anime" |})
    as [H _].
  destruct H as (ratio & model & Hr & Hrin & Hm & Hmin & _).
  - intros k Hk. injection Hk as <-. simpl. intros Hc.
    repeat (destruct Hc as [Hc | Hc]; [discriminate Hc |]). exact Hc.
  - intros k Hk. injection Hk as <-. simpl. intros Hc.
    repeat (destruct Hc as [Hc | Hc]; [discriminate Hc |]). exact Hc.
  - exists ratio, model. auto.
Defined.

(** ** The URL taken from a polled task *)

Lemma polled_url_of_object url image_url image :
  polled_url (first_generated (GenObj url image_url image))
    = or_else image_url (or_else url image).
Proof.
  unfold polled_url, first_generated. cbn [pr_image_url pr_url pr_image].
  destruct image_url as [v |].
  - reflexivity.
  - unfold or_else at 1 3 4. cbn [truthy].
    destruct (truthy (or_else url image)); reflexivity.
Qed.

Lemma or_lit_some o u : o = Some u -> u <> "" -> truthy o = true /\ or_lit o "" = u.
Proof.
  intros -> Hne. simpl. destruct (String.eqb_spec u ""); [contradiction | auto].
Qed.

(** X16: when a queued task is reported completed at the first poll with
    an object as its first generated element, the image that [textToImage]
    returns has for original URL the first of [image_url], [url] and [image]
    of that object that is set: [image_url] comes before [url], though the
    poll loop computes [url || image_url || image], because the fields of the
    object are spread over the computed value. *)
Theorem polled_object_url (env : Env) (request : GenerationRequest) (w : World)
    (body : SubmitBody) (data : PollBody) (url image_url image : option string)
    (rest : list Generated) (u : string) :
  submit_answer env (submits w) = HttpOk body ->
  truthy (sb_image_url body) = false -> truthy (sb_task body) = true ->
  poll_answer env (polls w) = HttpOk data ->
  is_completed (pb_status data) = true ->
  pb_generated data = GenObj url image_url image :: rest ->
  or_else image_url (or_else url image) = Some u -> u <> "" ->
  exists response img,
    fst (textToImage env request w) = Ret response /\
    resp_images response = [img] /\
    i_originalUrl img = u.
Proof.
  intros Hsubmit Hnow Htask Hpoll Hdone Hgenerated Hurl Hne.
  destruct (or_lit_some _ _ Hurl Hne) as (Htruthy & Hlit).
  assert (Hphase : url_phase env w
                   = (Ret u, tick_polls (with_sleep 2000 (tick_submits w)))).
  { unfold url_phase.
    erewrite bind_ret_eq by (unfold post_submit; rewrite Hsubmit; reflexivity).
    cbv beta iota. unfold submitted_url. rewrite Hnow, Htask.
    erewrite bind_ret_eq.
    2:{ unfold pollGenerationResult. cbn [default from_option id].
        change (from_option id 30%nat None) with 30%nat.
        cbn [pollGenerationResult_loop].
        erewrite bind_ret_eq by reflexivity.
        erewrite bind_ret_eq
          by (unfold get_poll; cbn [polls with_sleep tick_submits]; rewrite Hpoll;
              reflexivity).
        cbv beta iota. rewrite Hdone, Hgenerated. reflexivity. }
    cbv beta. rewrite polled_url_of_object, Htruthy, Hlit. reflexivity. }
  destruct (textToImage_generated env request w u _ Hphase) as (asset & _ & Hrun).
  rewrite Hrun. eexists _, _. split; [reflexivity |]. split; reflexivity.
Qed.

(** X16, witness: the object has both a [url] and an [image_url]. *)
Lemma polled_object_url_witness :
  exists response img,
    fst (textToImage polled_env red_circle start) = Ret response /\
    resp_images response = [img] /\
    i_originalUrl img = "https://x/by-image-url.png".
Proof.
  eapply (polled_object_url polled_env red_circle start).
  - reflexivity.
  - reflexivity.
  - reflexivity.
  - reflexivity.
  - reflexivity.
  - reflexivity.
  - reflexivity.
  - discriminate.
Defined.

(** ** The health check *)

(** X17: the health check of the orchestrator never throws.  It reports
    [healthy] exactly when the image processing service reports [healthy]
    and the store answers, and [unhealthy] exactly when the health check of
    the image processing service throws; a store that fails makes the report
    [degraded], with [databaseConnected] false, never [unhealthy].  The store
    is asked once, unless the processing service threw, and nothing is
    written. *)
Theorem health_report (env : Env) (processing_health : Outcome string) (w : World) :
  exists h,
    fst (healthCheck env processing_health w) = Ret h /\
    (h_status h = "healthy" <->
     processing_health = Ret "healthy" /\ db_fault env (dbops w) = None) /\
    (h_status h = "unhealthy" <-> exists e, processing_health = Throw e) /\
    (forall s, processing_health = Ret s ->
       h_databaseConnected h = bool_decide (db_fault env (dbops w) = None) /\
       (db_fault env (dbops w) <> None -> h_status h = "degraded") /\
       dbops (snd (healthCheck env processing_health w)) = S (dbops w)) /\
    data_kept w (snd (healthCheck env processing_health w)).
Proof.
  unfold healthCheck, checkDatabaseConnection, try_catch, bind, db_op.
  destruct processing_health as [s | e]; cbn [settle ret throw fst snd].
  2:{ eexists. split; [reflexivity |]. cbn.
      split; [split; [discriminate | intros [H _]; discriminate] |].
      split; [split; [eauto | reflexivity] |].
      split; [intros s H; discriminate | repeat split]. }
  destruct (db_fault env (dbops w)) as [fault |] eqn:Hdb; cbn.
  - eexists. split; [reflexivity |]. cbn. rewrite andb_false_r.
    split; [split; [discriminate | intros [_ H]; discriminate] |].
    split; [split; [discriminate | intros [e H]; discriminate] |].
    split; [| repeat split].
    intros s' _. split; [reflexivity |]. split; reflexivity.
  - eexists. split; [reflexivity |]. cbn. rewrite andb_true_r.
    destruct (String.eqb_spec s "healthy") as [-> | Hne].
    + split; [split; auto |].
      split; [split; [discriminate | intros [e H]; discriminate] |].
      split; [| repeat split].
      intros s' _. split; [reflexivity |]. split; [contradiction | reflexivity].
    + split; [split; [discriminate | intros [H _]; congruence] |].
      split; [split; [discriminate | intros [e H]; discriminate] |].
      split; [| repeat split].
      intros s' _. split; [reflexivity |]. split; [contradiction | reflexivity].
Qed.

(** ** The user of a request *)

(** X18: when [ensureUserExists] returns a user, the store holds that user
    under the given id afterwards and every other user is as before.  A
    user who was in the store is returned as stored, and the store is not
    written; a user who was not is created active, on the free tier, with no
    usage. *)
Theorem ensured_user_is_stored (env : Env) (clerkId : string) (w : World) (user : User) :
  fst (ensureUserExists env clerkId w) = Ret user ->
  users (snd (ensureUserExists env clerkId w)) !! clerkId = Some user /\
  (forall other, other <> clerkId ->
     users (snd (ensureUserExists env clerkId w)) !! other = users w !! other) /\
  (forall known, users w !! clerkId = Some known ->
     user = known /\ users (snd (ensureUserExists env clerkId w)) = users w) /\
  (users w !! clerkId = None -> user = basic_user) /\
  generations (snd (ensureUserExists env clerkId w)) = generations w.
Proof.
  unfold ensureUserExists, findByClerkId, create_user, bind, try_catch, db_op.
  destruct (db_fault env (dbops w)) as [fault |]; [discriminate |].
  cbn [fst snd]. change (users (tick_dbops w)) with (users w).
  destruct (users w !! clerkId) as [known |] eqn:Hknown.
  - cbn. intros H. injection H as <-.
    split; [exact Hknown |]. split; [reflexivity |].
    split; [intros k Hk; injection Hk as <-; auto |].
    split; [discriminate | reflexivity].
  - change (dbops (tick_dbops w)) with (S (dbops w)).
    destruct (db_fault env (S (dbops w))) as [[m s c | m [code |]] |] eqn:Hcreate; cbn.
    + discriminate.
    + destruct (code =? 11000) eqn:Hcode.
      * apply Z.eqb_eq in Hcode. subst code. cbn.
        destruct (db_fault env (S (S (dbops w)))); cbn; [discriminate |].
        rewrite Hknown. discriminate.
      * assert (Hother : (match code with 11000 => true | _ => false end) = false).
        { destruct code as [| p | p]; try reflexivity.
          apply Z.eqb_neq in Hcode.
          destruct (Pos.eq_dec p 11000) as [-> | Hp]; [contradiction |].
          do 14 (destruct p as [p | p |]; try reflexivity). contradiction. }
        revert Hother. destruct code as [| p | p]; cbn; try discriminate.
        do 14 (destruct p as [p | p |]; cbn; try discriminate).
    + discriminate.
    + intros H. injection H as <-.
      split; [apply lookup_insert_eq |].
      split; [intros other Hne; apply lookup_insert_ne; congruence |].
      split; [discriminate |]. split; reflexivity.
Qed.

(** X18, witness: alice is in the store. *)
Lemma ensured_user_is_stored_witness :
  users (snd (ensureUserExists (sample_env no_fault immediate stored) "alice" start))
    !! "alice" = Some alice.
Proof.
  destruct (ensured_user_is_stored (sample_env no_fault immediate stored) "alice" start
              alice) as (H & _).
  - reflexivity.
  - exact H.
Defined.

(** ** The limits of a subscription *)

Lemma recognised_dec subscriptionStatus :
  recognised subscriptionStatus \/
  exists s, subscriptionStatus = Some s /\
            String.eqb s "" = false /\ String.eqb s "free" = false /\
            String.eqb s "plus" = false /\ String.eqb s "pro" = false.
Proof.
  unfold recognised. destruct subscriptionStatus as [s |]; [| auto].
  destruct (String.eqb s "") eqn:He;
    [apply String.eqb_eq in He; subst; left; auto 10 |].
  destruct (String.eqb s "free") eqn:Hf;
    [apply String.eqb_eq in Hf; subst; left; auto 10 |].
  destruct (String.eqb s "plus") eqn:Hp;
    [apply String.eqb_eq in Hp; subst; left; auto 10 |].
  destruct (String.eqb s "pro") eqn:Hpro;
    [apply String.eqb_eq in Hpro; subst; left; auto 10 |].
  right. exists s. auto 10.
Qed.

(** X19: the limits on file size, file count and image dimensions that
    the quota endpoint reports for a subscription status are the ones that
    the upload middlewares enforce for it exactly when the status is
    missing, empty or the name of a tier.  For any other status the endpoint
    reports the limits of the pro tier while the middlewares enforce those of
    the free tier.  The endpoint reports these limits to every request that
    carries a user id. *)
Theorem reported_limits_and_enforced_limits (subscriptionStatus : option string) :
  (limits_agree subscriptionStatus <-> recognised subscriptionStatus) /\
  (~ recognised subscriptionStatus ->
   quota_limits (or_lit subscriptionStatus "free") = quota_limits "pro" /\
   getFileSizeLimit subscriptionStatus = getFileSizeLimit (Some "free") /\
   getFileCountLimit subscriptionStatus = getFileCountLimit (Some "free") /\
   maxDimension subscriptionStatus = maxDimension (Some "free")) /\
  (forall userId w, truthy userId = true ->
   exists response data,
     fst (getQuotaStatus userId subscriptionStatus w) = Ret response /\
     status response = 200 /\
     field "data" (body response) = Some (JObj data) /\
     field "limits" data
       = Some (limits_json (quota_limits (or_lit subscriptionStatus "free")))).
Proof.
  split; [| split].
  - destruct (recognised_dec subscriptionStatus)
      as [Hrec | (s & -> & He & Hf & Hp & Hpro)].
    + split; [intros _; exact Hrec |]. intros _.
      destruct Hrec as [-> | [-> | [-> | [-> | ->]]]]; repeat split.
    + split.
      * intros (Hsize & _). exfalso. revert Hsize.
        unfold quota_limits, by_tier, getFileSizeLimit. cbn [or_lit lim_fileSize].
        rewrite He, Hf, Hp, Hpro. discriminate.
      * intros [H | [H | [H | [H | H]]]]; try discriminate H; injection H as ->;
          discriminate.
  - intros Hnot.
    destruct (recognised_dec subscriptionStatus)
      as [Hrec | (s & -> & He & Hf & Hp & Hpro)]; [contradiction |].
    unfold quota_limits, by_tier, getFileSizeLimit, getFileCountLimit, maxDimension.
    cbn [or_lit]. rewrite He, Hf, Hp, Hpro. repeat split.
  - intros userId w Huser. unfold getQuotaStatus. rewrite Huser. cbn [negb].
    eexists _, _. split; [reflexivity |]. split; [reflexivity |].
    split; reflexivity.
Qed.

(** X19, witness: a status that is not the name of a tier. *)
Lemma reported_limits_and_enforced_limits_witness :
  lim_fileSize (quota_limits (or_lit (Some "active") "free")) = 52428800 /\
  getFileSizeLimit (Some "active") = 10485760.
Proof.
  destruct (reported_limits_and_enforced_limits (Some "active")) as (_ & H & _).
  destruct H as (Hreported & Henforced & _).
  - intros [H | [H | [H | [H | H]]]]; discriminate H.
  - rewrite Hreported, Henforced. split; reflexivity.
Defined.

(** ** The upload middleware *)

Section Unlinking.
Variable unlink_fails : string -> bool.

Lemma unlinkSync_cases path (files : Files) :
  (exists files', unlinkSync unlink_fails path files = (Ret tt, files') /\
                  (path ∉ files') /\ files' = files ∖ {[path]} /\ (path ∈ files)) \/
  (exists e, unlinkSync unlink_fails path files = (Throw e, files) /\
             ((path ∉ files) \/ unlink_fails path = true)).
Proof.
  unfold unlinkSync. destruct (bool_decide_reflect (path ∈ files)) as [Hin | Hout].
  - destruct (unlink_fails path) eqn:Hfails.
    + right. eexists. split; [reflexivity | auto].
    + left. eexists. split; [reflexivity |]. split; [| auto].
      rewrite elem_of_difference, elem_of_singleton. tauto.
  - right. eexists. split; [reflexivity | auto].
Qed.

(** After the [catch] block the file is gone, or the answer is 500. *)
Lemma invalid_image_cases file (files : Files) :
  (answered (fst (invalid_image unlink_fails file files)) 400 /\
   (file_path file ∉ snd (invalid_image unlink_fails file files)) /\
   snd (invalid_image unlink_fails file files) = files ∖ {[file_path file]}) \/
  (answered (fst (invalid_image unlink_fails file files)) 500 /\
   unlink_fails (file_path file) = true /\
   snd (invalid_image unlink_fails file files) = files).
Proof.
  unfold invalid_image, existsSync.
  destruct (bool_decide_reflect (file_path file ∈ files)) as [Hin | Hout].
  - destruct (unlinkSync_cases (file_path file) files)
      as [(files' & Hrun & Hgone & Hfiles & _) | (e & Hrun & [Hout | Hfails])];
      rewrite Hrun.
    + left. split; [eexists; split; reflexivity |]. split; [exact Hgone | exact Hfiles].
    + contradiction.
    + right. split; [eexists; split; reflexivity |]. split; [exact Hfails | reflexivity].
  - left. split; [eexists; split; reflexivity |]. cbn [snd]. split; [exact Hout |].
    symmetry. apply difference_disjoint_L, disjoint_singleton_r. exact Hout.
Qed.

Lemma reject_file_cases file message (files : Files) :
  (answered (fst (reject_file unlink_fails file message files)) 400 /\
   (file_path file ∉ snd (reject_file unlink_fails file message files)) /\
   snd (reject_file unlink_fails file message files) = files ∖ {[file_path file]}) \/
  (answered (fst (reject_file unlink_fails file message files)) 500 /\
   unlink_fails (file_path file) = true /\
   snd (reject_file unlink_fails file message files) = files).
Proof.
  unfold reject_file.
  destruct (unlinkSync_cases (file_path file) files)
    as [(files' & Hrun & Hgone & Hfiles & _) | (e & Hrun & _)]; rewrite Hrun.
  - left. split; [eexists; split; reflexivity |]. split; [exact Hgone | exact Hfiles].
  - apply invalid_image_cases.
Qed.

End Unlinking.

Section SingleUpload.
Variable metadata : string -> Outcome (option Z * option Z).
Variable unlink_fails : string -> bool.

Lemma uploadSingleImage_checks subscriptionStatus error file (files : Files) :
  (fst (uploadSingleImage metadata unlink_fails subscriptionStatus error file files) = Next
   <-> error = None /\
       exists f width height,
         file = Some f /\
         metadata (file_path f) = Ret (Some width, Some height) /\
         within_bounds subscriptionStatus width height) /\
  (fst (uploadSingleImage metadata unlink_fails subscriptionStatus error file files) = Next
   \/ answered
        (fst (uploadSingleImage metadata unlink_fails subscriptionStatus error file files))
        400
   \/ answered
        (fst (uploadSingleImage metadata unlink_fails subscriptionStatus error file files))
        500) /\
  (fst (uploadSingleImage metadata unlink_fails subscriptionStatus error file files) = Next
     -> snd (uploadSingleImage metadata unlink_fails subscriptionStatus error file files)
        = files) /\
  (forall f, error = None -> file = Some f ->
     (answered
        (fst (uploadSingleImage metadata unlink_fails subscriptionStatus error file files))
        400 ->
      snd (uploadSingleImage metadata unlink_fails subscriptionStatus error file files)
        = files ∖ {[file_path f]}) /\
     (answered
        (fst (uploadSingleImage metadata unlink_fails subscriptionStatus error file files))
        500 ->
      unlink_fails (file_path f) = true /\
      snd (uploadSingleImage metadata unlink_fails subscriptionStatus error file files)
        = files)) /\
  (error <> None \/ file = None ->
   snd (uploadSingleImage metadata unlink_fails subscriptionStatus error file files)
     = files).
Proof.
  unfold uploadSingleImage, within_bounds.
  destruct error as [[| | message] |].
  1-3: split; [split; [discriminate | intros [H _]; discriminate] |];
       split; [right; left; eexists; split; reflexivity |];
       split; [reflexivity |]; split; [intros f H; discriminate | reflexivity].
  destruct file as [f |].
  2:{ split; [split; [discriminate | intros (_ & f & wd & ht & H & _); discriminate] |].
      split; [right; left; eexists; split; reflexivity |].
      split; [reflexivity |]. split; [intros f _ H; discriminate | reflexivity]. }
  assert (Hrejected : forall r : Verdict * Files,
    (answered (fst r) 400 /\ (file_path f ∉ snd r) /\ snd r = files ∖ {[file_path f]}) \/
    (answered (fst r) 500 /\ unlink_fails (file_path f) = true /\ snd r = files) ->
    (fst r = Next \/ answered (fst r) 400 \/ answered (fst r) 500) /\
    (fst r = Next -> snd r = files) /\
    (forall f0, @None UploadError = None -> Some f = Some f0 ->
       (answered (fst r) 400 -> snd r = files ∖ {[file_path f0]}) /\
       (answered (fst r) 500 -> unlink_fails (file_path f0) = true /\ snd r = files)) /\
    (@None UploadError <> None \/ Some f = None -> snd r = files) /\
    fst r <> Next).
  { intros r Hr.
    assert (Hnot : fst r <> Next).
    { destruct Hr as [((response & H & _) & _) | ((response & H & _) & _)];
        rewrite H; discriminate. }
    split; [destruct Hr as [(H & _) | (H & _)]; auto |].
    split; [intros H; contradiction |].
    split; [| split; [intros [H | H]; [contradiction | discriminate] | exact Hnot]].
    intros f0 _ Hf. injection Hf as <-.
    destruct Hr as [((r4 & H4 & S4) & _ & Hfiles) | ((r5 & H5 & S5) & Hfails & Hfiles)].
    - split; [intros _; exact Hfiles |].
      intros (r5 & H5 & S5). rewrite H4 in H5. injection H5 as <-. congruence.
    - split; [| intros _; auto].
      intros (r4 & H4 & S4). rewrite H5 in H4. injection H4 as <-. congruence. }
  destruct (metadata (file_path f)) as [[width height] | e] eqn:Hmeta.
  2:{ destruct (Hrejected _ (invalid_image_cases unlink_fails f files)) as (H1 & H2 & H3 & H4 & H5).
      split; [| auto].
      split; [intros H; contradiction |].
      intros (_ & f0 & wd & ht & Hf & Hm & _). injection Hf as <-.
      rewrite Hmeta in Hm. discriminate Hm. }
  destruct ((or_num width 0 =? 0) || (or_num height 0 =? 0)
            || (or_num width 0 <? 64) || (or_num height 0 <? 64)) eqn:Hsmall.
  { destruct (Hrejected _ (reject_file_cases unlink_fails f
                             "Image must be at least 64x64 pixels" files))
      as (H1 & H2 & H3 & H4 & H5).
    split; [| auto].
    split; [intros H; contradiction |].
    intros (_ & f0 & wd & ht & Hf & Hm & (Hw & _) & (Hh & _)).
    injection Hf as <-. rewrite Hmeta in Hm. injection Hm as -> ->. exfalso.
    repeat (apply orb_true_iff in Hsmall as [Hsmall | Hsmall]); simpl in Hsmall;
      repeat match type of Hsmall with
             | context [if ?c then _ else _] => destruct c eqn:?
             end;
      repeat match goal with
             | H : (_ <? _) = true |- _ => apply Z.ltb_lt in H
             | H : (_ =? _) = true |- _ => apply Z.eqb_eq in H
             | H : (_ =? _) = false |- _ => apply Z.eqb_neq in H
             end; lia. }
  destruct ((maxDimension subscriptionStatus <? or_num width 0)
            || (maxDimension subscriptionStatus <? or_num height 0)) eqn:Hlarge.
  { destruct (Hrejected _ (reject_file_cases unlink_fails f
                ("Image dimensions must not exceed "
                   ++ show_Z (maxDimension subscriptionStatus) ++ "x"
                   ++ show_Z (maxDimension subscriptionStatus) ++ " pixels") files))
      as (H1 & H2 & H3 & H4 & H5).
    split; [| auto].
    split; [intros H; contradiction |].
    intros (_ & f0 & wd & ht & Hf & Hm & (Hw & Hw') & (Hh & Hh')).
    injection Hf as <-. rewrite Hmeta in Hm. injection Hm as -> ->. exfalso.
    repeat (apply orb_true_iff in Hlarge as [Hlarge | Hlarge]); simpl in Hlarge;
      repeat match type of Hlarge with
             | context [if ?c then _ else _] => destruct c eqn:?
             end;
      repeat match goal with
             | H : (_ <? _) = true |- _ => apply Z.ltb_lt in H
             | H : (_ =? _) = true |- _ => apply Z.eqb_eq in H
             | H : (_ =? _) = false |- _ => apply Z.eqb_neq in H
             end; lia. }
  cbn [fst snd].
  split.
  - split; [intros _ | reflexivity]. split; [reflexivity |].
    repeat (apply orb_false_iff in Hsmall as [Hsmall ?]).
    apply orb_false_iff in Hlarge as [Hlarge ?].
    destruct width as [wd |]; [| discriminate]. destruct height as [ht |]; [| discriminate].
    simpl in *.
    exists f, wd, ht. split; [reflexivity |]. split; [exact Hmeta |].
    destruct (wd =? 0) eqn:?; [discriminate |]. destruct (ht =? 0) eqn:?; [discriminate |].
    repeat match goal with
           | H : (_ <? _) = false |- _ => apply Z.ltb_ge in H
           end.
    lia.
  - split; [auto |]. split; [reflexivity |]. split; [| reflexivity].
    intros f0 _ _. split; intros (response & H & _); discriminate H.
Qed.
End SingleUpload.

(** X20: the middleware for a single uploaded image lets the request
    through exactly when multer reports no error, a file was stored and its
    width and height are read and lie between 64 and the largest dimension of
    the subscription status; the file is then left in place.  Otherwise it
    answers with status 400 or 500.  When a stored file is refused with
    status 400 the file is no longer on disk afterwards; status 500 is sent
    only when the file could not be removed.  No other file is touched. *)
Theorem single_upload_is_checked (metadata : string -> Outcome (option Z * option Z))
    (unlink_fails : string -> bool) (subscriptionStatus : option string)
    (error : option UploadError) (file : option UploadedFile) (files : Files) :
  (fst (uploadSingleImage metadata unlink_fails subscriptionStatus error file files) = Next
   <-> error = None /\
       exists f width height,
         file = Some f /\
         metadata (file_path f) = Ret (Some width, Some height) /\
         within_bounds subscriptionStatus width height) /\
  (fst (uploadSingleImage metadata unlink_fails subscriptionStatus error file files) = Next
   \/ answered
        (fst (uploadSingleImage metadata unlink_fails subscriptionStatus error file files))
        400
   \/ answered
        (fst (uploadSingleImage metadata unlink_fails subscriptionStatus error file files))
        500) /\
  (fst (uploadSingleImage metadata unlink_fails subscriptionStatus error file files) = Next
     -> snd (uploadSingleImage metadata unlink_fails subscriptionStatus error file files)
        = files) /\
  (forall f, error = None -> file = Some f ->
     (answered
        (fst (uploadSingleImage metadata unlink_fails subscriptionStatus error file files))
        400 ->
      snd (uploadSingleImage metadata unlink_fails subscriptionStatus error file files)
        = files ∖ {[file_path f]}) /\
     (answered
        (fst (uploadSingleImage metadata unlink_fails subscriptionStatus error file files))
        500 ->
      unlink_fails (file_path f) = true /\
      snd (uploadSingleImage metadata unlink_fails subscriptionStatus error file files)
        = files)) /\
  (error <> None \/ file = None ->
   snd (uploadSingleImage metadata unlink_fails subscriptionStatus error file files)
     = files).
Proof. apply uploadSingleImage_checks. Qed.

(** X20, witness: an image of 32 by 32 pixels is refused and removed. *)
Lemma single_upload_is_checked_witness :
  answered
    (fst (uploadSingleImage tiny (fun _ => false) None None (Some small_file)
            {["/tmp/s.png"; "/tmp/other.png"]})) 400 /\
  snd (uploadSingleImage tiny (fun _ => false) None None (Some small_file)
         {["/tmp/s.png"; "/tmp/other.png"]})
    = ({["/tmp/s.png"; "/tmp/other.png"]} : Files) ∖ {["/tmp/s.png"]}.
Proof.
  destruct (single_upload_is_checked tiny (fun _ => false) None None (Some small_file)
              {["/tmp/s.png"; "/tmp/other.png"]}) as (_ & _ & _ & H & _).
  destruct (H small_file eq_refl eq_refl) as (H400 & _).
  assert (Hanswer : answered
            (fst (uploadSingleImage tiny (fun _ => false) None None (Some small_file)
                    {["/tmp/s.png"; "/tmp/other.png"]})) 400).
  { eexists. split; [vm_compute; reflexivity | reflexivity]. }
  split; [exact Hanswer | exact (H400 Hanswer)].
Defined.

Section Removing.
Variable unlink_fails : string -> bool.

Lemma remove_all_cases uploaded (files : Files) :
  (exists files', remove_all unlink_fails uploaded files = (Ret tt, files') /\
                  files' ⊆ files /\ all_gone uploaded files') \/
  (exists e files', remove_all unlink_fails uploaded files = (Throw e, files') /\
                    files' ⊆ files).
Proof.
  revert files. induction uploaded as [| f rest IH]; intros files.
  - left. exists files. split; [reflexivity |]. split; [reflexivity | constructor].
  - cbn [remove_all]. unfold existsSync.
    destruct (bool_decide_reflect (file_path f ∈ files)) as [Hin | Hout].
    + destruct (unlinkSync_cases unlink_fails (file_path f) files)
        as [(files1 & Hrun & Hgone & Hfiles & _) | (e & Hrun & _)]; rewrite Hrun.
      * assert (Hsub : files1 ⊆ files).
        { rewrite Hfiles. intros x Hx. apply elem_of_difference in Hx as [Hx _]. exact Hx. }
        destruct (IH files1) as [(files' & -> & Hsub' & Hall) | (e & files' & -> & Hsub')].
        -- left. exists files'. split; [reflexivity |].
           split; [etransitivity; eassumption |].
           constructor; [| exact Hall]. intros Hx. apply Hgone, Hsub', Hx.
        -- right. exists e, files'. split; [reflexivity |]. etransitivity; eassumption.
      * right. exists e, files. split; reflexivity.
    + destruct (IH files) as [(files' & -> & Hsub' & Hall) | (e & files' & -> & Hsub')].
      * left. exists files'. split; [reflexivity |]. split; [exact Hsub' |].
        constructor; [| exact Hall]. intros Hx. apply Hout, Hsub', Hx.
      * right. exists e, files'. split; [reflexivity | exact Hsub'].
Qed.

Lemma invalid_images_refusal uploaded (files : Files) :
  refusal uploaded files (invalid_images unlink_fails uploaded files).
Proof.
  unfold invalid_images, refusal.
  destruct (remove_all_cases uploaded files)
    as [(files' & -> & Hsub & Hall) | (e & files' & -> & Hsub)]; cbn [fst snd].
  - split; [left; split; [eexists; split; reflexivity | exact Hall] | exact Hsub].
  - split; [right; eexists; split; reflexivity | exact Hsub].
Qed.

Lemma reject_files_refusal uploaded message (files : Files) :
  refusal uploaded files (reject_files unlink_fails uploaded message files).
Proof.
  unfold reject_files.
  destruct (remove_all_cases uploaded files)
    as [(files' & -> & Hsub & Hall) | (e & files' & -> & Hsub)].
  - split; [left; split; [eexists; split; reflexivity | exact Hall] | exact Hsub].
  - destruct (invalid_images_refusal uploaded files') as (H & Hsub').
    split; [exact H | etransitivity; eassumption].
Qed.

Lemma refusal_not_next uploaded (files : Files) r : refusal uploaded files r -> fst r <> Next.
Proof.
  intros ([((response & H & _) & _) | (response & H & _)] & _); rewrite H; discriminate.
Qed.

End Removing.

Section MultipleUploads.
Variable metadata : string -> Outcome (option Z * option Z).
Variable unlink_fails : string -> bool.

Lemma check_files_cases subscriptionStatus uploaded todo (files : Files) :
  (fst (check_files metadata unlink_fails subscriptionStatus uploaded todo files) = Next /\
   snd (check_files metadata unlink_fails subscriptionStatus uploaded todo files) = files /\
   Forall (acceptable_image metadata subscriptionStatus) todo) \/
  (refusal uploaded files
     (check_files metadata unlink_fails subscriptionStatus uploaded todo files) /\
   ~ Forall (acceptable_image metadata subscriptionStatus) todo).
Proof.
  induction todo as [| file rest IH].
  - left. split; [reflexivity |]. split; [reflexivity | constructor].
  - cbn [check_files].
    destruct (metadata (file_path file)) as [[width height] | e] eqn:Hmeta.
    2:{ right. split; [apply invalid_images_refusal |].
        intros H. inversion H as [| ? ? (wd & ht & Hm & _) _]; subst.
        rewrite Hmeta in Hm. discriminate Hm. }
    destruct ((or_num width 0 =? 0) || (or_num height 0 =? 0)
              || (or_num width 0 <? 64) || (or_num height 0 <? 64)) eqn:Hsmall.
    { right. split; [apply reject_files_refusal |].
      intros H. inversion H as [| ? ? (wd & ht & Hm & (Hw & _) & (Hh & _)) _]; subst.
      rewrite Hmeta in Hm. injection Hm as -> ->.
      repeat (apply orb_true_iff in Hsmall as [Hsmall | Hsmall]); simpl in Hsmall;
        repeat match type of Hsmall with
               | context [if ?c then _ else _] => destruct c eqn:?
               end;
        repeat match goal with
               | H : (_ <? _) = true |- _ => apply Z.ltb_lt in H
               | H : (_ =? _) = true |- _ => apply Z.eqb_eq in H
               | H : (_ =? _) = false |- _ => apply Z.eqb_neq in H
               end; lia. }
    destruct ((maxDimension subscriptionStatus <? or_num width 0)
              || (maxDimension subscriptionStatus <? or_num height 0)) eqn:Hlarge.
    { right. split; [apply reject_files_refusal |].
      intros H. inversion H as [| ? ? (wd & ht & Hm & (_ & Hw) & (_ & Hh)) _]; subst.
      rewrite Hmeta in Hm. injection Hm as -> ->.
      repeat (apply orb_true_iff in Hlarge as [Hlarge | Hlarge]); simpl in Hlarge;
        repeat match type of Hlarge with
               | context [if ?c then _ else _] => destruct c eqn:?
               end;
        repeat match goal with
               | H : (_ <? _) = true |- _ => apply Z.ltb_lt in H
               | H : (_ =? _) = true |- _ => apply Z.eqb_eq in H
               | H : (_ =? _) = false |- _ => apply Z.eqb_neq in H
               end; lia. }
    assert (Hfile : acceptable_image metadata subscriptionStatus file).
    { repeat (apply orb_false_iff in Hsmall as [Hsmall ?]).
      apply orb_false_iff in Hlarge as [Hlarge ?].
      destruct width as [wd |]; [| discriminate].
      destruct height as [ht |]; [| discriminate]. simpl in *.
      exists wd, ht. split; [exact Hmeta |].
      destruct (wd =? 0) eqn:?; [discriminate |].
      destruct (ht =? 0) eqn:?; [discriminate |].
      repeat match goal with
             | H : (_ <? _) = false |- _ => apply Z.ltb_ge in H
             end.
      unfold within_bounds. lia. }
    destruct IH as [(Hnext & Hfiles & Hall) | (Hrefusal & Hnot)].
    + left. split; [exact Hnext |]. split; [exact Hfiles |]. constructor; assumption.
    + right. split; [exact Hrefusal |]. intros H. inversion H; subst. contradiction.
Qed.

Lemma uploadMultipleImages_checks subscriptionStatus error uploaded (files : Files) :
  (fst (uploadMultipleImages metadata unlink_fails subscriptionStatus error uploaded files)
     = Next
   <-> error = None /\
       exists several,
         uploaded = Some several /\ (2 <= length several)%nat /\
         Forall (acceptable_image metadata subscriptionStatus) several) /\
  (fst (uploadMultipleImages metadata unlink_fails subscriptionStatus error uploaded files)
     = Next ->
   snd (uploadMultipleImages metadata unlink_fails subscriptionStatus error uploaded files)
     = files) /\
  (fst (uploadMultipleImages metadata unlink_fails subscriptionStatus error uploaded files)
     <> Next ->
   refusal (stored_files error uploaded) files
     (uploadMultipleImages metadata unlink_fails subscriptionStatus error uploaded files)).
Proof.
  unfold uploadMultipleImages.
  destruct error as [[| | message] |].
  1-3: split; [split; [discriminate | intros [H _]; discriminate] |];
       split; [reflexivity |]; intros _; split;
       [left; split; [eexists; split; reflexivity | constructor] | reflexivity].
  destruct uploaded as [[| first [| second rest]] |].
  - split; [split; [discriminate | intros (_ & l & H & Hlen & _)] |].
    { injection H as <-. simpl in Hlen. lia. }
    split; [reflexivity |]. intros _. split; [| reflexivity].
    left. split; [eexists; split; reflexivity | constructor].
  - assert (Hrefusal : refusal [first] files
              (match remove_all unlink_fails [first] files with
               | (Ret _, files') =>
                   (Respond (plain_response 400
                               "At least 2 images are required for composition"), files')
               | (Throw _, files') =>
                   (Respond (plain_response 500
                               "Internal server error during file upload"), files')
               end)).
    { destruct (remove_all_cases unlink_fails [first] files)
        as [(files' & -> & Hsub & Hall) | (e & files' & -> & Hsub)]; cbn [fst snd].
      - split; [left; split; [eexists; split; reflexivity | exact Hall] | exact Hsub].
      - split; [right; eexists; split; reflexivity | exact Hsub]. }
    pose proof (refusal_not_next _ _ _ Hrefusal) as Hnot.
    split; [split; [intros H; contradiction | intros (_ & l & H & Hlen & _)] |].
    { injection H as <-. simpl in Hlen. lia. }
    split; [intros H; contradiction | intros _; exact Hrefusal].
  - destruct (check_files_cases subscriptionStatus (first :: second :: rest)
                (first :: second :: rest) files)
      as [(Hnext & Hfiles & Hall) | (Hrefusal & Hnot)].
    + split; [split; [intros _ | intros _; exact Hnext] |].
      { split; [reflexivity |]. eexists. split; [reflexivity |].
        split; [simpl; lia | exact Hall]. }
      split; [intros _; exact Hfiles | intros H; contradiction].
    + pose proof (refusal_not_next _ _ _ Hrefusal) as Hnn.
      split; [split; [intros H; contradiction | intros (_ & l & H & _ & Hall)] |].
      { injection H as <-. contradiction. }
      split; [intros H; contradiction | intros _; exact Hrefusal].
  - split; [split; [discriminate | intros (_ & l & H & _); discriminate] |].
    split; [reflexivity |]. intros _. split; [| reflexivity].
    left. split; [eexists; split; reflexivity | constructor].
Qed.
End MultipleUploads.

(** X21: the middleware for several uploaded images lets the request
    through exactly when multer reports no error, at least two files were
    stored and the dimensions of every one of them are read and lie between
    64 and the largest dimension of the subscription status; the files are
    then left in place.  Otherwise it answers with status 400 or 500, adds no
    file, and when it answers 400 none of the uploaded files is on disk any
    more. *)
Theorem multiple_uploads_are_checked (metadata : string -> Outcome (option Z * option Z))
    (unlink_fails : string -> bool) (subscriptionStatus : option string)
    (error : option UploadError) (uploaded : option (list UploadedFile)) (files : Files) :
  (fst (uploadMultipleImages metadata unlink_fails subscriptionStatus error uploaded files)
     = Next
   <-> error = None /\
       exists several,
         uploaded = Some several /\ (2 <= length several)%nat /\
         Forall (acceptable_image metadata subscriptionStatus) several) /\
  (fst (uploadMultipleImages metadata unlink_fails subscriptionStatus error uploaded files)
     = Next ->
   snd (uploadMultipleImages metadata unlink_fails subscriptionStatus error uploaded files)
     = files) /\
  (fst (uploadMultipleImages metadata unlink_fails subscriptionStatus error uploaded files)
     <> Next ->
   refusal (stored_files error uploaded) files
     (uploadMultipleImages metadata unlink_fails subscriptionStatus error uploaded files)).
Proof. apply uploadMultipleImages_checks. Qed.

(** X21, witness: the second of two images is too small; both are removed. *)
Lemma multiple_uploads_are_checked_witness :
  refusal [large_file; small_file] {["/tmp/l.png"; "/tmp/s.png"]}
    (uploadMultipleImages second_tiny (fun _ => false) (Some "plus") None
       (Some [large_file; small_file]) {["/tmp/l.png"; "/tmp/s.png"]}) /\
  snd (uploadMultipleImages second_tiny (fun _ => false) (Some "plus") None
         (Some [large_file; small_file]) {["/tmp/l.png"; "/tmp/s.png"]}) = ∅.
Proof.
  destruct (multiple_uploads_are_checked second_tiny (fun _ => false) (Some "plus") None
              (Some [large_file; small_file]) {["/tmp/l.png"; "/tmp/s.png"]})
    as (_ & _ & H).
  split; [apply H; vm_compute; discriminate | vm_compute; reflexivity].
Defined.

(** ** The media store client *)

(** X22: the Cloudinary client is configured exactly when its three
    environment variables are set and not empty (and [cloudinary.config]
    does not throw).  It calls Cloudinary exactly when it is configured, and
    reports a success exactly when it is configured and Cloudinary accepts
    the upload.  When it is not configured, every asset that
    [uploadToCloudinary] of the provider client returns is the fallback: it
    keeps the URL of the provider. *)
Theorem media_store_configuration (variables : CloudinaryVariables) (config_throws : bool) :
  (configure variables config_throws = true <->
   truthy (CLOUDINARY_CLOUD_NAME variables) = true /\
   truthy (CLOUDINARY_API_KEY variables) = true /\
   truthy (CLOUDINARY_API_SECRET variables) = true /\
   config_throws = false) /\
  (forall isConfigured answer,
     su_called (service_uploadImage isConfigured answer) = isConfigured /\
     (cu_success (su_result (service_uploadImage isConfigured answer)) = true <->
      isConfigured = true /\ exists uploaded, answer = Ret uploaded)) /\
  (configure variables config_throws = false ->
   forall env imageUrl w,
     media_through_service env (configure variables config_throws) ->
     fst (uploadToCloudinary env imageUrl w) = Ret (fallback_asset imageUrl (now w))).
Proof.
  split; [| split].
  - unfold configure.
    destruct (truthy (CLOUDINARY_CLOUD_NAME variables)),
      (truthy (CLOUDINARY_API_KEY variables)),
      (truthy (CLOUDINARY_API_SECRET variables)), config_throws; cbn;
      intuition congruence.
  - intros isConfigured answer. unfold service_uploadImage.
    destruct isConfigured; cbn.
    + destruct answer as [uploaded | e]; cbn.
      * split; [reflexivity |]. split; [eauto | reflexivity].
      * split; [reflexivity |].
        split; [discriminate | intros (_ & uploaded & H); discriminate].
    + split; [reflexivity |]. split; [discriminate | intros [H _]; discriminate].
  - intros Hconfigured env imageUrl w Hservice.
    apply uploadToCloudinary_fallback. unfold media_store_fails.
    destruct (download_ok env (downloads w)) as [[|] | e]; try reflexivity.
    destruct (Hservice (uploads w)) as (answer & ->).
    rewrite Hconfigured. reflexivity.
Qed.

(** X22, witness: the secret is missing; the provider URL is kept. *)
Lemma media_store_configuration_witness :
  fst (uploadToCloudinary
         (sample_env no_fault immediate
            (fun _ => Ret (su_result (service_uploadImage (configure no_secret false)
                                        (Throw (Error "never asked" None))))))
         "https://x/img.png" start)
    = Ret (fallback_asset "https://x/img.png" 0).
Proof.
  destruct (media_store_configuration no_secret false) as (_ & _ & H).
  apply (H eq_refl
           (sample_env no_fault immediate
              (fun _ => Ret (su_result (service_uploadImage (configure no_secret false)
                                          (Throw (Error "never asked" None))))))
           "https://x/img.png" start).
  intros n. exists (Throw (Error "never asked" None)). reflexivity.
Defined.

(** ** The image of a video request *)

Section VideoSource.
Variable env : Env.

Lemma video_source_checked imageUrl w source w1 :
  video_source env imageUrl w = (Ret source, w1) -> checked_source env imageUrl w.
Proof.
  unfold video_source, checked_source.
  destruct (String.prefix "data:image" imageUrl).
  - intros H. left. split; [reflexivity |].
    apply try_catch_ret_inv in H as [H | (e & w0 & _ & H)]; [| discriminate H].
    destruct (after_single_comma imageUrl) as [payload |]; [| discriminate H].
    destruct (String.eqb_spec payload ""); [discriminate H |].
    split; [exists payload; auto |].
    apply bind_ret_inv in H as (r & w0 & Hup & H).
    unfold uploadImage in Hup.
    destruct (upload_answer env (uploads w)) as [r0 | e]; [| discriminate Hup].
    injection Hup as <- _.
    destruct (cu_success r0) eqn:Hsuccess; [| discriminate H].
    destruct (truthy (cu_secureUrl r0)) eqn:Hurl; [| discriminate H].
    exists r0. auto.
  - intros H. right. split; [reflexivity |].
    apply try_catch_ret_inv in H as [H | (e & w0 & _ & H)].
    2:{ destruct e; discriminate H. }
    destruct (probe_answer env imageUrl) as [| ok status statusText contentType];
      [discriminate H |].
    destruct ok; [| discriminate H]. cbn [negb] in H.
    destruct (String.prefix "image/" (or_lit contentType "")) eqn:Hct; [| discriminate H].
    exists status, statusText, contentType. auto.
Qed.

Lemma imageToVideo_submits imageUrl w :
  video_submits (snd (imageToVideo env imageUrl w)) <> video_submits w ->
  apiKey env <> "" /\ imageUrl <> "" /\ checked_source env imageUrl w.
Proof.
  unfold imageToVideo.
  assert (Hcatch : forall (m : M VideoResult) w0,
             snd (try_catch m (fun error => throw (handleFreepikError error)) w0)
             = snd (m w0)).
  { intros m w0. unfold try_catch. destruct (m w0) as [[a | e] w1]; reflexivity. }
  rewrite Hcatch.
  destruct (String.eqb_spec (apiKey env) ""); [intros H; contradiction H; reflexivity |].
  destruct (String.eqb_spec imageUrl ""); [intros H; contradiction H; reflexivity |].
  unfold bind at 1.
  pose proof (video_source_video env imageUrl w) as (Hkept & _).
  destruct (video_source env imageUrl w) as [[source | e] w1] eqn:Hsource;
    cbn [snd] in Hkept |- *.
  - intros _. split; [assumption |]. split; [assumption |].
    eapply video_source_checked. exact Hsource.
  - intros H. contradiction.
Qed.
End VideoSource.

(** X23: [imageToVideo] of the provider client submits a request to the
    video API only for an image it has checked.  If a submission was made,
    the API key and the image URL are not empty, and the image either was an
    inline image with a single comma and a payload, uploaded with success to
    the media store, or was fetched with success and served with an image
    content type. *)
Theorem video_requested_for_checked_image (env : Env) (imageUrl : string) (w : World) :
  video_submits (snd (imageToVideo env imageUrl w)) <> video_submits w ->
  apiKey env <> "" /\ imageUrl <> "" /\ checked_source env imageUrl w.
Proof. apply imageToVideo_submits. Qed.

(** X23, witness: a remote image that is served as a PNG. *)
Lemma video_requested_for_checked_image_witness :
  checked_source (sample_env no_fault queued stored) "https://x/cat.png" start.
Proof.
  apply (video_requested_for_checked_image (sample_env no_fault queued stored)
           "https://x/cat.png" start).
  vm_compute. discriminate.
Defined.
